(** * Plugin creation service: job orchestrator and build-pipeline executor

    A shallow embedding of [PluginCreationService]
    (services/plugin-creation-service.ts): admission of creation requests
    (duplicate check, name validation, rate limit, capacity, output path
    sandboxing), the job record and its cancellation, the five-phase
    iteration pipeline, and the child-process harness [runCommand].

    Conventions.  JavaScript numbers that hold counts, sizes and epoch
    milliseconds are [Z], which is exact for integers up to [2^53 - 1];
    where a number is read from text of the outside world that bound is a
    hypothesis.  Strings are [string] (one [ascii] per code unit);
    [Map<string, Job>] is [gmap string Job]; [Set<string>] is [gset string].
    A value read from the outside world (clock, uuid generator, working
    directory, provider replies, child-process events) is an explicit
    argument of the operation that reads it. *)

From Stdlib Require Import ZArith String Ascii List Lia Bool QArith DecimalString DecimalPos.
From stdpp Require Import gmap strings list.
Import ListNotations.

Open Scope string_scope.
Open Scope Z_scope.
Open Scope list_scope.

(* ===================================================================== *)
(** * Part I: definitions                                                 *)
(* ===================================================================== *)

(** ** JavaScript string primitives *)

(** [s.startsWith(p)] *)
Definition startsWith (s p : string) : bool := String.prefix p s.

(** [s.includes(needle)] *)
Fixpoint includes (s needle : string) : bool :=
  String.prefix needle s ||
  match s with
  | EmptyString => false
  | String _ r => includes r needle
  end.

Definition charCode (c : ascii) : N := N_of_ascii c.

Definition inRange (lo hi c : ascii) : bool :=
  ((charCode lo <=? charCode c) && (charCode c <=? charCode hi))%N.

Definition isUpper (c : ascii) : bool := inRange "A" "Z" c.
Definition isLower (c : ascii) : bool := inRange "a" "z" c.
Definition isDigit (c : ascii) : bool := inRange "0" "9" c.

Definition lowerChar (c : ascii) : ascii :=
  if isUpper c then ascii_of_N (charCode c + 32) else c.

Fixpoint mapString (f : ascii -> ascii) (s : string) : string :=
  match s with
  | EmptyString => EmptyString
  | String c r => String (f c) (mapString f r)
  end.

(** [s.toLowerCase()] on the ASCII letters. *)
Definition toLowerCase (s : string) : string := mapString lowerChar s.

Fixpoint allChars (p : ascii -> bool) (s : string) : bool :=
  match s with
  | EmptyString => true
  | String c r => p c && allChars p r
  end.

(** [parts.join(sep)] *)
Fixpoint joinWith (sep : string) (parts : list string) : string :=
  match parts with
  | [] => ""
  | [p] => p
  | p :: rest => p +:+ sep +:+ joinWith sep rest
  end.

(** [s.split('/')] *)
Fixpoint splitSlash (s : string) : list string :=
  match s with
  | EmptyString => [""]
  | String c r =>
      if Ascii.eqb c "/" then "" :: splitSlash r
      else match splitSlash r with
           | [] => [String c ""]
           | h :: t => String c h :: t
           end
  end.

(** ** Regular expressions, matched by derivatives

    [RegExp.prototype.test] for a pattern anchored with [^] and [$] (no
    flags) is a match of the whole string. *)

Inductive regex : Type :=
| Void : regex
| Eps : regex
| Chr : (ascii -> bool) -> regex
| Seq : regex -> regex -> regex
| Alt : regex -> regex -> regex
| Star : regex -> regex.

Definition Opt (r : regex) : regex := Alt r Eps.
Definition Plus (r : regex) : regex := Seq r (Star r).

Fixpoint nullable (r : regex) : bool :=
  match r with
  | Void => false
  | Eps => true
  | Chr _ => false
  | Seq a b => nullable a && nullable b
  | Alt a b => nullable a || nullable b
  | Star _ => true
  end.

Fixpoint deriv (c : ascii) (r : regex) : regex :=
  match r with
  | Void => Void
  | Eps => Void
  | Chr p => if p c then Eps else Void
  | Seq a b =>
      if nullable a then Alt (Seq (deriv c a) b) (deriv c b)
      else Seq (deriv c a) b
  | Alt a b => Alt (deriv c a) (deriv c b)
  | Star a => Seq (deriv c a) (Star a)
  end.

Fixpoint matches (r : regex) (s : string) : bool :=
  match s with
  | EmptyString => nullable r
  | String c rest => matches (deriv c r) rest
  end.

(** The language of a regular expression, as a relation. *)
Inductive lang : regex -> string -> Prop :=
| lang_eps : lang Eps ""
| lang_chr (p : ascii -> bool) (c : ascii) : p c = true -> lang (Chr p) (String c "")
| lang_seq a b s t : lang a s -> lang b t -> lang (Seq a b) (s +:+ t)
| lang_alt_l a b s : lang a s -> lang (Alt a b) s
| lang_alt_r a b s : lang b s -> lang (Alt a b) s
| lang_star_nil a : lang (Star a) ""
| lang_star_cons a s t : lang a s -> lang (Star a) t -> lang (Star a) (s +:+ t).

(** ** Name validation and sanitising *)

(** The character class [[a-zA-Z0-9-_]]. *)
Definition nameChar (c : ascii) : bool :=
  isLower c || isUpper c || isDigit c || Ascii.eqb c "-" || Ascii.eqb c "_".

Definition isChar (d : ascii) (c : ascii) : bool := Ascii.eqb c d.

(** [/^@?[a-zA-Z0-9-_]+\/[a-zA-Z0-9-_]+$/] *)
Definition validNameRegex : regex :=
  Seq (Opt (Chr (isChar "@")))
      (Seq (Plus (Chr nameChar)) (Seq (Chr (isChar "/")) (Plus (Chr nameChar)))).

Definition backslash : string := String (ascii_of_N 92) "".

Definition isValidPluginName (name : string) : bool :=
  matches validNameRegex name &&
  negb (includes name "..") &&
  negb (includes name "./") &&
  negb (includes name backslash).

(** [name.replace(/^@/, '')] *)
Definition stripLeadingAt (name : string) : string :=
  match name with
  | String c r => if Ascii.eqb c "@" then r else name
  | EmptyString => name
  end.

(** [s.replace(/\//g, '-')] *)
Definition slashToDash (s : string) : string :=
  mapString (fun c => if Ascii.eqb c "/" then "-"%char else c) s.

Definition sanitizePluginName (name : string) : string :=
  toLowerCase (slashToDash (stripLeadingAt name)).

(** ** Node's [path] module (POSIX)

    [path.join], [path.normalize] and [path.resolve] as Node's
    [path.posix] documents them: a path is cut at ['/'], empty and ["."]
    segments are dropped and [".."] removes the segment before it. *)

Definition isAbsolute (p : string) : bool :=
  match p with
  | String c _ => Ascii.eqb c "/"
  | EmptyString => false
  end.

Fixpoint endsWithSlash (p : string) : bool :=
  match p with
  | EmptyString => false
  | String c EmptyString => Ascii.eqb c "/"
  | String _ r => endsWithSlash r
  end.

Definition normStep (allowAboveRoot : bool) (res : list string) (seg : string)
  : list string :=
  if String.eqb seg "" || String.eqb seg "." then res
  else if String.eqb seg ".." then
    match last res with
    | Some l =>
        if String.eqb l ".."
        then (if allowAboveRoot then res ++ [".."] else res)
        else removelast res
    | None => if allowAboveRoot then [".."] else []
    end
  else res ++ [seg].

Definition normalizeSegments (allowAboveRoot : bool) (path : string) : list string :=
  fold_left (normStep allowAboveRoot) (splitSlash path) [].

Definition normalizeString (path : string) (allowAboveRoot : bool) : string :=
  joinWith "/" (normalizeSegments allowAboveRoot path).

Definition path_normalize (p : string) : string :=
  if String.eqb p "" then "."
  else
    let abs := isAbsolute p in
    let trailing := endsWithSlash p in
    let r := normalizeString p (negb abs) in
    if String.eqb r "" then
      (if abs then "/" else if trailing then "./" else ".")
    else
      let r' := if trailing then r +:+ "/" else r in
      if abs then "/" +:+ r' else r'.

Definition path_join (parts : list string) : string :=
  match List.filter (fun p => negb (String.eqb p "")) parts with
  | [] => "."
  | ps => path_normalize (joinWith "/" ps)
  end.

(** The loop of [path.resolve]: arguments from the right, then the working
    directory, until the path built so far is absolute. *)
Fixpoint resolveLoop (paths : list string) (resolvedPath : string)
  (resolvedAbsolute : bool) : string * bool :=
  match paths with
  | [] => (resolvedPath, resolvedAbsolute)
  | p :: rest =>
      if resolvedAbsolute then (resolvedPath, resolvedAbsolute)
      else if String.eqb p "" then resolveLoop rest resolvedPath resolvedAbsolute
      else resolveLoop rest (p +:+ "/" +:+ resolvedPath) (isAbsolute p)
  end.

Definition path_resolve (cwd : string) (args : list string) : string :=
  let '(resolvedPath, resolvedAbsolute) := resolveLoop (rev args ++ [cwd]) "" false in
  let r := normalizeString resolvedPath (negb resolvedAbsolute) in
  if resolvedAbsolute then "/" +:+ r
  else if String.eqb r "" then "." else r.

(** A path segment that names a directory entry: not empty, not ["."],
    not [".."], and free of ['/']. *)
Definition plainSegment (seg : string) : bool :=
  negb (String.eqb seg "") && negb (String.eqb seg ".") &&
  negb (String.eqb seg "..") && allChars (fun c => negb (Ascii.eqb c "/")) seg.

(** [p] lies strictly below [root]: both are absolute paths written as
    ["/" ++ segments joined by "/"], and the segments of [p] extend those of
    [root] by at least one plain segment. *)
Definition descendantOf (root p : string) : Prop :=
  exists (rootSegs below : list string),
    forallb plainSegment rootSegs = true /\
    forallb plainSegment below = true /\
    below <> [] /\
    root = "/" +:+ joinWith "/" rootSegs /\
    p = "/" +:+ joinWith "/" (rootSegs ++ below).

(** ** Data model *)

Inductive ClaudeModel : Type := SONNET_3_5 | OPUS_3.

Record PluginSpecification : Type := {
  name : string;
  description : string;
  version : option string
}.

Inductive JobStatus : Type := pending | running | completed | failed | cancelled.

Definition isTerminal (st : JobStatus) : bool :=
  match st with
  | completed | failed | cancelled => true
  | pending | running => false
  end.

(** One line of [job.logs]: stands for the string
    [`[${new Date(logTime).toISOString()}] ${logMessage}`]. *)
Record LogLine : Type := { logTime : Z; logMessage : string }.

(** One record of the error ledger [job.errors] (field [error] of the
    source is [errorText] here, [Job] has an [error] field of its own). *)
Record JobError : Type := {
  iteration : Z;
  phase : string;
  errorText : string;
  timestamp : Z
}.

(** [duration] is the numeral matched in the test output, unparsed. *)
Record TestResults : Type := {
  passed : Z;
  testsFailed : Z;
  duration : option string
}.

(** The handle [job.childProcess]: the fields cancellation reads. *)
Record ChildProcess : Type := { pid : Z; killed : bool }.

Record Job : Type := {
  id : string;
  specification : PluginSpecification;
  status : JobStatus;
  currentPhase : string;
  progress : Q;
  logs : list LogLine;
  error : option string;
  result : option string;
  outputPath : string;
  startedAt : Z;
  completedAt : option Z;
  currentIteration : Z;
  maxIterations : Z;
  testResults : option TestResults;
  validationScore : option Z;
  childProcess : option ChildProcess;
  errors : list JobError;
  modelUsed : option ClaudeModel
}.

Definition set_status (v : JobStatus) (j : Job) : Job :=
  {| id := id j; specification := specification j; status := v;
     currentPhase := currentPhase j; progress := progress j; logs := logs j;
     error := error j; result := result j; outputPath := outputPath j;
     startedAt := startedAt j; completedAt := completedAt j;
     currentIteration := currentIteration j;
     maxIterations := maxIterations j; testResults := testResults j;
     validationScore := validationScore j; childProcess := childProcess j;
     errors := errors j; modelUsed := modelUsed j |}.

Definition set_currentPhase (v : string) (j : Job) : Job :=
  {| id := id j; specification := specification j; status := status j;
     currentPhase := v; progress := progress j; logs := logs j;
     error := error j; result := result j; outputPath := outputPath j;
     startedAt := startedAt j; completedAt := completedAt j;
     currentIteration := currentIteration j;
     maxIterations := maxIterations j; testResults := testResults j;
     validationScore := validationScore j; childProcess := childProcess j;
     errors := errors j; modelUsed := modelUsed j |}.

Definition set_progress (v : Q) (j : Job) : Job :=
  {| id := id j; specification := specification j; status := status j;
     currentPhase := currentPhase j; progress := v; logs := logs j;
     error := error j; result := result j; outputPath := outputPath j;
     startedAt := startedAt j; completedAt := completedAt j;
     currentIteration := currentIteration j;
     maxIterations := maxIterations j; testResults := testResults j;
     validationScore := validationScore j; childProcess := childProcess j;
     errors := errors j; modelUsed := modelUsed j |}.

Definition set_logs (v : list LogLine) (j : Job) : Job :=
  {| id := id j; specification := specification j; status := status j;
     currentPhase := currentPhase j; progress := progress j; logs := v;
     error := error j; result := result j; outputPath := outputPath j;
     startedAt := startedAt j; completedAt := completedAt j;
     currentIteration := currentIteration j;
     maxIterations := maxIterations j; testResults := testResults j;
     validationScore := validationScore j; childProcess := childProcess j;
     errors := errors j; modelUsed := modelUsed j |}.

Definition set_error (v : option string) (j : Job) : Job :=
  {| id := id j; specification := specification j; status := status j;
     currentPhase := currentPhase j; progress := progress j; logs := logs j;
     error := v; result := result j; outputPath := outputPath j;
     startedAt := startedAt j; completedAt := completedAt j;
     currentIteration := currentIteration j;
     maxIterations := maxIterations j; testResults := testResults j;
     validationScore := validationScore j; childProcess := childProcess j;
     errors := errors j; modelUsed := modelUsed j |}.

Definition set_completedAt (v : option Z) (j : Job) : Job :=
  {| id := id j; specification := specification j; status := status j;
     currentPhase := currentPhase j; progress := progress j; logs := logs j;
     error := error j; result := result j; outputPath := outputPath j;
     startedAt := startedAt j; completedAt := v;
     currentIteration := currentIteration j;
     maxIterations := maxIterations j; testResults := testResults j;
     validationScore := validationScore j; childProcess := childProcess j;
     errors := errors j; modelUsed := modelUsed j |}.

Definition set_currentIteration (v : Z) (j : Job) : Job :=
  {| id := id j; specification := specification j; status := status j;
     currentPhase := currentPhase j; progress := progress j; logs := logs j;
     error := error j; result := result j; outputPath := outputPath j;
     startedAt := startedAt j; completedAt := completedAt j;
     currentIteration := v; maxIterations := maxIterations j;
     testResults := testResults j; validationScore := validationScore j;
     childProcess := childProcess j; errors := errors j;
     modelUsed := modelUsed j |}.

Definition set_testResults (v : option TestResults) (j : Job) : Job :=
  {| id := id j; specification := specification j; status := status j;
     currentPhase := currentPhase j; progress := progress j; logs := logs j;
     error := error j; result := result j; outputPath := outputPath j;
     startedAt := startedAt j; completedAt := completedAt j;
     currentIteration := currentIteration j;
     maxIterations := maxIterations j; testResults := v;
     validationScore := validationScore j; childProcess := childProcess j;
     errors := errors j; modelUsed := modelUsed j |}.

Definition set_validationScore (v : option Z) (j : Job) : Job :=
  {| id := id j; specification := specification j; status := status j;
     currentPhase := currentPhase j; progress := progress j; logs := logs j;
     error := error j; result := result j; outputPath := outputPath j;
     startedAt := startedAt j; completedAt := completedAt j;
     currentIteration := currentIteration j;
     maxIterations := maxIterations j; testResults := testResults j;
     validationScore := v; childProcess := childProcess j;
     errors := errors j; modelUsed := modelUsed j |}.

Definition set_childProcess (v : option ChildProcess) (j : Job) : Job :=
  {| id := id j; specification := specification j; status := status j;
     currentPhase := currentPhase j; progress := progress j; logs := logs j;
     error := error j; result := result j; outputPath := outputPath j;
     startedAt := startedAt j; completedAt := completedAt j;
     currentIteration := currentIteration j;
     maxIterations := maxIterations j; testResults := testResults j;
     validationScore := validationScore j; childProcess := v;
     errors := errors j; modelUsed := modelUsed j |}.

Definition set_errors (v : list JobError) (j : Job) : Job :=
  {| id := id j; specification := specification j; status := status j;
     currentPhase := currentPhase j; progress := progress j; logs := logs j;
     error := error j; result := result j; outputPath := outputPath j;
     startedAt := startedAt j; completedAt := completedAt j;
     currentIteration := currentIteration j;
     maxIterations := maxIterations j; testResults := testResults j;
     validationScore := validationScore j; childProcess := childProcess j;
     errors := v; modelUsed := modelUsed j |}.


Record Service : Type := {
  jobs : gmap string Job;
  anthropic : option string;
  selectedModel : ClaudeModel;
  createdPlugins : gset string;
  lastJobCreation : Z;
  jobCreationCount : Z;
  dataDirSetting : option string
}.

Definition set_jobs (v : gmap string Job) (s : Service) : Service :=
  {| jobs := v; anthropic := anthropic s; selectedModel := selectedModel s;
     createdPlugins := createdPlugins s;
     lastJobCreation := lastJobCreation s;
     jobCreationCount := jobCreationCount s;
     dataDirSetting := dataDirSetting s |}.

Definition set_anthropic (v : option string) (s : Service) : Service :=
  {| jobs := jobs s; anthropic := v; selectedModel := selectedModel s;
     createdPlugins := createdPlugins s;
     lastJobCreation := lastJobCreation s;
     jobCreationCount := jobCreationCount s;
     dataDirSetting := dataDirSetting s |}.

Definition set_selectedModel (v : ClaudeModel) (s : Service) : Service :=
  {| jobs := jobs s; anthropic := anthropic s; selectedModel := v;
     createdPlugins := createdPlugins s;
     lastJobCreation := lastJobCreation s;
     jobCreationCount := jobCreationCount s;
     dataDirSetting := dataDirSetting s |}.

Definition set_createdPlugins (v : gset string) (s : Service) : Service :=
  {| jobs := jobs s; anthropic := anthropic s;
     selectedModel := selectedModel s; createdPlugins := v;
     lastJobCreation := lastJobCreation s;
     jobCreationCount := jobCreationCount s;
     dataDirSetting := dataDirSetting s |}.

Definition set_lastJobCreation (v : Z) (s : Service) : Service :=
  {| jobs := jobs s; anthropic := anthropic s;
     selectedModel := selectedModel s; createdPlugins := createdPlugins s;
     lastJobCreation := v; jobCreationCount := jobCreationCount s;
     dataDirSetting := dataDirSetting s |}.

Definition set_jobCreationCount (v : Z) (s : Service) : Service :=
  {| jobs := jobs s; anthropic := anthropic s;
     selectedModel := selectedModel s; createdPlugins := createdPlugins s;
     lastJobCreation := lastJobCreation s; jobCreationCount := v;
     dataDirSetting := dataDirSetting s |}.

Definition set_dataDirSetting (v : option string) (s : Service) : Service :=
  {| jobs := jobs s; anthropic := anthropic s;
     selectedModel := selectedModel s; createdPlugins := createdPlugins s;
     lastJobCreation := lastJobCreation s;
     jobCreationCount := jobCreationCount s; dataDirSetting := v |}.



(** ** Completions and effects *)

(** How a call ends: it returns, it throws, or it is still waiting on a
    promise that has not settled. *)
Inductive Completion (A : Type) : Type :=
| Returned (a : A)
| Threw (message : string)
| Awaiting.
Arguments Returned {A} a.
Arguments Threw {A} message.
Arguments Awaiting {A}.

(** Requests the service hands to the host while an operation runs. *)
Inductive Effect : Type :=
| SetTimeout (jobId : string) (ms : Z)
| RunCreationProcess (jobId : string) (useTemplate : bool)
| Kill (child : Z) (signal : string)
| RemoveDir (path : string).

(** What the host answers during one call: [Date.now()] / [new Date()],
    [uuidv4()], [process.cwd()]. *)
Record Host : Type := { now : Z; uuid : string; cwd : string }.

Record Options : Type := { useTemplate : option bool; model : option ClaudeModel }.

Definition truthy (o : option string) : bool :=
  match o with
  | Some k => negb (String.eqb k "")
  | None => false
  end.

(** [this.anthropic] is a client object or [null]. *)
Definition configured (client : option string) : bool :=
  match client with
  | Some _ => true
  | None => false
  end.

Definition initialService (setting : option string) : Service :=
  {| jobs := ∅; anthropic := None; selectedModel := OPUS_3; createdPlugins := ∅;
     lastJobCreation := 0; jobCreationCount := 0; dataDirSetting := setting |}.

(** ** Job log and cancellation *)

Definition pushLog (t : Z) (message : string) (j : Job) : Job :=
  set_logs (logs j ++ [{| logTime := t; logMessage := message |}]) j.

Definition logToJob (jobId : string) (t : Z) (message : string) (s : Service) : Service :=
  match jobs s !! jobId with
  | Some job => set_jobs (<[jobId := pushLog t message job]> (jobs s)) s
  | None => s
  end.

Definition isActive (st : JobStatus) : bool :=
  match st with
  | pending | running => true
  | _ => false
  end.

(** [cancelJob(jobId)].  [child.kill('SIGTERM')] marks the handle [killed]
    only when the signal could be delivered; [delivered] is what the
    operating system answers (it is [false] for a child that has already
    exited). *)
Definition cancelJob (t : Z) (delivered : bool) (jobId : string) (s : Service)
  : Service * list Effect :=
  match jobs s !! jobId with
  | Some job =>
      if isActive (status job) then
        let job1 := set_completedAt (Some t) (set_status cancelled job) in
        let s1 := logToJob jobId t "Job cancelled by user"
                    (set_jobs (<[jobId := job1]> (jobs s)) s) in
        match childProcess job with
        | Some child =>
            if negb (killed child) then
              (set_jobs (alter (set_childProcess
                                  (Some {| pid := pid child; killed := delivered |}))
                               jobId (jobs s1)) s1,
               [Kill (pid child) "SIGTERM"])
            else (s1, [])
        | None => (s1, [])
        end
      else (s, [])
  | None => (s, [])
  end.

(** The callback installed by [createPlugin] with [setTimeout], run 30
    minutes later. *)
Definition jobTimeoutMs : Z := 30 * 60 * 1000.

Definition jobTimedOut (t : Z) (jobId : string) (s : Service) : Service :=
  match jobs s !! jobId with
  | Some jobStatus =>
      if isActive (status jobStatus) then
        logToJob jobId t "Job timed out"
          (set_jobs (<[jobId := set_completedAt (Some t)
                                  (set_error (Some "Job timed out after 30 minutes")
                                     (set_status failed jobStatus))]> (jobs s)) s)
      else s
  | None => s
  end.

(** [stop()]: every pending or running job is cancelled. *)
Definition stopJob (t : Z) (job : Job) : Job :=
  if isActive (status job)
  then pushLog t "Service stopped, job cancelled"
         (set_completedAt (Some t) (set_status cancelled job))
  else job.

Definition stop (t : Z) (s : Service) : Service :=
  set_jobs (stopJob t <$> jobs s) s.

(** ** Retention sweep *)

Definition oneWeekMs : Z := 7 * 24 * 60 * 60 * 1000.

Definition isOld (t : Z) (job : Job) : bool :=
  match completedAt job with
  | Some c => c <? t - oneWeekMs
  | None => false
  end.

Definition cleanupOldJobs (t : Z) (s : Service) : Service * list Effect :=
  let old := filter (fun kv => isOld t (snd kv) = true) (jobs s) in
  (set_jobs (filter (fun kv => isOld t (snd kv) = false) (jobs s)) s,
   (fun kv => RemoveDir (outputPath (snd kv))) <$>
     List.filter (fun kv => negb (String.eqb (outputPath (snd kv)) "")) (map_to_list old)).

(** ** Admission *)

Definition oneHour : Z := 60 * 60 * 1000.

Definition checkRateLimit (t : Z) (s : Service) : bool * Service :=
  let s1 := if oneHour <? t - lastJobCreation s then set_jobCreationCount 0 s else s in
  if 10 <=? jobCreationCount s1 then (false, s1)
  else (true, set_jobCreationCount (jobCreationCount s1 + 1) (set_lastJobCreation t s1)).

Definition getDataDir (processCwd : string) (s : Service) : string :=
  match dataDirSetting s with
  | Some dataDir => if String.eqb dataDir "" then path_join [processCwd; "data"] else dataDir
  | None => path_join [processCwd; "data"]
  end.

Definition duplicateMessage (pluginName : string) : string :=
  "Plugin " +:+ pluginName +:+ " has already been created in this session".
Definition invalidNameMessage : string :=
  "Invalid plugin name. Must follow format: @scope/plugin-name".
Definition rateLimitMessage : string :=
  "Rate limit exceeded. Please wait before creating another plugin.".
Definition capacityMessage : string :=
  "Maximum number of concurrent jobs reached. Please wait for existing jobs to complete.".
Definition outputPathMessage : string := "Invalid output path".

Definition createPlugin (h : Host) (specification : PluginSpecification)
  (apiKey : option string) (options : option Options) (s : Service)
  : Completion string * Service * list Effect :=
  if bool_decide (name specification ∈ createdPlugins s) then
    (Threw (duplicateMessage (name specification)), s, [])
  else if negb (isValidPluginName (name specification)) then
    (Threw invalidNameMessage, s, [])
  else
    let '(allowed, s1) := checkRateLimit (now h) s in
    if negb allowed then (Threw rateLimitMessage, s1, [])
    else if 10 <=? Z.of_nat (size (jobs s1)) then (Threw capacityMessage, s1, [])
    else
      let s2 := if truthy apiKey then set_anthropic apiKey s1 else s1 in
      let model :=
        match options with
        | Some {| model := Some m |} => m
        | _ => selectedModel s2
        end in
      let jobId := uuid h in
      let sanitizedName := sanitizePluginName (name specification) in
      let outputPath :=
        path_join [getDataDir (cwd h) s2; "plugins"; jobId; sanitizedName] in
      let resolvedPath := path_resolve (cwd h) [outputPath] in
      let dataDir := path_resolve (cwd h) [getDataDir (cwd h) s2] in
      if negb (startsWith resolvedPath dataDir) then (Threw outputPathMessage, s2, [])
      else
        let job :=
          {| id := jobId; specification := specification; status := pending;
             currentPhase := "initializing"; progress := 0%Q; logs := [];
             error := None; result := None; outputPath := resolvedPath;
             startedAt := now h; completedAt := None; currentIteration := 0;
             maxIterations := 5; testResults := None; validationScore := None;
             childProcess := None; errors := []; modelUsed := Some model |} in
        let s3 := set_createdPlugins ({[name specification]} ∪ createdPlugins s2)
                    (set_jobs (<[jobId := job]> (jobs s2)) s2) in
        let useTemplate :=
          match options with
          | Some {| useTemplate := Some b |} => b
          | _ => true
          end in
        let s4 :=
          if negb (configured (anthropic s3)) && negb (truthy apiKey)
          then set_jobs (alter (set_status pending) jobId (jobs s3)) s3
          else s3 in
        (Returned jobId, s4,
         [SetTimeout jobId jobTimeoutMs; RunCreationProcess jobId useTemplate]).

(** ** Further operations of the service *)

(** The identifiers held by the [ClaudeModel] constant. *)
Definition modelId (m : ClaudeModel) : string :=
  match m with
  | SONNET_3_5 => "claude-3-5-sonnet-20241022"
  | OPUS_3 => "claude-3-opus-20240229"
  end.

(** [Object.values(ClaudeModel)] *)
Definition claudeModels : list ClaudeModel := [SONNET_3_5; OPUS_3].

(** [initialize(runtime)]; [apiKey], [modelSetting] and [dataDir] are what
    the new runtime answers to [getSetting] for [ANTHROPIC_API_KEY],
    [CLAUDE_MODEL] and [PLUGIN_DATA_DIR].  With [this.runtime = runtime] the
    data directory is from now on the one of the new runtime. *)
Definition initialize (apiKey modelSetting dataDir : option string) (s : Service) : Service :=
  let s0 := set_dataDirSetting dataDir s in
  let s1 := if truthy apiKey then set_anthropic apiKey s0 else s0 in
  if truthy modelSetting then
    match List.find (fun m => bool_decide (Some (modelId m) = modelSetting)) claudeModels with
    | Some m => set_selectedModel m s1
    | None => s1
    end
  else s1.

(** [PluginCreationService.start(runtime)]: the constructor, then
    [initialize], both with the same runtime. *)
Definition start (apiKey modelSetting dataDir : option string) : Service :=
  initialize apiKey modelSetting dataDir (initialService dataDir).

Definition setModel (m : ClaudeModel) (s : Service) : Service := set_selectedModel m s.

Definition isPluginCreated (pluginName : string) (s : Service) : bool :=
  bool_decide (pluginName ∈ createdPlugins s).

(** [getJobStatus(jobId)]; [null] is [None]. *)
Definition getJobStatus (jobId : string) (s : Service) : option Job := jobs s !! jobId.

(** ** Reachable service states

    The states the service passes through: the constructor, [initialize]
    (which [start] calls, and which may be called again), the public
    operations, the timeout callback, and the background pipeline, which
    rewrites the record of a tracked job. *)
Inductive reachable : Service -> Prop :=
| reach_init setting : reachable (initialService setting)
| reach_initialize apiKey modelSetting dataDir s :
    reachable s -> reachable (initialize apiKey modelSetting dataDir s)
| reach_create h specification apiKey options s :
    reachable s ->
    reachable (snd (fst (createPlugin h specification apiKey options s)))
| reach_cancel t delivered jobId s :
    reachable s -> reachable (fst (cancelJob t delivered jobId s))
| reach_timeout t jobId s : reachable s -> reachable (jobTimedOut t jobId s)
| reach_stop t s : reachable s -> reachable (stop t s)
| reach_cleanup t s : reachable s -> reachable (fst (cleanupOldJobs t s))
| reach_setModel m s : reachable s -> reachable (set_selectedModel m s)
| reach_pipeline jobId job' s :
    reachable s -> is_Some (jobs s !! jobId) ->
    reachable (set_jobs (<[jobId := job']> (jobs s)) s).

(** ** The child-process harness of [runCommand]

    The promise returned by [runCommand] is settled by callbacks on the
    child process and by a timer.  The harness state holds the local
    variables of the promise executor; a [ChildEvent] is one callback that
    the event loop runs. *)

Record CmdResult : Type := { success : bool; output : string }.

Inductive Promise (A : Type) : Type :=
| Pending
| Resolved (value : A)
| Rejected (reason : string).
Arguments Pending {A}.
Arguments Resolved {A} value.
Arguments Rejected {A} reason.

(** A chunk delivered to a ['data'] listener: what the listener reads of
    it, [data.length] (bytes) and [data.toString()] (decoded text). *)
Record Buffer : Type := { byteLength : Z; text : string }.

(** Decoding never yields more code units than there are bytes. *)
Definition wellFormedBuffer (data : Buffer) : Prop :=
  0 <= byteLength data /\ Z.of_nat (String.length (text data)) <= byteLength data.

Inductive ChildEvent : Type :=
| OnError (code : string) (message : string)
| OnStdout (data : Buffer)
| OnStderr (data : Buffer)
| OnClose (code : option Z)
| OnExit
| TimerFires (killThrows : bool).

Record Harness : Type := {
  outputBuf : string;
  outputSize : Z;
  promise : Promise CmdResult;
  timeout : option Z;
  harnessLogs : list string;
  signals : list string
}.

Definition maxOutputSize : Z := 1024 * 1024.
Definition commandTimeoutMs : Z := 5 * 60 * 1000.

Definition truncationMarker : string :=
  String (ascii_of_N 10) "[Output truncated due to size limit]".
Definition truncationLog : string := "Output truncated due to size limit".
Definition timeoutMarker : string :=
  String (ascii_of_N 10) "[Process killed due to timeout]".

Definition harnessStart : Harness :=
  {| outputBuf := ""; outputSize := 0; promise := Pending;
     timeout := Some commandTimeoutMs; harnessLogs := []; signals := [] |}.

(** [resolve(r)]: only the first call settles the promise. *)
Definition resolve (r : CmdResult) (st : Harness) : Harness :=
  match promise st with
  | Pending =>
      {| outputBuf := outputBuf st; outputSize := outputSize st; promise := Resolved r;
         timeout := timeout st; harnessLogs := harnessLogs st; signals := signals st |}
  | _ => st
  end.

Definition harnessLog (message : string) (st : Harness) : Harness :=
  {| outputBuf := outputBuf st; outputSize := outputSize st; promise := promise st;
     timeout := timeout st; harnessLogs := harnessLogs st ++ [message];
     signals := signals st |}.

Definition handleData (data : Buffer) (st : Harness) : Harness :=
  let outputSize' := outputSize st + byteLength data in
  if outputSize' <? maxOutputSize then
    {| outputBuf := outputBuf st +:+ text data; outputSize := outputSize';
       promise := promise st; timeout := timeout st; harnessLogs := harnessLogs st;
       signals := signals st |}
  else if (maxOutputSize <=? outputSize') && negb (includes (outputBuf st) "Output truncated")
  then
    harnessLog truncationLog
      {| outputBuf := outputBuf st +:+ truncationMarker; outputSize := outputSize';
         promise := promise st; timeout := timeout st; harnessLogs := harnessLogs st;
         signals := signals st |}
  else
    {| outputBuf := outputBuf st; outputSize := outputSize'; promise := promise st;
       timeout := timeout st; harnessLogs := harnessLogs st; signals := signals st |}.

Definition clearTimeout (st : Harness) : Harness :=
  {| outputBuf := outputBuf st; outputSize := outputSize st; promise := promise st;
     timeout := None; harnessLogs := harnessLogs st; signals := signals st |}.

(** [child.kill('SIGTERM')] inside [try]/[catch]: the signal is sent
    unless the call throws, and the exception goes no further. *)
Definition killChild (killThrows : bool) (st : Harness) : Harness :=
  if killThrows then st
  else
    {| outputBuf := outputBuf st; outputSize := outputSize st; promise := promise st;
       timeout := timeout st; harnessLogs := harnessLogs st;
       signals := signals st ++ ["SIGTERM"] |}.

Definition harnessStep (actualCommand : string) (st : Harness) (ev : ChildEvent)
  : Harness :=
  match ev with
  | OnError code message =>
      if String.eqb code "ENOENT" then
        resolve {| success := false;
                   output := "Error: Command '" +:+ actualCommand +:+ "' not found. "
                             +:+ message |}
          (harnessLog ("Command '" +:+ actualCommand +:+ "' not found") st)
      else
        resolve {| success := false; output := "Process error: " +:+ message |}
          (harnessLog ("Process error: " +:+ message) st)
  | OnStdout data => handleData data st
  | OnStderr data => handleData data st
  | OnClose code =>
      resolve {| success := match code with Some 0 => true | _ => false end;
                 output := outputBuf st |} st
  | OnExit => clearTimeout st
  | TimerFires killThrows =>
      match timeout st with
      | Some _ =>
          let st1 := killChild killThrows (clearTimeout st) in
          resolve {| success := false; output := outputBuf st1 +:+ timeoutMarker |} st1
      | None => st
      end
  end.

Definition runHarness (actualCommand : string) (evs : list ChildEvent) : Harness :=
  fold_left (harnessStep actualCommand) evs harnessStart.

(** The chunks among a sequence of events, the total of their sizes, and
    the text of those accepted below the cap. *)
Definition dataOf (ev : ChildEvent) : option Buffer :=
  match ev with
  | OnStdout data | OnStderr data => Some data
  | _ => None
  end.

Definition totalBytes (evs : list ChildEvent) : Z :=
  fold_left (fun n ev => match dataOf ev with Some d => n + byteLength d | None => n end)
    evs 0.

Definition capturedText (evs : list ChildEvent) : string :=
  snd (fold_left
         (fun acc ev =>
            match dataOf ev with
            | Some d =>
                (fst acc + byteLength d,
                 if fst acc + byteLength d <? maxOutputSize
                 then snd acc +:+ text d else snd acc)
            | None => acc
            end) evs (0, "")).

(** Number of times the truncation marker was appended: each append is
    paired with one [logToJob] of [truncationLog]. *)
Definition markerAppends (st : Harness) : nat :=
  List.length (List.filter (String.eqb truncationLog) (harnessLogs st)).

(** ** Tool resolver *)

Definition packageManagers : list string := ["bun"; "pnpm"; "yarn"; "npm"].

Definition adjustArgs (args : list string) : list string :=
  match args with
  | a :: rest =>
      if String.eqb a "install" then ["install"]
      else if String.eqb a "run" then "run" :: rest
      else if String.eqb a "test" then ["test"]
      else args
  | [] => args
  end.

(** The probes the resolver runs: [execSync(`which ${pm}`)] for each
    package manager in order, up to and including the first one found. *)
Fixpoint probedTools (which : string -> bool) (pms : list string) : list string :=
  match pms with
  | [] => []
  | pm :: rest => pm :: (if which pm then [] else probedTools which rest)
  end.

Definition whichProbes (which : string -> bool) (command : string) : list string :=
  if String.eqb command "npm" then probedTools which packageManagers else [].

(** [which] tells whether [execSync(`which ${cmd}`)] succeeds on the host. *)
Definition resolveTool (which : string -> bool) (command : string) (args : list string)
  : string * list string * list string :=
  if String.eqb command "npm" then
    match List.find which packageManagers with
    | Some pm => (pm, adjustArgs args, ["Using " +:+ pm +:+ " as package manager"])
    | None => (command, args, [])
    end
  else (command, args, []).

(** ** The pipeline monad

    A pipeline step reads and mutates the job record, calls out to the
    host, and may throw.  [M A] threads the job, collects the calls made,
    and carries the completion. *)

(** [CallWhich tool] is [execSync(`which ${tool}`)]: a shell process, run
    in the working directory of the service.  [CallSpawn] is
    [spawn(command, args, {cwd: workdir, shell: false})]. *)
Inductive Call : Type :=
| CallSetup (useTemplate : bool)
| CallGenerate (isFirstIteration : bool) (previousErrors : list JobError)
| CallWhich (tool : string)
| CallSpawn (command : string) (args : list string) (workdir : string)
| CallValidate
| CallPrepare.

Definition M (A : Type) : Type := Job -> Completion A * Job * list Call.

Definition ret {A : Type} (a : A) : M A := fun job => (Returned a, job, []).

Definition bind {A B : Type} (m : M A) (k : A -> M B) : M B :=
  fun job =>
    match m job with
    | (Returned a, job1, calls1) =>
        let '(r, job2, calls2) := k a job1 in (r, job2, calls1 ++ calls2)
    | (Threw message, job1, calls1) => (Threw message, job1, calls1)
    | (Awaiting, job1, calls1) => (Awaiting, job1, calls1)
    end.

Definition throw {A : Type} (message : string) : M A :=
  fun job => (Threw message, job, []).

Definition tryCatch {A : Type} (m : M A) (handler : string -> M A) : M A :=
  fun job =>
    match m job with
    | (Threw message, job1, calls1) =>
        let '(r, job2, calls2) := handler message job1 in (r, job2, calls1 ++ calls2)
    | other => other
    end.

Definition getJob : M Job := fun job => (Returned job, job, []).
Definition modify (f : Job -> Job) : M unit := fun job => (Returned tt, f job, []).
Definition call (c : Call) : M unit := fun job => (Returned tt, job, [c]).

(** Awaiting what the host delivers. *)
Definition await {A : Type} (reply : Completion A) : M A := fun job => (reply, job, []).

#[global] Instance M_ret : MRet M := @ret.
#[global] Instance M_bind : MBind M := fun A B k m => bind m k.

Definition logM (t : Z) (message : string) : M unit := modify (pushLog t message).

Fixpoint logAll (t : Z) (messages : list string) : M unit :=
  match messages with
  | [] => ret tt
  | m :: rest => logM t m ;; logAll t rest
  end.

Fixpoint callAll (calls : list Call) : M unit :=
  match calls with
  | [] => ret tt
  | c :: rest => call c ;; callAll rest
  end.

(** ** Running a command from the pipeline *)

(** What the host delivers for one [runCommand]: the tools on the PATH,
    the exception that [spawn] throws, if it throws (Node reports a missing
    or unreadable binary through the ['error'] event, and throws for other
    failures, such as a working directory that is not a directory), the
    spawned child, the callbacks run until the caller resumes, and the
    clock. *)
Record CommandWorld : Type := {
  which : string -> bool;
  spawnError : option string;
  spawned : ChildProcess;
  events : list ChildEvent;
  clock : Z
}.

(** The promise executor of [runCommand] runs at once: the log line, the
    probes, [spawn], the listeners, the timer, [job.childProcess].  An
    exception of [spawn] leaves the executor and rejects the promise, so
    that the caller's [await] throws it. *)
Definition runCommand (w : CommandWorld) (command : string) (args : list string)
  (description : string) : M CmdResult :=
  job ← getJob;
  logM (clock w) (description +:+ " for " +:+ name (specification job)) ;;
  let '(actualCommand, actualArgs, pmLogs) := resolveTool (which w) command args in
  callAll (CallWhich <$> whichProbes (which w) command) ;;
  logAll (clock w) pmLogs ;;
  call (CallSpawn actualCommand actualArgs (outputPath job)) ;;
  match spawnError w with
  | Some message => throw message
  | None =>
      modify (set_childProcess (Some (spawned w))) ;;
      let st := runHarness actualCommand (events w) in
      logAll (clock w) (harnessLogs st) ;;
      match promise st with
      | Resolved r => ret r
      | Rejected reason => throw reason
      | Pending => await Awaiting
      end
  end.

(** ** Parsing the test runner's output *)

Fixpoint digitsPrefix (s : string) : string * string :=
  match s with
  | String c r =>
      if isDigit c then let '(ds, rest) := digitsPrefix r in (String c ds, rest)
      else ("", s)
  | EmptyString => ("", "")
  end.

(** [parseInt(ds)] for a string [ds] of decimal digits: the integer that
    [ds] denotes.  JavaScript returns the nearest double, which is that
    integer up to [2^53 - 1]; what is stated about parsed counts assumes
    that bound. *)
Fixpoint parseIntFrom (acc : Z) (ds : string) : Z :=
  match ds with
  | String c r => parseIntFrom (10 * acc + (Z.of_N (charCode c) - 48)) r
  | EmptyString => acc
  end.

(** The capture of the leftmost match of [/(\d+)<word>/]. *)
Fixpoint matchCount (word : string) (s : string) : option Z :=
  match s with
  | EmptyString => None
  | String _ r =>
      let '(ds, rest) := digitsPrefix s in
      if negb (String.eqb ds "") && String.prefix word rest
      then Some (parseIntFrom 0 ds)
      else matchCount word r
  end.

(** At the start of [s]: digits, an optional dot, optional digits, then
    ['s']; the capture is the numeral before the ['s'].  (Giving the dot or
    a digit back never helps: the next character is then a dot or a digit,
    not ['s'].) *)
Definition durationAt (s : string) : option string :=
  let '(whole, rest) := digitsPrefix s in
  if String.eqb whole "" then None
  else
    let '(dot, rest1) :=
      match rest with
      | String c r => if Ascii.eqb c "." then (".", r) else ("", rest)
      | EmptyString => ("", rest)
      end in
    let '(frac, rest2) := digitsPrefix rest1 in
    match rest2 with
    | String c _ => if Ascii.eqb c "s" then Some (whole +:+ dot +:+ frac) else None
    | EmptyString => None
    end.

(** The capture of the leftmost match of the pattern
    ['Duration '], numeral, ['s']. *)
Fixpoint matchDuration (s : string) : option string :=
  match s with
  | EmptyString => None
  | String _ r =>
      match (if String.prefix "Duration " s
             then durationAt (String.substring 9 (String.length s - 9) s)
             else None) with
      | Some d => Some d
      | None => matchDuration r
      end
  end.

Definition parseTestResults (out : string) : TestResults :=
  {| passed := default 0 (matchCount " passed" out);
     testsFailed := default 0 (matchCount " failed" out);
     duration := matchDuration out |}.

(** ** Phases *)

(** [validation.issues]: an array of strings, or a value without [join]
    (the field is missing, say), on which [validation.issues.join] throws a
    [TypeError] with the given message. *)
Inductive Issues : Type :=
| IssueList (items : list string)
| NoIssueList (typeError : string).

Record Validation : Type := {
  score : Z;
  production_ready : bool;
  issues : Issues
}.

(** What the host delivers during one round of the pipeline. *)
Record RoundWorld : Type := {
  generateReply : Completion unit;
  installRun : CommandWorld;
  buildRun : CommandWorld;
  lintRun : CommandWorld;
  testRun : CommandWorld;
  validateReply : Completion Validation;
  failureClock : Z;
  prepareReply : Completion unit
}.

(** [`${z}`] for a number that holds the integer [z] exactly: its decimal
    numeral. *)
Definition showZ (z : Z) : string := DecimalString.NilZero.string_of_int (Z.to_int z).

Definition noProviderMessage : string :=
  "AI code generation not available without ANTHROPIC_API_KEY".

Definition generatePluginCode (anthropic : option string) (w : RoundWorld) : M unit :=
  if negb (configured anthropic) then throw noProviderMessage
  else
    job ← getJob;
    let isFirstIteration := currentIteration job =? 1 in
    let previousErrors :=
      List.filter (fun e => iteration e =? currentIteration job - 1) (errors job) in
    call (CallGenerate isFirstIteration previousErrors) ;;
    await (generateReply w).

Definition buildPlugin (w : RoundWorld) : M bool :=
  tryCatch
    (runCommand (installRun w) "npm" ["install"] "Installing dependencies" ;;
     r ← runCommand (buildRun w) "npm" ["run"; "build"] "Building plugin";
     if negb (success r) then modify (set_error (Some (output r))) ;; ret false
     else ret true)
    (fun message => modify (set_error (Some message)) ;; ret false).

Definition lintPlugin (w : RoundWorld) : M bool :=
  tryCatch
    (r ← runCommand (lintRun w) "npm" ["run"; "lint"] "Linting plugin";
     if negb (success r) then modify (set_error (Some (output r))) ;; ret false
     else ret true)
    (fun message => modify (set_error (Some message)) ;; ret false).

Definition testPlugin (w : RoundWorld) : M bool :=
  tryCatch
    (r ← runCommand (testRun w) "npm" ["test"] "Running tests";
     let results := parseTestResults (output r) in
     modify (set_testResults (Some results)) ;;
     if negb (success r) || (0 <? testsFailed results) then
       modify (set_error (Some (showZ (testsFailed results) +:+ " tests failed"))) ;;
       ret false
     else ret true)
    (fun message => modify (set_error (Some message)) ;; ret false).

Definition validatePlugin (anthropic : option string) (w : RoundWorld) : M bool :=
  if negb (configured anthropic) then ret true
  else
    tryCatch
      (call CallValidate ;;
       validation ← await (validateReply w);
       modify (set_validationScore (Some (score validation))) ;;
       if negb (production_ready validation) then
         match issues validation with
         | IssueList items =>
             modify (set_error
                       (Some ("Score: " +:+ showZ (score validation) +:+ "/100. Issues: "
                              +:+ joinWith ", " items))) ;;
             ret false
         | NoIssueList typeError => throw typeError
         end
       else ret true)
      (fun message => modify (set_error (Some message)) ;; ret false).

(** ** One round *)

(** [job.error || fallback] *)
Definition errorOr (fallback : string) (job : Job) : string :=
  match error job with
  | Some e => if String.eqb e "" then fallback else e
  | None => fallback
  end.

Definition pushPhaseError (phaseName fallback : string) (t : Z) : M unit :=
  modify (fun job =>
            set_errors (errors job ++
                        [{| iteration := currentIteration job; phase := phaseName;
                            errorText := errorOr fallback job; timestamp := t |}]) job).

Definition runSingleIteration (anthropic : option string) (w : RoundWorld) : M bool :=
  tryCatch
    (modify (set_currentPhase "generating") ;;
     generatePluginCode anthropic w ;;
     modify (set_currentPhase "building") ;;
     buildSuccess ← buildPlugin w;
     if negb buildSuccess then
       pushPhaseError "building" "Build failed" (failureClock w) ;; ret false
     else
       modify (set_currentPhase "linting") ;;
       lintSuccess ← lintPlugin w;
       if negb lintSuccess then
         pushPhaseError "linting" "Lint failed" (failureClock w) ;; ret false
       else
         modify (set_currentPhase "testing") ;;
         testSuccess ← testPlugin w;
         if negb testSuccess then
           pushPhaseError "testing" "Tests failed" (failureClock w) ;; ret false
         else
           modify (set_currentPhase "validating") ;;
           validationSuccess ← validatePlugin anthropic w;
           if negb validationSuccess then
             pushPhaseError "validating" "Validation failed" (failureClock w) ;;
             ret false
           else ret true)
    (fun message =>
       modify (set_error (Some message)) ;;
       modify (set_completedAt (Some (failureClock w))) ;;
       modify (fun job =>
                 set_errors (errors job ++
                             [{| iteration := currentIteration job;
                                 phase := currentPhase job;
                                 errorText := message;
                                 timestamp := failureClock w |}]) job) ;;
       logM (failureClock w) ("Error in iteration: " +:+ message) ;;
       ret false).

(** ** The creation process *)

Definition prepareNextIteration (w : RoundWorld) : M unit :=
  call CallPrepare ;; await (prepareReply w).

(** What the host delivers over the whole background process; [rounds]
    is indexed by the iteration number. *)
Record ProcessWorld : Type := {
  setupClock : Z;
  templateFound : bool;
  setupReply : Completion unit;
  rounds : Z -> RoundWorld;
  startClock : Z -> Z;
  finishClock : Z
}.

Definition setupPluginWorkspace (pw : ProcessWorld) (useTemplate : bool) : M unit :=
  call (CallSetup useTemplate) ;;
  (if useTemplate then
     if templateFound pw then logM (setupClock pw) "Using plugin-starter template"
     else logM (setupClock pw) "Template not found, using fallback setup"
   else ret tt) ;;
  await (setupReply pw).

Definition showIteration (job : Job) : string :=
  "iteration " +:+ showZ (currentIteration job) +:+ "/" +:+ showZ (maxIterations job).

(** The [while] loop of [runCreationProcess]; [None] when [fuel] rounds
    did not suffice. *)
Fixpoint creationLoop (fuel : nat) (anthropic : option string) (pw : ProcessWorld)
  (success : bool) : M (option bool) :=
  job ← getJob;
  if (currentIteration job <? maxIterations job) && negb success then
    match fuel with
    | O => ret None
    | S fuel' =>
        modify (fun job => set_currentIteration (currentIteration job + 1) job) ;;
        modify (fun job => set_currentPhase (showIteration job) job) ;;
        modify (fun job =>
                  set_progress (inject_Z (currentIteration job)
                                / inject_Z (maxIterations job) * 100)%Q job) ;;
        job1 ← getJob;
        logM (startClock pw (currentIteration job1))
          ("Starting iteration " +:+ showZ (currentIteration job1)) ;;
        success' ← runSingleIteration anthropic (rounds pw (currentIteration job1));
        job2 ← getJob;
        (if negb success' && (currentIteration job2 <? maxIterations job2) then
           modify (set_status running) ;;
           prepareNextIteration (rounds pw (currentIteration job2))
         else ret tt) ;;
        creationLoop fuel' anthropic pw success'
    end
  else ret (Some success).

Definition runCreationProcess (anthropic : option string) (pw : ProcessWorld)
  (useTemplate : bool) : M unit :=
  tryCatch
    (setupPluginWorkspace pw useTemplate ;;
     job ← getJob;
     looped ← creationLoop (Z.to_nat (maxIterations job - currentIteration job))
                 anthropic pw false;
     match looped with
     | None => await Awaiting
     | Some true =>
         modify (set_status completed) ;;
         modify (set_completedAt (Some (finishClock pw))) ;;
         logM (finishClock pw) "Job completed successfully"
     | Some false =>
         modify (set_status failed) ;;
         modify (set_completedAt (Some (finishClock pw))) ;;
         logM (finishClock pw) "Job failed after maximum iterations"
     end)
    (fun message =>
       modify (set_status failed) ;;
       modify (set_error (Some message)) ;;
       modify (set_completedAt (Some (finishClock pw))) ;;
       logM (finishClock pw) ("Unexpected error: " +:+ message)).

(** [completedAt] is set exactly on the terminal statuses. *)
Definition completedIffTerminal (job : Job) : Prop :=
  is_Some (completedAt job) <-> isTerminal (status job) = true.

(** ** Auxiliary notions for the harness *)

(** The chunk of a ['data'] callback is well formed. *)
Definition wellFormedEvent (ev : ChildEvent) : Prop :=
  match dataOf ev with
  | Some d => wellFormedBuffer d
  | None => True
  end.

(** The cap has been reached and the text accepted below it does not
    contain ["Output truncated"]. *)
Definition markerDue (evs : list ChildEvent) : bool :=
  (maxOutputSize <=? totalBytes evs) && negb (includes (capturedText evs) "Output truncated").

(** [s] doubled [n] times: [2^n] copies of [s]. *)
Fixpoint doubled (n : nat) (s : string) : string :=
  match n with
  | O => s
  | S n' => doubled n' (s +:+ s)
  end.

(** A child that prints ["Output truncated"] and then 1 MiB of ['a'] in
    sixteen chunks of 64 KiB. *)
Definition chatter : Buffer := {| byteLength := 16; text := "Output truncated" |}.
Definition pipeChunk : Buffer := {| byteLength := 64 * 1024; text := doubled 16 "a" |}.
Definition floodEvents : list ChildEvent :=
  OnStdout chatter :: List.repeat (OnStderr pipeChunk) 16.
Definition helloEvents : list ChildEvent :=
  [OnStdout {| byteLength := 5; text := "hello" |}; OnExit; OnClose (Some 0)].

(** A child that writes seventeen chunks of 64 KiB: the sixteenth reaches
    the cap. *)
Definition overflowEvents : list ChildEvent := List.repeat (OnStderr pipeChunk) 17.

(** ** Auxiliary notions for the pipeline *)

(** [m] relates the job before, the job after and the calls made by [R],
    whatever the job it starts from. *)
Definition respects (R : Job -> Job -> list Call -> Prop) {A : Type} (m : M A) : Prop :=
  forall job, R job (snd (fst (m job))) (snd (m job)).

(** The fields a phase leaves alone. *)
Definition ledgerKept (job job' : Job) : Prop :=
  errors job' = errors job /\ currentIteration job' = currentIteration job /\
  maxIterations job' = maxIterations job /\ status job' = status job /\
  completedAt job' = completedAt job /\ currentPhase job' = currentPhase job.

(** The calls of the build phase: the two spawns and their probes. *)
Definition buildCall (c : Call) : bool :=
  match c with
  | CallSpawn _ args _ =>
      bool_decide (args = ["install"]) || bool_decide (args = ["run"; "build"])
  | CallWhich _ => true
  | _ => false
  end.

(** A phase keeps the ledger and makes [allowed] calls only. *)
Definition phaseFrame (allowed : Call -> bool) (job job' : Job) (calls : list Call) : Prop :=
  ledgerKept job job' /\ forallb allowed calls = true.

(** The calls of the lint, test and validate phases. *)
Definition laterPhaseCall (c : Call) : bool :=
  match c with
  | CallValidate => true
  | CallSpawn _ args _ => bool_decide (args = ["run"; "lint"]) || bool_decide (args = ["test"])
  | _ => false
  end.

(** The calls made outside the phases: workspace setup and preparation of
    the next iteration. *)
Definition housekeepingCall (c : Call) : bool :=
  match c with
  | CallSetup _ | CallPrepare => true
  | _ => false
  end.

(** Every ledger record added is one of the generate phase, and no phase
    called the host. *)
Definition generationOnly (job job' : Job) (calls : list Call) : Prop :=
  (exists added : list JobError,
     errors job' = errors job ++ added /\
     forallb (fun e => String.eqb (phase e) "generating") added = true) /\
  forallb housekeepingCall calls = true.


(** The job at the start of a round: counter, phase label, progress, log. *)
Definition roundStart (pw : ProcessWorld) (job : Job) : Job :=
  let job1 := set_currentIteration (currentIteration job + 1) job in
  let job2 := set_currentPhase (showIteration job1) job1 in
  let job3 := set_progress (inject_Z (currentIteration job2)
                            / inject_Z (maxIterations job2) * 100)%Q job2 in
  pushLog (startClock pw (currentIteration job3))
    ("Starting iteration " +:+ showZ (currentIteration job3)) job3.

(** ** Auxiliary notions for promises *)

Definition rejected {A : Type} (p : Promise A) : bool :=
  match p with
  | Rejected _ => true
  | _ => false
  end.



(** What the caller of [runCommand] gets to see: the exception of
    [spawn], or else the state of the promise. *)
Definition commandOutcome (w : CommandWorld) (command : string) (args : list string)
  : Completion CmdResult :=
  match spawnError w with
  | Some message => Threw message
  | None =>
      match promise (runHarness (fst (fst (resolveTool (which w) command args))) (events w)) with
      | Resolved r => Returned r
      | Rejected reason => Threw reason
      | Pending => Awaiting
      end
  end.

(** The callbacks that can settle the promise once the child has exited. *)
Definition closesOrFails (ev : ChildEvent) : bool :=
  match ev with
  | OnClose _ | OnError _ _ => true
  | _ => false
  end.

(** The callbacks after which the timer is gone. *)
Definition disarms (ev : ChildEvent) : bool :=
  match ev with
  | OnExit | TimerFires _ => true
  | _ => false
  end.

Definition threw {A : Type} (c : Completion A) : bool :=
  match c with
  | Threw _ => true
  | _ => false
  end.

(** ** Auxiliary notions for paths and admission *)

(** No ['/'] occurs in [s]. *)
Definition noSlash (s : string) : bool := allChars (fun c => negb (Ascii.eqb c "/")) s.

(** A segment that [normStep] keeps or treats as [".."]. *)
Definition notDot (s : string) : bool := negb (String.eqb s "") && negb (String.eqb s ".").

(** Registered names are valid and the limiter's counter is not negative. *)
Definition admissionInvariant (s : Service) : Prop :=
  (forall n, n ∈ createdPlugins s -> isValidPluginName n = true) /\
  0 <= jobCreationCount s.

(** ** Sequences of requests *)

(** One call of [createPlugin] with what the host answers during it. *)
Record Request : Type := {
  reqHost : Host;
  reqSpec : PluginSpecification;
  reqKey : option string;
  reqOptions : option Options
}.

Definition submit (r : Request) (s : Service) : Completion string * Service * list Effect :=
  createPlugin (reqHost r) (reqSpec r) (reqKey r) (reqOptions r) s.

(** Requests served one after the other; the completions in order. *)
Fixpoint submitAll (reqs : list Request) (s : Service) : Service * list (Completion string) :=
  match reqs with
  | [] => (s, [])
  | r :: rest =>
      let '(s2, cs) := submitAll rest (snd (fst (submit r s))) in
      (s2, fst (fst (submit r s)) :: cs)
  end.

Definition isReturned {A : Type} (c : Completion A) : bool :=
  match c with
  | Returned _ => true
  | _ => false
  end.

(** Each time is at most [bound] after the one before it. *)
Fixpoint gapsWithin (bound : Z) (prev : Z) (ts : list Z) : bool :=
  match ts with
  | [] => true
  | t :: rest => (t - prev <=? bound) && gapsWithin bound t rest
  end.

Definition requestTime (r : Request) : Z := now (reqHost r).

Definition requestId (r : Request) : string := uuid (reqHost r).

(** Ten requests one minute apart, an eleventh, and a host whose clock is
    one hour and a millisecond past the tenth. *)
Definition digitChar (n : nat) : string := String (ascii_of_nat (48 + n)) "".

Definition burstRequest (n : nat) : Request :=
  {| reqHost := {| now := 1000 + 60000 * Z.of_nat n;
                   uuid := "9b2f6c1e-5d3a-4e8b-8f00-00000000000" +:+ digitChar n;
                   cwd := "/srv/agent" |};
     reqSpec := {| name := "@acme/plugin-" +:+ digitChar n; description := "sample";
                   version := Some "1.0.0" |};
     reqKey := Some "sk-test"; reqOptions := None |}.

Definition burst : list Request := List.map burstRequest (seq 1 9).

Definition eleventh : Request :=
  {| reqHost := {| now := 700000; uuid := "9b2f6c1e-5d3a-4e8b-8f00-0000000000aa";
                   cwd := "/srv/agent" |};
     reqSpec := {| name := "@acme/plugin-eleven"; description := "sample"; version := None |};
     reqKey := Some "sk-test"; reqOptions := None |}.

Definition anHourLater : Host :=
  {| now := 541000 + 3600001; uuid := "9b2f6c1e-5d3a-4e8b-8f00-0000000000aa";
     cwd := "/srv/agent" |}.

Definition afterBurst : Service :=
  fst (submitAll (burstRequest 0 :: burst) (initialService None)).

(** ** Sample data *)

Definition sampleSpec : PluginSpecification :=
  {| name := "@elizaos/plugin-time"; description := "Provides current time";
     version := Some "1.0.0" |}.

Definition sampleHost : Host :=
  {| now := 1000; uuid := "3b241101-e2bb-4255-8caf-4136c566a962"; cwd := "/srv/agent" |}.

(** The job [createPlugin] registers for [sampleSpec]. *)
Definition sampleJob : Job :=
  {| id := "3b241101-e2bb-4255-8caf-4136c566a962"; specification := sampleSpec;
     status := pending; currentPhase := "initializing"; progress := 0%Q; logs := [];
     error := None; result := None;
     outputPath :=
       "/srv/agent/data/plugins/3b241101-e2bb-4255-8caf-4136c566a962/elizaos-plugin-time";
     startedAt := 1000; completedAt := None; currentIteration := 0; maxIterations := 5;
     testResults := None; validationScore := None; childProcess := None; errors := [];
     modelUsed := Some OPUS_3 |}.

Definition sampleService : Service :=
  snd (fst (createPlugin sampleHost sampleSpec (Some "sk-test") None (initialService None))).

(** A child that prints [out] and exits with [exitCode]; only [npm] is on
    the PATH. *)
Definition commandRun (t : Z) (exitCode : Z) (out : string) : CommandWorld :=
  {| which := fun c => String.eqb c "npm";
     spawnError := None;
     spawned := {| pid := 4711; killed := false |};
     events := [OnStdout {| byteLength := Z.of_nat (String.length out); text := out |};
                OnExit; OnClose (Some exitCode)];
     clock := t |}.

Definition passingRound : RoundWorld :=
  {| generateReply := Returned tt;
     installRun := commandRun 10 0 "installed";
     buildRun := commandRun 20 0 "built";
     lintRun := commandRun 30 0 "clean";
     testRun := commandRun 40 0 "Tests  3 passed (3)  Duration 1.5s";
     validateReply := Returned {| score := 90; production_ready := true; issues := IssueList [] |};
     failureClock := 50; prepareReply := Returned tt |}.

Definition brokenBuildRound : RoundWorld :=
  {| generateReply := Returned tt;
     installRun := commandRun 10 0 "installed";
     buildRun := commandRun 20 2 "error TS2304: Cannot find name";
     lintRun := commandRun 30 0 "clean";
     testRun := commandRun 40 0 "Tests  3 passed (3)  Duration 1.5s";
     validateReply := Returned {| score := 90; production_ready := true; issues := IssueList [] |};
     failureClock := 50; prepareReply := Returned tt |}.

Definition throwingRound : RoundWorld :=
  {| generateReply := Threw "503 overloaded";
     installRun := commandRun 10 0 "installed";
     buildRun := commandRun 20 0 "built";
     lintRun := commandRun 30 0 "clean";
     testRun := commandRun 40 0 "Tests  3 passed (3)  Duration 1.5s";
     validateReply := Returned {| score := 90; production_ready := true; issues := IssueList [] |};
     failureClock := 50; prepareReply := Returned tt |}.

(** The provider fails once, then everything passes. *)
Definition flakyProcess : ProcessWorld :=
  {| setupClock := 5; templateFound := true; setupReply := Returned tt;
     rounds := fun i => if i =? 1 then throwingRound else passingRound;
     startClock := fun i => 100 * i; finishClock := 900 |}.



(** [spawn] throws: the working directory of the job is not a directory. *)
Definition brokenSpawnRun : CommandWorld :=
  {| which := fun c => String.eqb c "npm";
     spawnError := Some "spawn ENOTDIR";
     spawned := {| pid := 4711; killed := false |};
     events := [];
     clock := 10 |}.

(** Every build exits with code 2 and prints nothing. *)
Definition silentRun (t : Z) : CommandWorld :=
  {| which := fun c => String.eqb c "npm";
     spawnError := None;
     spawned := {| pid := 4711; killed := false |};
     events := [OnExit; OnClose (Some 2)];
     clock := t |}.

Definition silentBuildRound : RoundWorld :=
  {| generateReply := Returned tt;
     installRun := commandRun 10 0 "installed";
     buildRun := silentRun 20;
     lintRun := commandRun 30 0 "clean";
     testRun := commandRun 40 0 "Tests  3 passed (3)  Duration 1.5s";
     validateReply := Returned {| score := 90; production_ready := true; issues := IssueList [] |};
     failureClock := 50; prepareReply := Returned tt |}.

Definition silentProcess : ProcessWorld :=
  {| setupClock := 5; templateFound := true; setupReply := Returned tt;
     rounds := fun _ => silentBuildRound;
     startClock := fun i => 100 * i; finishClock := 900 |}.

(** ** Sequences of operations

    What happens to the service between two calls: the public operations,
    the timeout callback of a job, and the background process of a job,
    which rewrites the record of that job and nothing else. *)
Inductive Operation : Type :=
| OpInitialize (apiKey modelSetting dataDir : option string)
| OpCreate (h : Host) (spec : PluginSpecification) (apiKey : option string)
    (options : option Options)
| OpCancel (t : Z) (delivered : bool) (jobId : string)
| OpTimeout (t : Z) (jobId : string)
| OpStop (t : Z)
| OpCleanup (t : Z)
| OpSetModel (m : ClaudeModel)
| OpPipeline (jobId : string) (update : Job -> Job).

Definition perform (s : Service) (op : Operation) : Service :=
  match op with
  | OpInitialize apiKey modelSetting dataDir => initialize apiKey modelSetting dataDir s
  | OpCreate h spec apiKey options =>
      snd (fst (createPlugin h spec apiKey options s))
  | OpCancel t delivered jobId => fst (cancelJob t delivered jobId s)
  | OpTimeout t jobId => jobTimedOut t jobId s
  | OpStop t => stop t s
  | OpCleanup t => fst (cleanupOldJobs t s)
  | OpSetModel m => setModel m s
  | OpPipeline jobId update => set_jobs (alter update jobId (jobs s)) s
  end.

Definition performAll (ops : list Operation) (s : Service) : Service :=
  fold_left perform ops s.

(** An operation that is neither a step of the background process of the
    job [jobId] nor a creation that is given [jobId] as identifier. *)
Definition leavesJobAlone (jobId : string) (op : Operation) : bool :=
  match op with
  | OpPipeline k _ => negb (String.eqb k jobId)
  | OpCreate h _ _ _ => negb (String.eqb (uuid h) jobId)
  | _ => true
  end.

(** The job [jobId] is not tracked, or its status is terminal. *)
Definition settledJob (jobId : string) (s : Service) : Prop :=
  forall job, jobs s !! jobId = Some job -> isActive (status job) = false.

(** ** Auxiliary notions: postconditions of pipeline steps *)

(** Run from [job], the step [m] ends in a completion and a job that
    satisfy [Q]. *)
Definition wp {A : Type} (m : M A) (Q : Completion A -> Job -> Prop) (job : Job) : Prop :=
  Q (fst (fst (m job))) (snd (fst (m job))).

(** The five phase labels of a round. *)
Definition phaseNames : list string :=
  ["generating"; "building"; "linting"; "testing"; "validating"].

(** [success ? 1 : 0] *)
Definition oneIf (b : bool) : Z := if b then 1 else 0.

(** Any call at all. *)
Definition anyCall (c : Call) : bool := true.

(** A step does not clear [job.error]. *)
Definition errorSticky (job job' : Job) (calls : list Call) : Prop :=
  is_Some (error job) -> is_Some (error job').

(** What a round needs to know of a phase that ran from [job]: it did not
    throw, it left the ledger alone, a [false] result comes with an error
    message, and an error message that was there is still there. *)
Definition phaseDone (job : Job) (c : Completion bool) (j : Job) : Prop :=
  threw c = false /\ ledgerKept job j /\
  (c = Returned false -> is_Some (error j)) /\
  (is_Some (error job) -> is_Some (error j)).

(** The texts a round records in place of an empty [job.error]. *)
Definition fallbackTexts : list string :=
  ["Build failed"; "Lint failed"; "Tests failed"; "Validation failed"].

(** The ledger record [e] carries the error message of [job]: its text is
    [job.error], or, when [job.error] is the empty string, a fallback
    text. *)
Definition carriesError (e : JobError) (job : Job) : Prop :=
  error job = Some (errorText e) \/
  (error job = Some "" /\ In (errorText e) fallbackTexts).

(** The last record of the ledger is one of the current iteration and
    carries the error message of the job. *)
Definition lastRecordCarriesError (job : Job) : Prop :=
  exists e : JobError,
    last (errors job) = Some e /\ iteration e = currentIteration job /\ carriesError e job.

(** The outcome of a round, as its caller sees it. *)
Definition roundOutcome (w : RoundWorld) (job : Job) (c : Completion bool) (job' : Job) : Prop :=
  currentIteration job' = currentIteration job /\
  maxIterations job' = maxIterations job /\
  status job' = status job /\
  (is_Some (error job) -> is_Some (error job')) /\
  match c with
  | Returned true =>
      errors job' = errors job /\ completedAt job' = completedAt job /\
      currentPhase job' = "validating"
  | Returned false =>
      is_Some (error job') /\
      exists e : JobError,
        errors job' = errors job ++ [e] /\
        iteration e = currentIteration job /\
        phase e = currentPhase job' /\ In (phase e) phaseNames /\
        timestamp e = failureClock w /\
        (phase e <> "generating" -> completedAt job' = completedAt job) /\
        carriesError e job'
  | Threw _ => False
  | Awaiting => errors job' = errors job /\ completedAt job' = completedAt job
  end.

(** The outcome of the loop run with [fuel] rounds at most, entered with
    the flag [success], from [job]. *)
Definition loopOutcome (fuel : nat) (success : bool) (job : Job)
  (c : Completion (option bool)) (job' : Job) : Prop :=
  maxIterations job' = maxIterations job /\
  currentIteration job <= currentIteration job' /\
  currentIteration job' <= Z.max (currentIteration job) (maxIterations job) /\
  (is_Some (error job) -> is_Some (error job')) /\
  exists added : list JobError,
    errors job' = errors job ++ added /\
    match c with
    | Returned (Some s) =>
        Z.of_nat (List.length added) + oneIf s
          = currentIteration job' - currentIteration job + oneIf success /\
        (s = true \/ maxIterations job <= currentIteration job') /\
        (s = false ->
         success = false /\ (lastRecordCarriesError job' \/ job' = job))
    | Returned None =>
        currentIteration job' = currentIteration job + Z.of_nat fuel /\
        currentIteration job' < maxIterations job
    | Threw _ =>
        Z.of_nat (List.length added) = currentIteration job' - currentIteration job /\
        success = false
    | Awaiting => True
    end.

(** The outcome of the background process run from [job]. *)
Definition processOutcome (pw : ProcessWorld) (job : Job) (c : Completion unit) (job' : Job)
  : Prop :=
  maxIterations job' = maxIterations job /\
  currentIteration job <= currentIteration job' /\
  currentIteration job' <= Z.max (currentIteration job) (maxIterations job) /\
  (is_Some (error job) -> is_Some (error job')) /\
  exists added : list JobError,
    errors job' = errors job ++ added /\
    match c with
    | Returned _ =>
        completedAt job' = Some (finishClock pw) /\
        exists message : string,
          last (logs job') = Some {| logTime := finishClock pw; logMessage := message |} /\
          ((status job' = completed /\ message = "Job completed successfully" /\
            Z.of_nat (List.length added) + 1 = currentIteration job' - currentIteration job) \/
           (status job' = failed /\ message = "Job failed after maximum iterations" /\
            Z.of_nat (List.length added) = currentIteration job' - currentIteration job /\
            maxIterations job <= currentIteration job' /\
            (lastRecordCarriesError job' \/ currentIteration job' = currentIteration job)) \/
           (status job' = failed /\
            Z.of_nat (List.length added) = currentIteration job' - currentIteration job /\
            exists e : string,
              message = "Unexpected error: " +:+ e /\ error job' = Some e))
    | Threw _ => False
    | Awaiting => True
    end.

(** The characters of a sanitised name: [[a-z0-9-_]]. *)
Definition safeChar (c : ascii) : bool :=
  isLower c || isDigit c || Ascii.eqb c "-" || Ascii.eqb c "_".

(** The characters a valid name is made of. *)
Definition validChar (c : ascii) : bool :=
  nameChar c || Ascii.eqb c "@" || Ascii.eqb c "/".

(** No decimal digit occurs in [s]. *)
Definition digitFree (s : string) : bool := allChars (fun c => negb (isDigit c)) s.

(** [Number.MAX_SAFE_INTEGER] *)
Definition maxSafeInteger : Z := 9007199254740991.

(** The first character of [s], if any, is not a digit. *)
Definition startsPlain (s : string) : bool :=
  match s with
  | String c _ => negb (isDigit c)
  | EmptyString => true
  end.

(** ** Writing the generated code *)

(** The white space [String.prototype.trim] strips, among the code units
    below 256: tab, line feed, vertical tab, form feed, carriage return,
    space and no-break space. *)
Definition isWhiteSpace (c : ascii) : bool :=
  ((9 <=? charCode c) && (charCode c <=? 13) || (charCode c =? 32) || (charCode c =? 160))%N.

Fixpoint trimStart (s : string) : string :=
  match s with
  | String c r => if isWhiteSpace c then trimStart r else s
  | EmptyString => EmptyString
  end.

Fixpoint trimEnd (s : string) : string :=
  match s with
  | String c r =>
      match trimEnd r with
      | EmptyString => if isWhiteSpace c then EmptyString else String c EmptyString
      | kept => String c kept
      end
  | EmptyString => EmptyString
  end.

(** [s.trim()] *)
Definition trim (s : string) : string := trimEnd (trimStart s).

(** The loop of [path.dirname] (POSIX): from the last character down to
    index 1, the index of the first ['/'] met after a character that is not
    one.  [chars] holds the characters from index [i] down to index 1. *)
Fixpoint dirnameEnd (i : nat) (chars : list ascii) (matchedSlash : bool) : option nat :=
  match chars with
  | [] => None
  | c :: rest =>
      if Ascii.eqb c "/" then
        if negb matchedSlash then Some i else dirnameEnd (i - 1) rest matchedSlash
      else dirnameEnd (i - 1) rest false
  end.

(** [path.dirname(p)] *)
Definition path_dirname (p : string) : string :=
  match p with
  | EmptyString => "."
  | String c0 tail =>
      let hasRoot := Ascii.eqb c0 "/" in
      match dirnameEnd (String.length tail) (rev (list_ascii_of_string tail)) true with
      | None => if hasRoot then "/" else "."
      | Some e => if hasRoot && (e =? 1)%nat then "//" else String.substring 0 e p
      end
  end.

(** What [writeGeneratedCode] asks of the file system. *)
Inductive FsWrite : Type :=
| EnsureDir (dir : string)
| WriteFile (file : string) (content : string).

(** Where the block with the path [filePath] is written. *)
Definition generatedFilePath (outputPath filePath : string) : string :=
  let normalizedPath := if startsWith filePath "src/" then filePath else "src/" +:+ filePath in
  path_join [outputPath; normalizedPath].

(** [writeGeneratedCode(job, responseText)]; [fileBlocks] holds the two
    captures of each match of [fileRegex] on [responseText], in order. *)
Definition writeGeneratedCode (outputPath responseText : string)
  (fileBlocks : list (string * string)) : list FsWrite :=
  flat_map (fun block =>
              let filePath := trim (fst block) in
              let fileContent := trim (snd block) in
              let fullPath := generatedFilePath outputPath filePath in
              [EnsureDir (path_dirname fullPath); WriteFile fullPath fileContent])
           fileBlocks
  ++ (if negb (includes responseText "File:") && negb (includes responseText "```")
      then [WriteFile (path_join [outputPath; "src"; "index.ts"]) responseText]
      else []).

(** [k] times ["../"]. *)
Fixpoint upPath (k : nat) : string :=
  match k with
  | O => ""
  | S k' => "../" +:+ upPath k'
  end.

(** ** Auxiliary notions for the commands of the pipeline *)

(** The argument lists the pipeline passes to [runCommand]. *)
Definition pipelineCommands : list (list string) :=
  [["install"]; ["run"; "build"]; ["run"; "lint"]; ["test"]].

(** A call that, if it starts a process, spawns a package manager with
    one of the pipeline's argument lists in the directory [wd], or probes
    for a package manager. *)
Definition confinedCall (wd : string) (c : Call) : Prop :=
  match c with
  | CallSpawn tool args workdir =>
      In tool packageManagers /\ In args pipelineCommands /\ workdir = wd
  | CallWhich tool => In tool packageManagers
  | _ => True
  end.

(** From a job whose output path is [wd], the step keeps the output path
    and makes confined calls only. *)
Definition spawnsConfined (wd : string) (job job' : Job) (calls : list Call) : Prop :=
  outputPath job = wd -> outputPath job' = wd /\ Forall (confinedCall wd) calls.

(* ===================================================================== *)
(** * Part II: theorems                                                   *)
(* ===================================================================== *)

#[local] Arguments String.append !s1 s2 : simpl nomatch.

Example isValidPluginName_time : isValidPluginName "@elizaos/plugin-time" = true.
Proof. reflexivity. Qed.

Example isValidPluginName_passwd : isValidPluginName "../../../etc/passwd" = false.
Proof. reflexivity. Qed.

Example sanitizePluginName_time :
  sanitizePluginName "@ElizaOS/plugin-time" = "elizaos-plugin-time".
Proof. reflexivity. Qed.

(** ** Strings, and the output buffer of the harness *)

Lemma append_nil_r (s : string) : s +:+ "" = s.
Proof. induction s as [| c s IH]; simpl; [reflexivity | rewrite IH; reflexivity]. Qed.

Lemma append_assoc (a b c : string) : (a +:+ b) +:+ c = a +:+ (b +:+ c).
Proof. induction a as [| x a IH]; simpl; [reflexivity | rewrite IH; reflexivity]. Qed.

Lemma length_append (a b : string) :
  String.length (a +:+ b) = (String.length a + String.length b)%nat.
Proof. induction a as [| x a IH]; simpl; [reflexivity | rewrite IH; reflexivity]. Qed.

Lemma includes_append_r (a b needle : string) :
  includes b needle = true -> includes (a +:+ b) needle = true.
Proof.
  intros H. induction a as [| x a IH]; simpl; [exact H |].
  rewrite IH. apply orb_true_r.
Qed.

Lemma includes_marker (a : string) : includes (a +:+ truncationMarker) "Output truncated" = true.
Proof. apply includes_append_r. reflexivity. Qed.

Lemma runHarness_snoc (cmd : string) (evs : list ChildEvent) (ev : ChildEvent) :
  runHarness cmd (evs ++ [ev]) = harnessStep cmd (runHarness cmd evs) ev.
Proof. unfold runHarness. rewrite fold_left_app. reflexivity. Qed.

Lemma totalBytes_snoc (evs : list ChildEvent) (ev : ChildEvent) :
  totalBytes (evs ++ [ev]) =
    match dataOf ev with Some d => totalBytes evs + byteLength d | None => totalBytes evs end.
Proof. unfold totalBytes. rewrite fold_left_app. reflexivity. Qed.

Lemma captured_fst (evs : list ChildEvent) :
  fst (fold_left
         (fun acc ev =>
            match dataOf ev with
            | Some d =>
                (fst acc + byteLength d,
                 if fst acc + byteLength d <? maxOutputSize
                 then snd acc +:+ text d else snd acc)
            | None => acc
            end) evs (0, "")) = totalBytes evs.
Proof.
  induction evs as [| ev evs IH] using rev_ind; [reflexivity |].
  rewrite totalBytes_snoc, fold_left_app. simpl.
  destruct (dataOf ev); simpl; rewrite IH; reflexivity.
Qed.

Lemma capturedText_snoc (evs : list ChildEvent) (ev : ChildEvent) :
  capturedText (evs ++ [ev]) =
    match dataOf ev with
    | Some d => if totalBytes evs + byteLength d <? maxOutputSize
                then capturedText evs +:+ text d else capturedText evs
    | None => capturedText evs
    end.
Proof.
  unfold capturedText. rewrite fold_left_app. simpl.
  destruct (dataOf ev); simpl; [rewrite captured_fst |]; reflexivity.
Qed.

Lemma totalBytes_nonneg (evs : list ChildEvent) :
  Forall wellFormedEvent evs -> 0 <= totalBytes evs.
Proof.
  induction evs as [| ev evs IH] using rev_ind; intros Hwf; [reflexivity |].
  apply Forall_app in Hwf as [Hevs Hev]. specialize (IH Hevs).
  rewrite totalBytes_snoc. inversion Hev as [| ? ? Hd _]; subst.
  unfold wellFormedEvent, wellFormedBuffer in Hd. destruct (dataOf ev); lia.
Qed.

Lemma capturedText_bound (evs : list ChildEvent) :
  Forall wellFormedEvent evs ->
  Z.of_nat (String.length (capturedText evs)) <= totalBytes evs /\
  Z.of_nat (String.length (capturedText evs)) < maxOutputSize.
Proof.
  induction evs as [| ev evs IH] using rev_ind; intros Hwf.
  - split; [reflexivity | reflexivity].
  - apply Forall_app in Hwf as [Hevs Hev]. specialize (IH Hevs) as [IH1 IH2].
    rewrite totalBytes_snoc, capturedText_snoc.
    inversion Hev as [| ? ? Hd _]; subst.
    unfold wellFormedEvent, wellFormedBuffer in Hd.
    destruct (dataOf ev) as [d |]; [| auto].
    destruct (totalBytes evs + byteLength d <? maxOutputSize) eqn:Hlt.
    + apply Z.ltb_lt in Hlt. rewrite length_append, Nat2Z.inj_add. lia.
    + lia.
Qed.

Lemma filter_length_snoc {A : Type} (p : A -> bool) (l : list A) (x : A) :
  List.length (List.filter p (l ++ [x])) =
    (List.length (List.filter p l) + (if p x then 1 else 0))%nat.
Proof.
  rewrite List.filter_app, List.length_app. cbn [List.filter].
  destruct (p x); reflexivity.
Qed.

Lemma harness_output_invariant (cmd : string) (evs : list ChildEvent) :
  Forall wellFormedEvent evs ->
  outputSize (runHarness cmd evs) = totalBytes evs /\
  outputBuf (runHarness cmd evs) =
    capturedText evs +:+ (if markerDue evs then truncationMarker else "") /\
  markerAppends (runHarness cmd evs) = (if markerDue evs then 1 else 0)%nat.
Proof.
  induction evs as [| ev evs IH] using rev_ind; intros Hwf.
  - repeat split.
  - apply Forall_app in Hwf as [Hevs Hev]. specialize (IH Hevs) as (Hsize & Hbuf & Hmark).
    pose proof (totalBytes_nonneg evs Hevs) as Hnn.
    inversion Hev as [| ? ? Hd _]; subst.
    unfold wellFormedEvent, wellFormedBuffer in Hd.
    rewrite runHarness_snoc. unfold markerDue in *.
    rewrite totalBytes_snoc, capturedText_snoc.
    set (st := runHarness cmd evs) in *.
    assert (Hdata : forall d, dataOf ev = Some d -> harnessStep cmd st ev = handleData d st).
    { intros d Hd'. destruct ev; simpl in Hd'; inversion Hd'; subst; reflexivity. }
    destruct (dataOf ev) as [d |] eqn:Hde.
    + rewrite (Hdata d eq_refl). unfold handleData. rewrite Hsize.
      destruct (totalBytes evs + byteLength d <? maxOutputSize) eqn:Hlt.
      * apply Z.ltb_lt in Hlt.
        assert (Hle : (maxOutputSize <=? totalBytes evs + byteLength d) = false) by (apply Z.leb_gt; lia).
        assert (Hle0 : (maxOutputSize <=? totalBytes evs) = false) by (apply Z.leb_gt; lia).
        rewrite Hle. rewrite Hle0 in Hbuf, Hmark. simpl in *.
        rewrite Hbuf, !append_nil_r. unfold markerAppends in *. simpl. auto.
      * apply Z.ltb_ge in Hlt.
        assert (Hle : (maxOutputSize <=? totalBytes evs + byteLength d) = true) by (apply Z.leb_le; lia).
        rewrite Hle. cbn [andb].
        destruct (maxOutputSize <=? totalBytes evs) eqn:Hle0; cbn [andb] in Hbuf, Hmark.
        -- destruct (includes (capturedText evs) "Output truncated") eqn:Hinc;
             cbn [negb] in Hbuf, Hmark |- *; rewrite Hbuf.
           ++ rewrite append_nil_r, Hinc. cbn [negb]. rewrite ?append_nil_r. auto.
           ++ rewrite includes_marker. cbn [negb]. auto.
        -- rewrite append_nil_r in Hbuf. rewrite Hbuf.
           destruct (includes (capturedText evs) "Output truncated") eqn:Hinc; cbn [negb].
           ++ rewrite ?append_nil_r. auto.
           ++ unfold markerAppends in *. unfold harnessLog. cbn [harnessLogs outputBuf outputSize].
              rewrite filter_length_snoc, Hmark. auto.
    + assert (Hkeep : outputSize (harnessStep cmd st ev) = outputSize st /\
                      outputBuf (harnessStep cmd st ev) = outputBuf st /\
                      markerAppends (harnessStep cmd st ev) = markerAppends st).
      { unfold markerAppends.
        destruct ev; simpl in Hde; try discriminate; simpl.
        - destruct (String.eqb code "ENOENT"); unfold resolve, harnessLog; simpl;
            destruct (promise st); simpl; rewrite ?List.filter_app; simpl;
            rewrite ?List.length_app; simpl; auto with lia.
        - unfold resolve; destruct (promise st); simpl; auto.
        - auto.
        - destruct (timeout st); [| auto].
          unfold resolve, killChild, clearTimeout. destruct killThrows; simpl;
            destruct (promise st); simpl; auto. }
      destruct Hkeep as (-> & -> & ->). auto.
Qed.

Lemma length_doubled (n : nat) (s : string) :
  Z.of_nat (String.length (doubled n s)) = 2 ^ Z.of_nat n * Z.of_nat (String.length s).
Proof.
  revert s. induction n as [| n IH]; intros s.
  - cbn [doubled]. change (Z.of_nat 0) with 0. lia.
  - cbn [doubled]. rewrite IH, length_append, Nat2Z.inj_add, Nat2Z.inj_succ, Z.pow_succ_r by lia.
    lia.
Qed.

(** X27.  The output buffer of the harness.  For every invocation and
    every sequence of callbacks whose chunks are well formed: the buffer is
    shorter than the 1 MiB cap plus the marker; it is the text of the
    chunks accepted below the cap, followed by the marker exactly when
    [markerDue], that is when the cap has been reached and the accepted
    text does not itself contain ["Output truncated"]; the marker is
    appended at most once; and once the cap has been reached a further
    chunk leaves the buffer as it is. *)
Theorem output_capped_marker_at_most_once (cmd : string) (evs : list ChildEvent) :
  Forall wellFormedEvent evs ->
  Z.of_nat (String.length (outputBuf (runHarness cmd evs)))
    < maxOutputSize + Z.of_nat (String.length truncationMarker) /\
  (markerAppends (runHarness cmd evs) <= 1)%nat /\
  outputBuf (runHarness cmd evs) =
    capturedText evs +:+ (if markerDue evs then truncationMarker else "") /\
  markerAppends (runHarness cmd evs) = (if markerDue evs then 1 else 0)%nat /\
  (forall d : Buffer,
     wellFormedBuffer d -> maxOutputSize <= totalBytes evs ->
     outputBuf (harnessStep cmd (runHarness cmd evs) (OnStdout d))
       = outputBuf (runHarness cmd evs) /\
     outputBuf (harnessStep cmd (runHarness cmd evs) (OnStderr d))
       = outputBuf (runHarness cmd evs)).
Proof.
  intros Hwf.
  pose proof (harness_output_invariant cmd evs Hwf) as (Hsize & Hbuf & Hmark).
  pose proof (capturedText_bound evs Hwf) as [_ Hcap].
  split; [| split; [| split; [exact Hbuf | split; [exact Hmark |]]]].
  - rewrite Hbuf, length_append, Nat2Z.inj_add.
    destruct (markerDue evs); [lia |]. change (Z.of_nat (String.length "")) with 0.
    assert (0 <= Z.of_nat (String.length truncationMarker)) by lia. lia.
  - rewrite Hmark. destruct (markerDue evs); lia.
  - intros d Hd Hreached.
    assert (Hone : forall ev, dataOf ev = Some d ->
              outputBuf (harnessStep cmd (runHarness cmd evs) ev) = outputBuf (runHarness cmd evs)).
    { intros ev Hev.
      assert (Hwf' : Forall wellFormedEvent (evs ++ [ev])).
      { apply Forall_app. split; [exact Hwf |]. constructor; [| constructor].
        unfold wellFormedEvent. rewrite Hev. exact Hd. }
      pose proof (harness_output_invariant cmd (evs ++ [ev]) Hwf') as (_ & Hbuf' & _).
      rewrite runHarness_snoc in Hbuf'. rewrite Hbuf', Hbuf.
      unfold markerDue. rewrite capturedText_snoc, totalBytes_snoc, Hev.
      destruct Hd as [Hd0 _].
      rewrite (proj2 (Z.ltb_ge _ _)) by lia.
      rewrite (proj2 (Z.leb_le maxOutputSize (totalBytes evs))) by lia.
      rewrite (proj2 (Z.leb_le maxOutputSize (totalBytes evs + byteLength d))) by lia.
      reflexivity. }
    split; apply Hone; reflexivity.
Qed.

Lemma pipeChunks_wellFormed (n : nat) :
  Forall wellFormedEvent (List.repeat (OnStderr pipeChunk) n).
Proof.
  apply List.Forall_forall. intros ev Hin. apply List.repeat_spec in Hin. subst ev.
  unfold wellFormedEvent, wellFormedBuffer. cbn [dataOf pipeChunk byteLength text].
  rewrite length_doubled. split; [discriminate | reflexivity].
Qed.

Lemma output_capped_marker_at_most_once_witness :
  maxOutputSize <= totalBytes overflowEvents /\
  markerAppends (runHarness "npm" overflowEvents) = 1%nat /\
  outputBuf (runHarness "npm" overflowEvents) = capturedText overflowEvents +:+ truncationMarker.
Proof.
  destruct (output_capped_marker_at_most_once "npm" overflowEvents (pipeChunks_wellFormed 17))
    as (_ & _ & Hbuf & Hmark & _).
  assert (Hdue : markerDue overflowEvents = true) by (vm_compute; reflexivity).
  rewrite Hdue in Hbuf, Hmark.
  split; [vm_compute; discriminate |]. exact (conj Hmark Hbuf).
Defined.

(** Claim C5 does not hold of the code.  The harness decides whether the
    marker has been appended by searching the buffer for the text
    ["Output truncated"], so that output of the child that contains this text
    counts as the marker: a child that prints ["Output truncated"] and
    then 1 MiB more reaches the cap, its further output is discarded, and
    no marker is appended. *)
Lemma cap_reached_without_marker :
  Forall wellFormedEvent floodEvents /\
  maxOutputSize <= outputSize (runHarness "npm" floodEvents) /\
  markerAppends (runHarness "npm" floodEvents) = 0%nat /\
  markerAppends (runHarness "npm" floodEvents) <> 1%nat /\
  includes (outputBuf (runHarness "npm" floodEvents)) "Output truncated" = true.
Proof.
  split.
  - constructor.
    + unfold wellFormedEvent, wellFormedBuffer. cbn [dataOf chatter byteLength text].
      split; [lia | reflexivity].
    + apply pipeChunks_wellFormed.
  - assert (Hm : markerAppends (runHarness "npm" floodEvents) = 0%nat) by reflexivity.
    split; [| split; [exact Hm | split; [rewrite Hm; discriminate | reflexivity]]].
    replace (outputSize (runHarness "npm" floodEvents)) with (16 + 1024 * 1024) by reflexivity.
    unfold maxOutputSize. lia.
Qed.

(** ** Cancellation *)

Lemma isActive_terminal (st : JobStatus) : isActive st = negb (isTerminal st).
Proof. destruct st; reflexivity. Qed.

(** Claim C8.  Cancelling a tracked job whose status is terminal changes
    nothing (the service state is returned as it was, no signal is sent);
    cancelling a pending or running job sets its status to [cancelled],
    stamps [completedAt] and appends one log line. *)
Theorem cancelJob_idempotent_on_terminal (t : Z) (delivered : bool) (jobId : string)
  (s : Service) (job : Job) :
  jobs s !! jobId = Some job ->
  (isTerminal (status job) = true ->
     cancelJob t delivered jobId s = (s, []) /\
     jobs (fst (cancelJob t delivered jobId s)) !! jobId = Some job) /\
  (isTerminal (status job) = false ->
     exists job', jobs (fst (cancelJob t delivered jobId s)) !! jobId = Some job' /\
       status job' = cancelled /\ completedAt job' = Some t /\
       logs job' = logs job ++ [{| logTime := t; logMessage := "Job cancelled by user" |}]).
Proof.
  intros Hj. unfold cancelJob. rewrite Hj, isActive_terminal. split; intros Ht; rewrite Ht; simpl.
  - split; [reflexivity | exact Hj].
  - unfold logToJob. cbn [jobs set_jobs]. rewrite lookup_insert_eq.
    destruct (childProcess job) as [child|] eqn:Hc.
    + destruct (killed child); simpl.
      * rewrite lookup_insert_eq. eexists; split; [reflexivity|]. simpl. auto.
      * rewrite lookup_alter_eq, lookup_insert_eq. simpl.
        eexists; split; [reflexivity|]. simpl. auto.
    + simpl. rewrite lookup_insert_eq. eexists; split; [reflexivity|]. simpl. auto.
Qed.

(** ** The rate limiter *)

Lemma checkRateLimit_jobs (t : Z) (s : Service) :
  jobs (snd (checkRateLimit t s)) = jobs s /\
  createdPlugins (snd (checkRateLimit t s)) = createdPlugins s /\
  anthropic (snd (checkRateLimit t s)) = anthropic s /\
  dataDirSetting (snd (checkRateLimit t s)) = dataDirSetting s /\
  selectedModel (snd (checkRateLimit t s)) = selectedModel s.
Proof.
  unfold checkRateLimit.
  destruct (oneHour <? t - lastJobCreation s); simpl; auto.
  destruct (10 <=? jobCreationCount s); simpl; auto.
Qed.

Lemma checkRateLimit_refused (t : Z) (s : Service) :
  fst (checkRateLimit t s) = false -> snd (checkRateLimit t s) = s.
Proof.
  unfold checkRateLimit.
  destruct (oneHour <? t - lastJobCreation s) eqn:Hr; simpl.
  - discriminate.
  - destruct (10 <=? jobCreationCount s); simpl; [reflexivity | discriminate].
Qed.

Lemma checkRateLimit_passed (t : Z) (s : Service) :
  fst (checkRateLimit t s) = true ->
  jobCreationCount (snd (checkRateLimit t s)) =
    (if oneHour <? t - lastJobCreation s then 0 else jobCreationCount s) + 1 /\
  lastJobCreation (snd (checkRateLimit t s)) = t.
Proof.
  unfold checkRateLimit.
  destruct (oneHour <? t - lastJobCreation s) eqn:Hr; simpl.
  - auto.
  - destruct (10 <=? jobCreationCount s); simpl; [discriminate | auto].
Qed.

(** Claim C10.  A request with an unused, valid name that the rate limiter
    lets through while 10 or more jobs are tracked is rejected with the
    capacity error and creates no job, yet the limiter has counted it: the
    counter is one above its value after the lazy reset and the time of the
    last creation is the time of this request. *)
Theorem capacity_rejection_consumes_rate_budget
  (h : Host) (specification : PluginSpecification) (apiKey : option string)
  (options : option Options) (s : Service) :
  name specification ∉ createdPlugins s ->
  isValidPluginName (name specification) = true ->
  fst (checkRateLimit (now h) s) = true ->
  10 <= Z.of_nat (size (jobs s)) ->
  let r := createPlugin h specification apiKey options s in
  fst (fst r) = Threw capacityMessage /\
  snd r = [] /\
  jobs (snd (fst r)) = jobs s /\
  createdPlugins (snd (fst r)) = createdPlugins s /\
  jobCreationCount (snd (fst r)) =
    (if oneHour <? now h - lastJobCreation s then 0 else jobCreationCount s) + 1 /\
  lastJobCreation (snd (fst r)) = now h.
Proof.
  intros Hfresh Hvalid Hrate Hcap. unfold createPlugin.
  rewrite bool_decide_eq_false_2 by exact Hfresh.
  rewrite Hvalid. simpl negb. cbv iota.
  pose proof (checkRateLimit_jobs (now h) s) as (Hj & Hp & _).
  pose proof (checkRateLimit_passed (now h) s Hrate) as (Hn & Hl).
  destruct (checkRateLimit (now h) s) as [allowed s1] eqn:Hc. simpl in Hrate, Hj, Hp, Hn, Hl. subst allowed. simpl negb. cbv iota.
  rewrite Hj. destruct (10 <=? Z.of_nat (size (jobs s))) eqn:Hsz; [| lia].
  simpl. repeat split; assumption || reflexivity.
Qed.

(** ** Frames of the pipeline phases *)

Ltac run_monad :=
  unfold mbind, M_bind, bind, mret, M_ret, ret, modify, call, await, throw, getJob, tryCatch, logM.

Section Respects.
Variable R : Job -> Job -> list Call -> Prop.
Hypothesis R_refl : forall job, R job job [].
Hypothesis R_trans : forall j1 j2 j3 c1 c2, R j1 j2 c1 -> R j2 j3 c2 -> R j1 j3 (c1 ++ c2).

Lemma respects_ret {A : Type} (a : A) : respects R (ret a).
Proof. intros job. apply R_refl. Qed.

Lemma respects_throw {A : Type} (message : string) : respects R (throw (A := A) message).
Proof. intros job. apply R_refl. Qed.

Lemma respects_await {A : Type} (reply : Completion A) : respects R (await reply).
Proof. intros job. apply R_refl. Qed.

Lemma respects_getJob : respects R getJob.
Proof. intros job. apply R_refl. Qed.

Lemma respects_bind {A B : Type} (m : M A) (k : A -> M B) :
  respects R m -> (forall a, respects R (k a)) -> respects R (m ≫= k).
Proof.
  intros Hm Hk job. specialize (Hm job). run_monad.
  destruct (m job) as [[[a | message |] job1] calls1]; simpl in *; try exact Hm.
  specialize (Hk a job1). destruct (k a job1) as [[r job2] calls2]; simpl in *.
  eapply R_trans; eassumption.
Qed.

Lemma respects_tryCatch {A : Type} (m : M A) (handler : string -> M A) :
  respects R m -> (forall message, respects R (handler message)) ->
  respects R (tryCatch m handler).
Proof.
  intros Hm Hh job. specialize (Hm job). unfold tryCatch.
  destruct (m job) as [[[a | message |] job1] calls1]; simpl in *; try exact Hm.
  specialize (Hh message job1). destruct (handler message job1) as [[r job2] calls2]; simpl in *.
  eapply R_trans; eassumption.
Qed.

Lemma respects_modify (f : Job -> Job) :
  (forall job, R job (f job) []) -> respects R (modify f).
Proof. intros Hf job. apply Hf. Qed.

Lemma respects_call (c : Call) : (forall job, R job job [c]) -> respects R (call c).
Proof. intros Hc job. apply Hc. Qed.

Lemma respects_logAll (t : Z) (messages : list string) :
  (forall m job, R job (pushLog t m job) []) -> respects R (logAll t messages).
Proof.
  intros Hl. induction messages as [| m rest IH]; simpl.
  - apply respects_ret.
  - apply respects_bind; [apply respects_modify; apply Hl | intros _; exact IH].
Qed.

Lemma respects_callAll (calls : list Call) :
  (forall c job, In c calls -> R job job [c]) -> respects R (callAll calls).
Proof.
  induction calls as [| c rest IH]; intros Hc; cbn [callAll].
  - apply respects_ret.
  - apply respects_bind.
    + apply respects_call. intros job. apply Hc. left. reflexivity.
    + intros _. apply IH. intros c' job Hin. apply Hc. right. exact Hin.
Qed.
End Respects.

Lemma ledgerKept_refl (job : Job) : ledgerKept job job.
Proof. repeat split. Qed.

Lemma ledgerKept_trans (j1 j2 j3 : Job) : ledgerKept j1 j2 -> ledgerKept j2 j3 -> ledgerKept j1 j3.
Proof.
  unfold ledgerKept. intros (?&?&?&?&?&?) (?&?&?&?&?&?). repeat split; congruence.
Qed.

Lemma phaseFrame_refl (allowed : Call -> bool) (job : Job) : phaseFrame allowed job job [].
Proof. split; [apply ledgerKept_refl | reflexivity]. Qed.

Lemma phaseFrame_trans (allowed : Call -> bool) (j1 j2 j3 : Job) (c1 c2 : list Call) :
  phaseFrame allowed j1 j2 c1 -> phaseFrame allowed j2 j3 c2 -> phaseFrame allowed j1 j3 (c1 ++ c2).
Proof.
  intros [H1 F1] [H2 F2]. split; [eapply ledgerKept_trans; eassumption |].
  rewrite forallb_app, F1, F2. reflexivity.
Qed.

Lemma adjustArgs_build (args : list string) :
  args = ["install"] \/ args = ["run"; "build"] -> adjustArgs args = args.
Proof. intros [-> | ->]; reflexivity. Qed.

Lemma resolveTool_args (wh : string -> bool) (args : list string) :
  args = ["install"] \/ args = ["run"; "build"] ->
  snd (fst (resolveTool wh "npm" args)) = args.
Proof.
  intros H. unfold resolveTool.
  change (String.eqb "npm" "npm") with true. cbv iota.
  destruct (List.find wh packageManagers); cbn [fst snd];
    [apply adjustArgs_build; exact H | reflexivity].
Qed.

Ltac frame_step Hr Ht :=
  first
    [ apply (respects_ret _ Hr)
    | apply (respects_throw _ Hr)
    | apply (respects_await _ Hr)
    | apply (respects_getJob _ Hr)
    | apply (respects_modify _); intros; split; [repeat split | reflexivity]
    | apply (respects_logAll _ Hr Ht); intros; split; [repeat split | reflexivity]
    | apply (respects_bind _ Ht); [| intros ?]
    | apply (respects_tryCatch _ Ht); [| intros ?] ].

Lemma in_fmap_CallWhich (c : Call) (tools : list string) :
  In c (CallWhich <$> tools) -> exists tool, c = CallWhich tool.
Proof.
  intros Hin. apply list_elem_of_In, list_elem_of_fmap in Hin as (tool & -> & _).
  exists tool. reflexivity.
Qed.

Lemma runCommand_respects (allowed : Call -> bool) (w : CommandWorld)
  (command : string) (args : list string) (description : string) :
  (forall tool, allowed (CallWhich tool) = true) ->
  (forall workdir, allowed (CallSpawn (fst (fst (resolveTool (which w) command args)))
                              (snd (fst (resolveTool (which w) command args))) workdir) = true) ->
  respects (phaseFrame allowed) (runCommand w command args description).
Proof.
  intros Hw Hc. unfold runCommand.
  pose proof (phaseFrame_refl allowed) as Hr.
  pose proof (phaseFrame_trans allowed) as Ht.
  frame_step Hr Ht. frame_step Hr Ht.
  frame_step Hr Ht. frame_step Hr Ht.
  destruct (resolveTool (which w) command args) as [[actualCommand actualArgs] pmLogs]; simpl in Hc.
  frame_step Hr Ht.
  { apply (respects_callAll _ Hr Ht). intros c job Hin.
    apply in_fmap_CallWhich in Hin as [tool ->].
    split; [repeat split | simpl; rewrite Hw; reflexivity]. }
  frame_step Hr Ht. frame_step Hr Ht.
  frame_step Hr Ht.
  { apply respects_call. intros; split; [repeat split | simpl; rewrite Hc; reflexivity]. }
  destruct (spawnError w); [frame_step Hr Ht |].
  frame_step Hr Ht. frame_step Hr Ht.
  frame_step Hr Ht. frame_step Hr Ht.
  destruct (promise _); frame_step Hr Ht.
Qed.

Lemma buildPlugin_respects (w : RoundWorld) : respects (phaseFrame buildCall) (buildPlugin w).
Proof.
  pose proof (phaseFrame_refl buildCall) as Hr.
  pose proof (phaseFrame_trans buildCall) as Ht.
  unfold buildPlugin. frame_step Hr Ht.
  - frame_step Hr Ht.
    + apply runCommand_respects; [reflexivity |].
      intros wd. rewrite resolveTool_args by auto. reflexivity.
    + frame_step Hr Ht.
      * apply runCommand_respects; [reflexivity |].
        intros wd. rewrite resolveTool_args by auto. reflexivity.
      * destruct (negb (success a0)); repeat frame_step Hr Ht.
  - repeat frame_step Hr Ht.
Qed.

Lemma generatePluginCode_run (anthropic : option string) (w : RoundWorld) (job : Job) :
  generatePluginCode anthropic w job =
    if configured anthropic then
      (generateReply w, job,
       [CallGenerate (currentIteration job =? 1)
          (List.filter (fun e => iteration e =? currentIteration job - 1) (errors job))])
    else (Threw noProviderMessage, job, []).
Proof.
  unfold generatePluginCode. destruct (configured anthropic); simpl; [| reflexivity].
  run_monad. simpl. destruct (generateReply w) as [[] | |]; reflexivity.
Qed.

Lemma buildCall_not_later (calls : list Call) :
  forallb buildCall calls = true -> forallb (fun c => negb (laterPhaseCall c)) calls = true.
Proof.
  rewrite !forallb_forall. intros H c Hin. specialize (H c Hin).
  destruct c; simpl in *; try discriminate; try reflexivity.
  apply orb_true_iff in H as [H | H]; apply bool_decide_eq_true in H; subst; reflexivity.
Qed.

(** Claim C3.  In a round where generation succeeds and the build phase
    reports failure, the round returns [false]; exactly one record is
    appended to the ledger, with phase ["building"], the iteration number,
    the error text and the timestamp; no lint, test or validation call is
    made; and the outcome does not depend on what lint, test and validation
    would have answered. *)
Theorem build_failure_short_circuits
  (anthropic : option string) (w : RoundWorld) (job jobG jobB : Job)
  (callsG callsB : list Call) :
  generatePluginCode anthropic w (set_currentPhase "generating" job)
    = (Returned tt, jobG, callsG) ->
  buildPlugin w (set_currentPhase "building" jobG) = (Returned false, jobB, callsB) ->
  exists job',
    runSingleIteration anthropic w job = (Returned false, job', callsG ++ callsB) /\
    errors job' =
      errors job ++ [{| iteration := currentIteration job; phase := "building";
                        errorText := errorOr "Build failed" jobB;
                        timestamp := failureClock w |}] /\
    forallb (fun c => negb (laterPhaseCall c)) (callsG ++ callsB) = true /\
    (forall w' : RoundWorld,
       generateReply w' = generateReply w -> installRun w' = installRun w ->
       buildRun w' = buildRun w -> failureClock w' = failureClock w ->
       runSingleIteration anthropic w' job = runSingleIteration anthropic w job).
Proof.
  intros Hgen Hbuild.
  assert (HjobG : jobG = set_currentPhase "generating" job /\
                  forallb (fun c => negb (laterPhaseCall c)) callsG = true).
  { rewrite generatePluginCode_run in Hgen.
    destruct (configured anthropic); inversion Hgen; subst; split; reflexivity. }
  destruct HjobG as [-> HcG].
  pose proof (buildPlugin_respects w (set_currentPhase "building" (set_currentPhase "generating" job)))
    as [(He & Hi & _) HcB].
  rewrite Hbuild in He, Hi, HcB. simpl in He, Hi, HcB.
  assert (Hrun : forall w', generateReply w' = generateReply w -> installRun w' = installRun w ->
            buildRun w' = buildRun w -> failureClock w' = failureClock w ->
            runSingleIteration anthropic w' job =
              (Returned false,
               set_errors (errors jobB ++
                 [{| iteration := currentIteration jobB; phase := "building";
                     errorText := errorOr "Build failed" jobB;
                     timestamp := failureClock w |}]) jobB, callsG ++ callsB)).
  { intros w' Eg Ei Eb Ef.
    assert (Hgen' : generatePluginCode anthropic w' (set_currentPhase "generating" job)
                    = (Returned tt, set_currentPhase "generating" job, callsG)).
    { rewrite generatePluginCode_run in *. rewrite Eg. exact Hgen. }
    assert (Hbuild' : buildPlugin w' (set_currentPhase "building" (set_currentPhase "generating" job))
                      = (Returned false, jobB, callsB)).
    { unfold buildPlugin in *. rewrite Ei, Eb. exact Hbuild. }
    unfold runSingleIteration, pushPhaseError. run_monad.
    cbn beta. rewrite Hgen'. cbn beta iota. rewrite Hbuild'. cbn beta iota. simpl negb. cbv iota.
    rewrite Ef. rewrite app_nil_r. simpl. rewrite app_nil_r. reflexivity. }
  eexists. split; [apply Hrun; reflexivity |]. split.
  - simpl. rewrite He, Hi. reflexivity.
  - split.
    + rewrite forallb_app, HcG. simpl. apply buildCall_not_later, HcB.
    + intros w' Eg Ei Eb Ef. rewrite (Hrun w' Eg Ei Eb Ef). symmetry. apply Hrun; reflexivity.
Qed.

(** ** Exceptions inside a round *)





(** ** Settling the promise of [runCommand] *)




Lemma harnessStep_not_rejected (cmd : string) (st : Harness) (ev : ChildEvent) :
  rejected (promise st) = false -> rejected (promise (harnessStep cmd st ev)) = false.
Proof.
  destruct ev; simpl.
  - destruct (String.eqb code "ENOENT"); unfold resolve, harnessLog; simpl;
      destruct (promise st) eqn:E; simpl; rewrite ?E; simpl; congruence.
  - unfold handleData.
    repeat match goal with |- context [if ?b then _ else _] => destruct b end; auto.
  - unfold handleData.
    repeat match goal with |- context [if ?b then _ else _] => destruct b end; auto.
  - unfold resolve. destruct (promise st) eqn:E; simpl; rewrite ?E; simpl; congruence.
  - auto.
  - destruct (timeout st); [| auto].
    unfold resolve, killChild, clearTimeout. destruct killThrows; simpl;
      destruct (promise st) eqn:E; simpl; rewrite ?E; simpl; congruence.
Qed.

Lemma runHarness_not_rejected (cmd : string) (evs : list ChildEvent) :
  rejected (promise (runHarness cmd evs)) = false.
Proof.
  induction evs as [| ev evs IH] using rev_ind; [reflexivity |].
  unfold runHarness in *. rewrite fold_left_app. simpl.
  apply harnessStep_not_rejected. exact IH.
Qed.

Lemma harnessStep_timeout (cmd : string) (st : Harness) (ev : ChildEvent) :
  timeout (harnessStep cmd st ev) = if disarms ev then None else timeout st.
Proof.
  destruct ev; simpl.
  - destruct (String.eqb code "ENOENT"); unfold resolve, harnessLog; simpl;
      destruct (promise st) eqn:E; simpl; rewrite ?E; reflexivity.
  - unfold handleData. repeat match goal with |- context [if ?b then _ else _] => destruct b end; reflexivity.
  - unfold handleData. repeat match goal with |- context [if ?b then _ else _] => destruct b end; reflexivity.
  - unfold resolve. destruct (promise st); reflexivity.
  - reflexivity.
  - destruct (timeout st) eqn:Ht; [| exact Ht].
    unfold resolve, killChild, clearTimeout. destruct killThrows; simpl;
      destruct (promise st); reflexivity.
Qed.

Lemma fold_harness_timeout (cmd : string) (evs : list ChildEvent) (st : Harness) :
  timeout (fold_left (harnessStep cmd) evs st) =
    if existsb disarms evs then None else timeout st.
Proof.
  revert st. induction evs as [| ev evs IH]; intros st; [reflexivity |].
  simpl. rewrite IH, harnessStep_timeout.
  destruct (disarms ev); simpl; [destruct (existsb disarms evs); reflexivity | reflexivity].
Qed.

Lemma bind_returned {A B : Type} (m : M A) (k : A -> M B) (job job1 : Job) (a : A)
  (calls1 : list Call) :
  m job = (Returned a, job1, calls1) ->
  (m ≫= k) job = (fst (k a job1), calls1 ++ snd (k a job1)).
Proof.
  intros H. unfold mbind, M_bind, bind. rewrite H.
  destruct (k a job1) as [[r j2] c2]. reflexivity.
Qed.

Lemma logAll_completion (t : Z) (messages : list string) (job : Job) :
  fst (fst (logAll t messages job)) = Returned tt.
Proof.
  revert job. induction messages as [| m rest IH]; intros job; [reflexivity |].
  cbn [logAll]. rewrite (bind_returned _ _ job (pushLog t m job) tt []) by reflexivity.
  apply IH.
Qed.

Lemma bind_never_throws {A B : Type} (m : M A) (k : A -> M B) :
  (forall job, threw (fst (fst (m job))) = false) ->
  (forall a job, threw (fst (fst (k a job))) = false) ->
  forall job, threw (fst (fst ((m ≫= k) job))) = false.
Proof.
  intros Hm Hk job. specialize (Hm job). unfold mbind, M_bind, bind.
  destruct (m job) as [[[a | message |] job1] calls1]; simpl in *; try congruence.
  specialize (Hk a job1). destruct (k a job1) as [[r j2] c2]. exact Hk.
Qed.

Lemma logAll_never_throws (t : Z) (messages : list string) (job : Job) :
  threw (fst (fst (logAll t messages job))) = false.
Proof. rewrite logAll_completion. reflexivity. Qed.

Lemma bind_completion {A B : Type} (m : M A) (k : A -> M B) (job : Job) :
  fst (fst ((m ≫= k) job)) =
    match fst (fst (m job)) with
    | Returned a => fst (fst (k a (snd (fst (m job)))))
    | Threw message => Threw message
    | Awaiting => Awaiting
    end.
Proof.
  unfold mbind, M_bind, bind.
  destruct (m job) as [[[a | message |] job1] calls1]; cbn [fst snd]; try reflexivity.
  destruct (k a job1) as [[r job2] calls2]. reflexivity.
Qed.

Lemma bind_completion_run {A B : Type} (m : M A) (k : A -> M B) (job : Job) :
  (forall a, fst (fst (m job)) <> Returned a) ->
  (m ≫= k) job = (match fst (fst (m job)) with
                  | Threw message => Threw message
                  | _ => Awaiting
                  end, snd (fst (m job)), snd (m job)).
Proof.
  intros Hno. unfold mbind, M_bind, bind.
  destruct (m job) as [[[a | message |] job1] calls1]; cbn [fst snd] in *; try reflexivity.
  exfalso. exact (Hno a eq_refl).
Qed.

Lemma callAll_run (calls : list Call) (job : Job) :
  callAll calls job = (Returned tt, job, calls).
Proof.
  induction calls as [| c rest IH]; [reflexivity |].
  cbn [callAll]. rewrite (bind_returned _ _ job job tt [c]) by reflexivity.
  rewrite IH. reflexivity.
Qed.

Lemma runCommand_completion (w : CommandWorld) (command : string) (args : list string)
  (description : string) (job : Job) :
  fst (fst (runCommand w command args description job)) = commandOutcome w command args.
Proof.
  unfold runCommand, commandOutcome.
  rewrite bind_completion. cbn [getJob fst snd].
  rewrite bind_completion. cbn [logM modify fst snd].
  destruct (resolveTool (which w) command args) as [[actualCommand actualArgs] pmLogs].
  cbn [fst snd].
  rewrite bind_completion, callAll_run. cbn [fst snd].
  rewrite bind_completion, logAll_completion.
  rewrite bind_completion. cbn [call fst snd].
  destruct (spawnError w) as [message |]; [reflexivity |].
  rewrite bind_completion. cbn [modify fst snd].
  rewrite bind_completion, logAll_completion.
  destruct (promise (runHarness actualCommand (events w))); reflexivity.
Qed.


Lemma harnessStep_exited (cmd : string) (st : Harness) (ev : ChildEvent) :
  timeout st = None -> closesOrFails ev = false ->
  promise (harnessStep cmd st ev) = promise st.
Proof.
  intros Htimer Hev.
  destruct ev as [code message | data | data | code | | killThrows]; cbn [harnessStep];
    try discriminate Hev.
  - unfold handleData. repeat match goal with |- context [if ?b then _ else _] => destruct b end;
      reflexivity.
  - unfold handleData. repeat match goal with |- context [if ?b then _ else _] => destruct b end;
      reflexivity.
  - reflexivity.
  - rewrite Htimer. reflexivity.
Qed.

Lemma fold_harness_exited (cmd : string) (later : list ChildEvent) (st : Harness) :
  timeout st = None -> forallb (fun ev => negb (closesOrFails ev)) later = true ->
  promise (fold_left (harnessStep cmd) later st) = promise st.
Proof.
  revert st. induction later as [| ev later IH]; intros st Htimer Hlater; [reflexivity |].
  cbn [forallb fold_left] in *. apply andb_true_iff in Hlater as [Hev Hlater].
  apply negb_true_iff in Hev.
  rewrite IH; [apply harnessStep_exited; assumption | | exact Hlater].
  rewrite harnessStep_timeout, Htimer. destruct (disarms ev); reflexivity.
Qed.

(** Claim C6 does not hold of the code.  [spawn] is called inside the
    promise executor without a guard: when it throws (Node does so for a
    working directory that is not a directory, among others), the promise
    of [runCommand] is rejected and the caller's [await] throws the
    exception, instead of resolving with [success = false].  And
    resolution is not assured: ['exit'] disarms the timer but only
    ['close'] resolves, so that after ['exit'] the promise stays pending
    until a ['close'] or ['error'] callback runs, whatever output arrives
    and whenever the timer callback would have run. *)
Theorem spawn_exception_escapes_runCommand
  (w : CommandWorld) (command : string) (args : list string) (description : string)
  (job : Job) (message : string) :
  spawnError w = Some message ->
  fst (fst (runCommand w command args description job)) = Threw message /\
  threw (fst (fst (runCommand w command args description job))) = true /\
  (forall (actualCommand : string) (evs later : list ChildEvent),
     promise (runHarness actualCommand evs) = Pending ->
     forallb (fun ev => negb (closesOrFails ev)) later = true ->
     promise (runHarness actualCommand (evs ++ OnExit :: later)) = Pending /\
     timeout (runHarness actualCommand (evs ++ OnExit :: later)) = None).
Proof.
  intros Hspawn.
  assert (Hrun : fst (fst (runCommand w command args description job)) = Threw message).
  { rewrite runCommand_completion. unfold commandOutcome. rewrite Hspawn. reflexivity. }
  split; [exact Hrun |]. split; [rewrite Hrun; reflexivity |].
  intros actualCommand evs later Hpending Hlater.
  unfold runHarness in *. rewrite fold_left_app. cbn [fold_left].
  split.
  - rewrite fold_harness_exited; [exact Hpending | reflexivity | exact Hlater].
  - rewrite fold_harness_timeout. cbn [harnessStep clearTimeout timeout].
    destruct (existsb disarms later); reflexivity.
Qed.


(** ** Paths: splitting, joining and normalising *)

Lemma splitSlash_nonempty (s : string) : splitSlash s <> [].
Proof.
  destruct s as [| c s]; cbn [splitSlash]; [discriminate |].
  destruct (Ascii.eqb c "/"); [discriminate |]. destruct (splitSlash s); discriminate.
Qed.

Lemma splitSlash_cons_slash (a b : string) :
  splitSlash (a +:+ String "/" b) = splitSlash a ++ splitSlash b.
Proof.
  induction a as [| c a IH]; cbn [String.append splitSlash].
  - reflexivity.
  - rewrite IH. destruct (Ascii.eqb c "/"); [reflexivity |].
    pose proof (splitSlash_nonempty a) as Hne.
    destruct (splitSlash a) as [| h t]; [contradiction | reflexivity].
Qed.

Lemma splitSlash_append (a b : string) :
  splitSlash (a +:+ "/" +:+ b) = splitSlash a ++ splitSlash b.
Proof. exact (splitSlash_cons_slash a b). Qed.

Lemma splitSlash_noSlash (s : string) : noSlash s = true -> splitSlash s = [s].
Proof.
  unfold noSlash. induction s as [| c s IH]; cbn [allChars splitSlash]; [reflexivity |].
  intros H. apply andb_true_iff in H as [Hc Hs].
  apply negb_true_iff in Hc. rewrite Hc, (IH Hs). reflexivity.
Qed.

Lemma splitSlash_segments (s : string) : forallb noSlash (splitSlash s) = true.
Proof.
  induction s as [| c s IH]; cbn [splitSlash]; [reflexivity |].
  destruct (Ascii.eqb c "/") eqn:Hc; [exact IH |].
  destruct (splitSlash s) as [| h t]; cbn [forallb] in *.
  - unfold noSlash. cbn [allChars]. rewrite Hc. reflexivity.
  - unfold noSlash in *. cbn [allChars]. rewrite Hc. exact IH.
Qed.

Lemma splitSlash_join (l : list string) :
  l <> [] -> forallb noSlash l = true -> splitSlash (joinWith "/" l) = l.
Proof.
  induction l as [| a l IH]; [congruence |]. intros _ H.
  simpl in H. apply andb_true_iff in H as [Ha Hl].
  destruct l as [| b l].
  - simpl. apply splitSlash_noSlash, Ha.
  - change (joinWith "/" (a :: b :: l)) with (a +:+ "/" +:+ joinWith "/" (b :: l)).
    rewrite splitSlash_append, splitSlash_noSlash by exact Ha.
    rewrite IH by (congruence || exact Hl). reflexivity.
Qed.

Lemma joinWith_app (a b : list string) :
  a <> [] -> b <> [] ->
  joinWith "/" (a ++ b) = joinWith "/" a +:+ "/" +:+ joinWith "/" b.
Proof.
  intros Ha Hb. induction a as [| x a IH]; [congruence |].
  destruct a as [| y a].
  - simpl. destruct b; [congruence | reflexivity].
  - change (joinWith "/" ((x :: y :: a) ++ b)) with (x +:+ "/" +:+ joinWith "/" ((y :: a) ++ b)).
    rewrite IH by congruence.
    change (joinWith "/" (x :: y :: a)) with (x +:+ "/" +:+ joinWith "/" (y :: a)).
    rewrite !append_assoc. reflexivity.
Qed.

Lemma plainSegment_parts (seg : string) :
  plainSegment seg = true ->
  String.eqb seg "" = false /\ String.eqb seg "." = false /\
  String.eqb seg ".." = false /\ noSlash seg = true.
Proof.
  unfold plainSegment, noSlash. intros H.
  repeat (apply andb_true_iff in H as [H ?]).
  repeat split; try (apply negb_true_iff; assumption); assumption.
Qed.

Lemma normStep_plain (allow : bool) (res : list string) (seg : string) :
  plainSegment seg = true -> normStep allow res seg = res ++ [seg].
Proof.
  intros H. apply plainSegment_parts in H as (H1 & H2 & H3 & _).
  unfold normStep. rewrite H1, H2, H3. reflexivity.
Qed.

Lemma normFold_plain (allow : bool) (segs res : list string) :
  forallb plainSegment segs = true ->
  fold_left (normStep allow) segs res = res ++ segs.
Proof.
  revert res. induction segs as [| seg segs IH]; intros res H; simpl.
  - rewrite app_nil_r. reflexivity.
  - simpl in H. apply andb_true_iff in H as [Hs Hr].
    rewrite normStep_plain by exact Hs. rewrite IH by exact Hr.
    rewrite <- app_assoc. reflexivity.
Qed.

Lemma forallb_removelast {A : Type} (p : A -> bool) (l : list A) :
  forallb p l = true -> forallb p (removelast l) = true.
Proof.
  induction l as [| x l IH]; [auto |]. intros H. simpl in H.
  apply andb_true_iff in H as [Hx Hl]. destruct l as [| y l]; [reflexivity |].
  change (removelast (x :: y :: l)) with (x :: removelast (y :: l)).
  simpl forallb at 1. rewrite Hx. apply IH, Hl.
Qed.

Lemma normStep_absolute_plain (res : list string) (seg : string) :
  forallb plainSegment res = true -> noSlash seg = true ->
  forallb plainSegment (normStep false res seg) = true.
Proof.
  intros Hres Hseg. unfold normStep.
  destruct (String.eqb seg "") eqn:H1; [exact Hres |].
  destruct (String.eqb seg ".") eqn:H2; [exact Hres |]. simpl.
  destruct (String.eqb seg "..") eqn:H3.
  - destruct (last res) as [l |]; [| reflexivity].
    destruct (String.eqb l ".."); [exact Hres | apply forallb_removelast, Hres].
  - rewrite forallb_app, Hres. simpl. unfold plainSegment. fold (noSlash seg).
    rewrite H1, H2, H3, Hseg. reflexivity.
Qed.

Lemma normFold_absolute_plain (segs res : list string) :
  forallb plainSegment res = true -> forallb noSlash segs = true ->
  forallb plainSegment (fold_left (normStep false) segs res) = true.
Proof.
  revert res. induction segs as [| seg segs IH]; intros res Hres Hsegs; [exact Hres |].
  simpl in *. apply andb_true_iff in Hsegs as [Hs Hr].
  apply IH; [apply normStep_absolute_plain; assumption | exact Hr].
Qed.

Lemma normStep_relative_notDot (res : list string) (seg : string) :
  forallb notDot res = true -> forallb notDot (normStep true res seg) = true.
Proof.
  intros Hres. unfold normStep.
  destruct (String.eqb seg "") eqn:H1; [exact Hres |].
  destruct (String.eqb seg ".") eqn:H2; [exact Hres |]. simpl.
  destruct (String.eqb seg "..") eqn:H3.
  - destruct (last res) as [l |]; [| reflexivity].
    destruct (String.eqb l "..").
    + rewrite forallb_app, Hres. reflexivity.
    + apply forallb_removelast, Hres.
  - rewrite forallb_app, Hres. simpl. unfold notDot. rewrite H1, H2. reflexivity.
Qed.

Lemma normFold_relative_notDot (segs res : list string) :
  forallb notDot res = true -> forallb notDot (fold_left (normStep true) segs res) = true.
Proof.
  revert res. induction segs as [| seg segs IH]; intros res Hres; [exact Hres |].
  simpl. apply IH, normStep_relative_notDot, Hres.
Qed.

Lemma normStep_relative_noSlash (res : list string) (seg : string) :
  forallb noSlash res = true -> noSlash seg = true ->
  forallb noSlash (normStep true res seg) = true.
Proof.
  intros Hres Hseg. unfold normStep.
  destruct (String.eqb seg "" || String.eqb seg "."); [exact Hres |].
  destruct (String.eqb seg "..").
  - destruct (last res) as [l |]; [| reflexivity].
    destruct (String.eqb l "..").
    + rewrite forallb_app, Hres. reflexivity.
    + apply forallb_removelast, Hres.
  - rewrite forallb_app, Hres. simpl. rewrite Hseg. reflexivity.
Qed.

Lemma normFold_relative_noSlash (segs res : list string) :
  forallb noSlash res = true -> forallb noSlash segs = true ->
  forallb noSlash (fold_left (normStep true) segs res) = true.
Proof.
  revert res. induction segs as [| seg segs IH]; intros res Hres Hsegs; [exact Hres |].
  simpl in *. apply andb_true_iff in Hsegs as [Hs Hr].
  apply IH; [apply normStep_relative_noSlash; assumption | exact Hr].
Qed.

Lemma normStep_empty (allow : bool) (res : list string) : normStep allow res "" = res.
Proof. reflexivity. Qed.

Lemma normStep_dot (allow : bool) (res : list string) (seg : string) :
  String.eqb seg "" || String.eqb seg "." = true -> normStep allow res seg = res.
Proof. intros H. unfold normStep. rewrite H. reflexivity. Qed.

Lemma normStep_up_nil (allow : bool) :
  normStep allow [] ".." = if allow then [".."] else [].
Proof. reflexivity. Qed.

Lemma normStep_up_snoc (allow : bool) (B : list string) (l : string) :
  normStep allow (B ++ [l]) ".." =
    if String.eqb l ".." then (if allow then (B ++ [l]) ++ [".."] else B ++ [l]) else B.
Proof.
  unfold normStep. change (String.eqb ".." "" || String.eqb ".." ".") with false.
  change (String.eqb ".." "..") with true. cbv iota.
  rewrite last_snoc, removelast_last. reflexivity.
Qed.

Lemma normStep_name (allow : bool) (res : list string) (seg : string) :
  String.eqb seg "" || String.eqb seg "." = false -> String.eqb seg ".." = false ->
  normStep allow res seg = res ++ [seg].
Proof. intros H1 H2. unfold normStep. rewrite H1, H2. reflexivity. Qed.

Lemma normStep_commute (A C : list string) (seg : string) :
  forallb notDot A = true ->
  fold_left (normStep false) (normStep true A seg) C =
    normStep false (fold_left (normStep false) A C) seg.
Proof.
  intros HA.
  destruct (String.eqb seg "" || String.eqb seg ".") eqn:Hdot.
  { rewrite !normStep_dot by exact Hdot. reflexivity. }
  destruct (String.eqb seg "..") eqn:Hup.
  - apply String.eqb_eq in Hup. subst seg.
    destruct (last A) as [l |] eqn:Hlast.
    + apply last_Some in Hlast as [B ->].
      rewrite forallb_app in HA. apply andb_true_iff in HA as [_ Hl].
      cbn [forallb] in Hl. rewrite andb_true_r in Hl. unfold notDot in Hl.
      apply andb_true_iff in Hl as [Hl1 Hl2].
      apply negb_true_iff in Hl1, Hl2.
      rewrite normStep_up_snoc.
      destruct (String.eqb l "..") eqn:Hl3.
      * rewrite (fold_left_app _ (B ++ [l]) [".."]). reflexivity.
      * rewrite (fold_left_app _ B [l]). cbn [fold_left].
        rewrite (normStep_name false _ l) by (rewrite ?Hl1, ?Hl2; reflexivity || exact Hl3).
        rewrite normStep_up_snoc, Hl3. reflexivity.
    + apply last_None in Hlast. subst A. reflexivity.
  - rewrite (normStep_name true) by assumption.
    rewrite fold_left_app. reflexivity.
Qed.

Lemma normFold_relative_then_absolute (segs A C : list string) :
  forallb notDot A = true ->
  fold_left (normStep false) (fold_left (normStep true) segs A) C =
    fold_left (normStep false) segs (fold_left (normStep false) A C).
Proof.
  revert A. induction segs as [| seg segs IH]; intros A HA; [reflexivity |].
  cbn [fold_left]. rewrite IH by (apply normStep_relative_notDot; exact HA).
  rewrite normStep_commute by exact HA. reflexivity.
Qed.

Lemma append_nonempty_l (a b : string) : String.eqb a "" = false -> String.eqb (a +:+ b) "" = false.
Proof. destruct a; [discriminate | reflexivity]. Qed.

Lemma append_nonempty_r (a b : string) : String.eqb b "" = false -> String.eqb (a +:+ b) "" = false.
Proof. destruct a; [auto | reflexivity]. Qed.

Lemma isAbsolute_append (a b : string) :
  String.eqb a "" = false -> isAbsolute (a +:+ b) = isAbsolute a.
Proof. destruct a; [discriminate | reflexivity]. Qed.

Lemma endsWithSlash_append (a b : string) :
  String.eqb b "" = false -> endsWithSlash (a +:+ b) = endsWithSlash b.
Proof.
  intros Hb. induction a as [| c a IH]; [reflexivity |].
  cbn [String.append endsWithSlash]. pose proof (append_nonempty_r a b Hb) as Hne.
  destruct (a +:+ b) eqn:E; [discriminate | exact IH].
Qed.

Lemma endsWithSlash_noSlash (s : string) : noSlash s = true -> endsWithSlash s = false.
Proof.
  unfold noSlash. induction s as [| c s IH]; [reflexivity |].
  cbn [allChars endsWithSlash]. intros H. apply andb_true_iff in H as [Hc Hs].
  destruct s; [apply negb_true_iff, Hc | apply IH, Hs].
Qed.

Lemma plain_notDot (l : list string) : forallb plainSegment l = true -> forallb notDot l = true.
Proof.
  induction l as [| x l IH]; [reflexivity |]. cbn [forallb]. intros H.
  apply andb_true_iff in H as [Hx Hl]. rewrite (IH Hl), andb_true_r.
  apply plainSegment_parts in Hx as (H1 & H2 & _). unfold notDot. rewrite H1, H2. reflexivity.
Qed.

Lemma plain_noSlash (l : list string) : forallb plainSegment l = true -> forallb noSlash l = true.
Proof.
  induction l as [| x l IH]; [reflexivity |]. cbn [forallb]. intros H.
  apply andb_true_iff in H as [Hx Hl]. rewrite (IH Hl), andb_true_r.
  apply plainSegment_parts in Hx as (_ & _ & _ & H4). exact H4.
Qed.

Lemma joinWith_relative (l : list string) :
  l <> [] -> forallb notDot l = true -> forallb noSlash l = true ->
  isAbsolute (joinWith "/" l) = false /\ String.eqb (joinWith "/" l) "" = false.
Proof.
  destruct l as [| x l]; [congruence |]. intros _ Hd Hs.
  cbn [forallb] in Hd, Hs. apply andb_true_iff in Hd as [Hx _]. apply andb_true_iff in Hs as [Hxs _].
  unfold notDot in Hx. apply andb_true_iff in Hx as [Hx _]. apply negb_true_iff in Hx.
  destruct x as [| c x]; [discriminate |].
  unfold noSlash in Hxs. cbn [allChars] in Hxs. apply andb_true_iff in Hxs as [Hc _].
  apply negb_true_iff in Hc.
  destruct l; cbn [joinWith String.append isAbsolute String.eqb]; auto.
Qed.

Lemma resolve_absolute (workdir p : string) :
  isAbsolute p = true ->
  path_resolve workdir [p] = "/" +:+ normalizeString (p +:+ "/" +:+ "") false.
Proof.
  intros Hp.
  assert (Hp0 : String.eqb p "" = false) by (destruct p; [discriminate | reflexivity]).
  unfold path_resolve. cbn [rev app resolveLoop]. rewrite Hp0, Hp. reflexivity.
Qed.

Lemma resolve_relative (workdir p : string) :
  isAbsolute workdir = true -> isAbsolute p = false -> String.eqb p "" = false ->
  path_resolve workdir [p]
    = "/" +:+ normalizeString (workdir +:+ "/" +:+ (p +:+ "/" +:+ "")) false.
Proof.
  intros Hw Hp Hp0.
  assert (Hw0 : String.eqb workdir "" = false) by (destruct workdir; [discriminate | reflexivity]).
  unfold path_resolve. cbn [rev app resolveLoop]. rewrite Hp0, Hp, Hw0, Hw. reflexivity.
Qed.

Lemma splitSlash_trailing (p : string) : splitSlash (p +:+ "/" +:+ "") = splitSlash p ++ [""].
Proof. rewrite splitSlash_append. reflexivity. Qed.

Lemma normFold_trailing (allow : bool) (segs res : list string) :
  fold_left (normStep allow) (segs ++ [""]) res = fold_left (normStep allow) segs res.
Proof. rewrite fold_left_app. reflexivity. Qed.

(** [path.resolve] of the job directory in terms of segments. *)
Lemma resolve_of_join (workdir d jobId sanitized : string) :
  isAbsolute workdir = true -> String.eqb d "" = false ->
  plainSegment jobId = true -> plainSegment sanitized = true ->
  exists rootSegs : list string,
    forallb plainSegment rootSegs = true /\
    path_resolve workdir [d] = "/" +:+ joinWith "/" rootSegs /\
    path_resolve workdir [path_join [d; "plugins"; jobId; sanitized]]
      = "/" +:+ joinWith "/" (rootSegs ++ ["plugins"; jobId; sanitized]).
Proof.
  intros Hcwd Hd Hid Hsan.
  set (T := ["plugins"; jobId; sanitized]).
  assert (HT : forallb plainSegment T = true).
  { unfold T. cbn [forallb]. rewrite Hid, Hsan. reflexivity. }
  assert (Hcwd0 : String.eqb workdir "" = false) by (destruct workdir; [discriminate | reflexivity]).
  pose proof (plainSegment_parts _ Hid) as (Hid0 & _).
  pose proof (plainSegment_parts _ Hsan) as (Hsan0 & _ & _ & HsanS).
  (* the joined string *)
  assert (Hjoin : path_join (d :: T) = path_normalize (d +:+ "/" +:+ joinWith "/" T)).
  { unfold path_join, T. cbn [List.filter]. rewrite Hd, Hid0, Hsan0. reflexivity. }
  set (J := d +:+ "/" +:+ joinWith "/" T) in *.
  assert (HJsplit : splitSlash J = splitSlash d ++ T).
  { unfold J. rewrite splitSlash_append, splitSlash_join; [reflexivity | discriminate |].
    apply plain_noSlash, HT. }
  assert (HJ0 : String.eqb J "" = false) by (apply append_nonempty_l, Hd).
  assert (HJabs : isAbsolute J = isAbsolute d) by (apply isAbsolute_append, Hd).
  assert (HJtrail : endsWithSlash J = false).
  { assert (HX : J = (d +:+ "/" +:+ "plugins" +:+ "/" +:+ jobId +:+ "/") +:+ sanitized).
    { unfold J, T. cbn [joinWith]. rewrite !append_assoc. reflexivity. }
    rewrite HX, endsWithSlash_append by exact Hsan0.
    apply endsWithSlash_noSlash, HsanS. }
  set (D := fold_left (normStep (negb (isAbsolute d))) (splitSlash d) []).
  assert (Hnorm : normalizeString J (negb (isAbsolute J)) = joinWith "/" (D ++ T)).
  { unfold normalizeString, normalizeSegments. rewrite HJabs, HJsplit, fold_left_app.
    fold D. rewrite normFold_plain by exact HT. reflexivity. }
  assert (HDT : D ++ T <> []) by (unfold T; destruct D; discriminate).
  assert (HDs : forallb noSlash (D ++ T) = true).
  { rewrite forallb_app, (plain_noSlash T HT), andb_true_r. unfold D.
    destruct (isAbsolute d); cbn [negb].
    - apply plain_noSlash, normFold_absolute_plain; [reflexivity | apply splitSlash_segments].
    - apply normFold_relative_noSlash; [reflexivity | apply splitSlash_segments]. }
  destruct (isAbsolute d) eqn:Habs; cbn [negb] in D, Hnorm.
  - (* absolute data directory *)
    assert (HD : forallb plainSegment D = true).
    { apply normFold_absolute_plain; [reflexivity | apply splitSlash_segments]. }
    exists D. split; [exact HD |]. split.
    + rewrite resolve_absolute by exact Habs.
      unfold normalizeString, normalizeSegments.
      rewrite splitSlash_trailing, normFold_trailing. reflexivity.
    + rewrite Hjoin. unfold path_normalize. cbv zeta. rewrite HJ0, HJtrail, Hnorm, HJabs.
      assert (Hr0 : String.eqb (joinWith "/" (D ++ T)) "" = false).
      { apply joinWith_relative; [exact HDT | | exact HDs].
        apply plain_notDot. rewrite forallb_app, HD, HT. reflexivity. }
      rewrite Hr0. rewrite resolve_absolute by reflexivity.
      unfold normalizeString, normalizeSegments.
      rewrite splitSlash_trailing, normFold_trailing.
      change ("/" +:+ joinWith "/" (D ++ T)) with ("" +:+ "/" +:+ joinWith "/" (D ++ T)).
      rewrite splitSlash_append, splitSlash_join by assumption.
      cbn [splitSlash app fold_left]. rewrite normStep_empty.
      rewrite normFold_plain by (rewrite forallb_app, HD, HT; reflexivity). reflexivity.
  - (* relative data directory *)
    assert (HDd : forallb notDot (D ++ T) = true).
    { rewrite forallb_app, (plain_notDot T HT), andb_true_r.
      apply normFold_relative_notDot. reflexivity. }
    assert (HDd' : forallb notDot D = true).
    { apply normFold_relative_notDot. reflexivity. }
    pose proof (joinWith_relative (D ++ T) HDT HDd HDs) as [Hrel Hr0].
    set (C := fold_left (normStep false) (splitSlash workdir) []).
    assert (HC : forallb plainSegment C = true).
    { apply normFold_absolute_plain; [reflexivity | apply splitSlash_segments]. }
    set (R := fold_left (normStep false) (splitSlash d) C).
    assert (HR : forallb plainSegment R = true).
    { apply normFold_absolute_plain; [exact HC | apply splitSlash_segments]. }
    exists R. split; [exact HR |]. split.
    + rewrite resolve_relative by assumption.
      unfold normalizeString, normalizeSegments.
      rewrite splitSlash_append, splitSlash_trailing, fold_left_app, normFold_trailing.
      reflexivity.
    + rewrite Hjoin. unfold path_normalize. cbv zeta. rewrite HJ0, HJtrail, Hnorm, HJabs, Hr0.
      rewrite resolve_relative by assumption.
      unfold normalizeString, normalizeSegments.
      rewrite splitSlash_append, splitSlash_trailing, fold_left_app, normFold_trailing.
      rewrite splitSlash_join by assumption.
      rewrite fold_left_app. fold C.
      unfold D. rewrite normFold_relative_then_absolute by reflexivity.
      cbn [fold_left]. fold R.
      rewrite normFold_plain by exact HT. reflexivity.
Qed.

(** ** The name pattern *)

Lemma nullable_lang (r : regex) : nullable r = true -> lang r "".
Proof.
  induction r as [| | p | a IHa b IHb | a IHa b IHb | a IHa]; cbn [nullable]; intros H;
    try discriminate.
  - constructor.
  - apply andb_true_iff in H as [Ha Hb].
    change "" with ("" +:+ ""). constructor; auto.
  - apply orb_true_iff in H as [Ha | Hb]; [apply lang_alt_l | apply lang_alt_r]; auto.
  - constructor.
Qed.

Lemma deriv_lang (c : ascii) (r : regex) (s : string) :
  lang (deriv c r) s -> lang r (String c s).
Proof.
  revert s. induction r as [| | p | a IHa b IHb | a IHa b IHb | a IHa]; cbn [deriv]; intros s H.
  - inversion H.
  - inversion H.
  - destruct (p c) eqn:Hp; inversion H; subst. constructor. exact Hp.
  - destruct (nullable a) eqn:Hn.
    + inversion H as [| | | ? ? ? H1 | ? ? ? H1 | |]; subst.
      * inversion H1 as [| | ? ? s1 s2 Ha Hb | | | |]; subst.
        change (String c (s1 +:+ s2)) with (String c s1 +:+ s2). constructor; auto.
      * change (String c s) with ("" +:+ String c s).
        constructor; [apply nullable_lang, Hn | auto].
    + inversion H as [| | ? ? s1 s2 Ha Hb | | | |]; subst.
      change (String c (s1 +:+ s2)) with (String c s1 +:+ s2). constructor; auto.
  - inversion H; subst; [apply lang_alt_l | apply lang_alt_r]; auto.
  - inversion H as [| | ? ? s1 s2 Ha Hb | | | |]; subst.
    change (String c (s1 +:+ s2)) with (String c s1 +:+ s2). constructor; auto.
Qed.

Lemma matches_lang (r : regex) (s : string) : matches r s = true -> lang r s.
Proof.
  revert r. induction s as [| c s IH]; intros r H; cbn [matches] in H.
  - apply nullable_lang, H.
  - apply deriv_lang, IH, H.
Qed.

Lemma lang_plus_head (p : ascii -> bool) (s : string) :
  lang (Plus (Chr p)) s -> exists c rest, s = String c rest /\ p c = true.
Proof.
  intros H. inversion H as [| | ? ? s1 s2 Ha Hb | | | |]; subst.
  inversion Ha; subst. eexists _, _. split; [reflexivity | assumption].
Qed.

Lemma valid_name_head (pluginName : string) :
  matches validNameRegex pluginName = true ->
  exists c rest, stripLeadingAt pluginName = String c rest /\ nameChar c = true.
Proof.
  intros H. apply matches_lang in H. unfold validNameRegex in H.
  inversion H as [| | ? ? s0 s1 Hopt Hbody | | | |]; subst.
  inversion Hbody as [| | ? ? w1 s2 Hw1 Hrest | | | |]; subst.
  apply lang_plus_head in Hw1 as (c & rest & -> & Hc).
  inversion Hopt as [| | | ? ? ? Hat | ? ? ? Heps | |]; subst.
  - inversion Hat as [| ? a Ha | | | | |]; subst. unfold isChar in Ha.
    apply Ascii.eqb_eq in Ha. subst a.
    exists c, (rest +:+ s2). split; [reflexivity | exact Hc].
  - inversion Heps; subst.
    exists c, (rest +:+ s2). split; [| exact Hc].
    cbn [String.append stripLeadingAt].
    destruct (Ascii.eqb c "@") eqn:Hat; [| reflexivity].
    apply Ascii.eqb_eq in Hat. subst c. discriminate Hc.
Qed.

Lemma sanitized_char_noSlash (c : ascii) :
  Ascii.eqb (lowerChar (if Ascii.eqb c "/" then "-"%char else c)) "/" = false.
Proof. destruct c as [[] [] [] [] [] [] [] []]; reflexivity. Qed.

Lemma sanitized_nameChar (c : ascii) :
  nameChar c = true ->
  Ascii.eqb (lowerChar (if Ascii.eqb c "/" then "-"%char else c)) "." = false.
Proof. destruct c as [[] [] [] [] [] [] [] []]; intros H; try reflexivity; discriminate H. Qed.

Lemma sanitized_noSlash (s : string) : noSlash (toLowerCase (slashToDash s)) = true.
Proof.
  unfold noSlash, toLowerCase, slashToDash.
  induction s as [| c s IH]; [reflexivity |].
  cbn [mapString allChars]. rewrite sanitized_char_noSlash, IH. reflexivity.
Qed.

Lemma sanitizePluginName_plain (pluginName : string) :
  isValidPluginName pluginName = true ->
  plainSegment (sanitizePluginName pluginName) = true.
Proof.
  unfold isValidPluginName. intros H.
  repeat (apply andb_true_iff in H as [H _]).
  apply valid_name_head in H as (c & rest & Hstrip & Hc).
  unfold sanitizePluginName, plainSegment. rewrite Hstrip.
  pose proof (sanitized_noSlash (String c rest)) as Hns. unfold noSlash in Hns. rewrite Hns.
  unfold toLowerCase, slashToDash. cbn [mapString String.eqb].
  rewrite (sanitized_nameChar c Hc). reflexivity.
Qed.

(** ** Successful creations *)

Lemma path_normalize_nonempty (p : string) : String.eqb (path_normalize p) "" = false.
Proof.
  unfold path_normalize. destruct (String.eqb p ""); [reflexivity |]. cbv zeta.
  destruct (String.eqb (normalizeString p (negb (isAbsolute p))) "") eqn:Hr.
  - destruct (isAbsolute p); [reflexivity |]. destruct (endsWithSlash p); reflexivity.
  - destruct (isAbsolute p); [reflexivity |].
    destruct (endsWithSlash p); [apply append_nonempty_l |]; exact Hr.
Qed.

Lemma getDataDir_nonempty (workdir : string) (s : Service) :
  isAbsolute workdir = true -> String.eqb (getDataDir workdir s) "" = false.
Proof.
  intros Hw.
  assert (Hw0 : String.eqb workdir "" = false) by (destruct workdir; [discriminate | reflexivity]).
  assert (Hjoin : String.eqb (path_join [workdir; "data"]) "" = false).
  { unfold path_join. cbn [List.filter]. rewrite Hw0. cbn [negb String.eqb].
    apply path_normalize_nonempty. }
  unfold getDataDir. destruct (dataDirSetting s) as [d |]; [| exact Hjoin].
  destruct (String.eqb d "") eqn:Hd; [exact Hjoin | exact Hd].
Qed.

Lemma getDataDir_setting (workdir : string) (s s' : Service) :
  dataDirSetting s' = dataDirSetting s -> getDataDir workdir s' = getDataDir workdir s.
Proof. intros H. unfold getDataDir. rewrite H. reflexivity. Qed.

Lemma prefix_append (a b : string) : String.prefix a (a +:+ b) = true.
Proof.
  induction a as [| c a IH]; [destruct b; reflexivity |].
  cbn [String.append String.prefix]. destruct (ascii_dec c c); [exact IH | contradiction].
Qed.

Lemma startsWith_descendant (rootSegs below : list string) :
  below <> [] ->
  startsWith ("/" +:+ joinWith "/" (rootSegs ++ below)) ("/" +:+ joinWith "/" rootSegs) = true.
Proof.
  intros Hb. unfold startsWith. destruct rootSegs as [| x l].
  - cbn [app joinWith]. apply (prefix_append "/").
  - rewrite joinWith_app by first [discriminate | exact Hb].
    rewrite <- append_assoc. apply prefix_append.
Qed.

(** What a successful creation leaves behind. *)
Lemma createPlugin_returned (h : Host) (specification : PluginSpecification)
  (apiKey : option string) (options : option Options) (s : Service) (jobId : string) :
  fst (fst (createPlugin h specification apiKey options s)) = Returned jobId ->
  jobId = uuid h /\
  (name specification ∉ createdPlugins s) /\
  isValidPluginName (name specification) = true /\
  fst (checkRateLimit (now h) s) = true /\
  Z.of_nat (size (jobs s)) < 10 /\
  (exists job,
     jobs (snd (fst (createPlugin h specification apiKey options s))) !! jobId = Some job /\
     outputPath job =
       path_resolve (cwd h)
         [path_join [getDataDir (cwd h) s; "plugins"; uuid h;
                     sanitizePluginName (name specification)]] /\
     status job = pending /\ completedAt job = None) /\
  createdPlugins (snd (fst (createPlugin h specification apiKey options s)))
    = {[name specification]} ∪ createdPlugins s /\
  jobCreationCount (snd (fst (createPlugin h specification apiKey options s)))
    = jobCreationCount (snd (checkRateLimit (now h) s)) /\
  lastJobCreation (snd (fst (createPlugin h specification apiKey options s)))
    = lastJobCreation (snd (checkRateLimit (now h) s)).
Proof.
  unfold createPlugin.
  destruct (bool_decide (name specification ∈ createdPlugins s)) eqn:Hdup; [discriminate |].
  apply bool_decide_eq_false in Hdup.
  destruct (isValidPluginName (name specification)) eqn:Hvalid; [| discriminate].
  cbn [negb]. pose proof (checkRateLimit_jobs (now h) s) as (Hj & Hp & _ & Hd & _).
  destruct (checkRateLimit (now h) s) as [allowed s1] eqn:Hc. cbn [fst snd] in *.
  destruct allowed; [| discriminate]. cbn [negb].
  rewrite Hj. destruct (10 <=? Z.of_nat (size (jobs s))) eqn:Hsz; [discriminate |].
  apply Z.leb_gt in Hsz.
  set (s2 := if truthy apiKey then set_anthropic apiKey s1 else s1).
  assert (Hs2 : jobs s2 = jobs s /\ createdPlugins s2 = createdPlugins s /\
                dataDirSetting s2 = dataDirSetting s /\
                jobCreationCount s2 = jobCreationCount s1 /\
                lastJobCreation s2 = lastJobCreation s1).
  { unfold s2. destruct (truthy apiKey); cbn; auto. }
  destruct Hs2 as (Hj2 & Hp2 & Hd2 & Hn2 & Hl2).
  rewrite (getDataDir_setting (cwd h) s s2 Hd2).
  destruct (startsWith _ _) eqn:Hstart; [| discriminate]. cbn [negb fst snd].
  intros Hret. injection Hret as <-.
  repeat split; auto.
  - match goal with |- context [if ?b then _ else _] => destruct b end; cbn [jobs set_jobs set_createdPlugins].
    + rewrite lookup_alter_eq, lookup_insert_eq. cbn. eexists. split; [reflexivity |]. cbn. auto.
    + rewrite lookup_insert_eq. eexists. split; [reflexivity |]. cbn. auto.
  - match goal with |- context [if ?b then _ else _] => destruct b end; cbn; rewrite Hp2; reflexivity.
  - match goal with |- context [if ?b then _ else _] => destruct b end; cbn; exact Hn2.
  - match goal with |- context [if ?b then _ else _] => destruct b end; cbn; exact Hl2.
Qed.

(** ** Invariants of the reachable states *)

Lemma logToJob_admission (jobId : string) (t : Z) (m : string) (s : Service) :
  createdPlugins (logToJob jobId t m s) = createdPlugins s /\
  jobCreationCount (logToJob jobId t m s) = jobCreationCount s.
Proof. unfold logToJob. destruct (jobs s !! jobId); split; reflexivity. Qed.

Lemma cancelJob_admission (t : Z) (delivered : bool) (jobId : string) (s : Service) :
  createdPlugins (fst (cancelJob t delivered jobId s)) = createdPlugins s /\
  jobCreationCount (fst (cancelJob t delivered jobId s)) = jobCreationCount s.
Proof.
  unfold cancelJob. destruct (jobs s !! jobId) as [job |]; [| split; reflexivity].
  destruct (isActive (status job)); [| split; reflexivity].
  match goal with |- context [logToJob ?a ?b ?c ?d] =>
    pose proof (logToJob_admission a b c d) as [H1 H2] end.
  destruct (childProcess job) as [child |]; [destruct (negb (killed child)) |];
    cbn [fst createdPlugins jobCreationCount set_jobs]; rewrite ?H1, ?H2; split; reflexivity.
Qed.

Lemma jobTimedOut_admission (t : Z) (jobId : string) (s : Service) :
  createdPlugins (jobTimedOut t jobId s) = createdPlugins s /\
  jobCreationCount (jobTimedOut t jobId s) = jobCreationCount s.
Proof.
  unfold jobTimedOut. destruct (jobs s !! jobId) as [job |]; [| split; reflexivity].
  destruct (isActive (status job)); [| split; reflexivity].
  match goal with |- context [logToJob ?a ?b ?c ?d] =>
    pose proof (logToJob_admission a b c d) as [H1 H2] end.
  rewrite H1, H2. split; reflexivity.
Qed.

Lemma createPlugin_admission (h : Host) (specification : PluginSpecification)
  (apiKey : option string) (options : option Options) (s : Service) :
  admissionInvariant s ->
  admissionInvariant (snd (fst (createPlugin h specification apiKey options s))).
Proof.
  intros [Hnames Hcount].
  destruct (fst (fst (createPlugin h specification apiKey options s))) as [jobId | m |] eqn:Hres.
  - apply createPlugin_returned in Hres as (_ & _ & Hvalid & Hrate & _ & _ & Hp & Hn & _).
    split.
    + intros n Hin. rewrite Hp in Hin. apply elem_of_union in Hin as [Hin | Hin].
      * apply elem_of_singleton in Hin. subst n. exact Hvalid.
      * apply Hnames, Hin.
    + rewrite Hn. destruct (checkRateLimit_passed (now h) s Hrate) as [-> _].
      destruct (oneHour <? now h - lastJobCreation s); lia.
  - revert Hres. unfold createPlugin.
    destruct (bool_decide (name specification ∈ createdPlugins s)); [intros _; split; assumption |].
    destruct (negb (isValidPluginName (name specification))); [intros _; split; assumption |].
    pose proof (checkRateLimit_jobs (now h) s) as (_ & Hp & _).
    pose proof (checkRateLimit_refused (now h) s) as Href.
    pose proof (checkRateLimit_passed (now h) s) as Hpas.
    destruct (checkRateLimit (now h) s) as [allowed s1]. cbn [fst snd] in *.
    assert (Hs1 : admissionInvariant s1).
    { destruct allowed.
      - destruct (Hpas eq_refl) as [Hn _]. split; [rewrite Hp; exact Hnames |].
        rewrite Hn. destruct (oneHour <? now h - lastJobCreation s); lia.
      - rewrite (Href eq_refl). split; assumption. }
    destruct (negb allowed); [intros _; exact Hs1 |].
    destruct (10 <=? Z.of_nat (size (jobs s1))); [intros _; exact Hs1 |].
    destruct (negb (startsWith _ _)); [| discriminate].
    intros _. cbn [fst snd]. destruct (truthy apiKey); exact Hs1.
  - revert Hres. unfold createPlugin.
    repeat match goal with
           | |- context [if ?b then _ else _] => destruct b
           | |- context [let '(_, _) := ?p in _] => destruct p
           end; discriminate.
Qed.

Lemma initialize_fields (apiKey modelSetting dataDir : option string) (s : Service) :
  jobs (initialize apiKey modelSetting dataDir s) = jobs s /\
  createdPlugins (initialize apiKey modelSetting dataDir s) = createdPlugins s /\
  jobCreationCount (initialize apiKey modelSetting dataDir s) = jobCreationCount s /\
  lastJobCreation (initialize apiKey modelSetting dataDir s) = lastJobCreation s /\
  dataDirSetting (initialize apiKey modelSetting dataDir s) = dataDir /\
  anthropic (initialize apiKey modelSetting dataDir s)
    = (if truthy apiKey then apiKey else anthropic s).
Proof.
  unfold initialize. destruct (truthy modelSetting); [destruct (List.find _ _) |];
    destruct (truthy apiKey); repeat split.
Qed.

(** A service as [start] returns it is reachable, whatever its settings. *)
Lemma start_reachable (apiKey modelSetting dataDir : option string) :
  reachable (start apiKey modelSetting dataDir).
Proof. apply reach_initialize, reach_init. Qed.

Lemma reachable_admission (s : Service) : reachable s -> admissionInvariant s.
Proof.
  induction 1 as [setting | apiKey modelSetting dataDir s _ IH
                 | h specification apiKey options s _ IH | t delivered jobId s _ IH
                 | t jobId s _ IH | t s _ IH | t s _ IH | m s _ IH | jobId job' s _ IH _].
  - split; [intros n Hin; apply elem_of_empty in Hin; contradiction | reflexivity].
  - destruct (initialize_fields apiKey modelSetting dataDir s) as (_ & H1 & H2 & _).
    unfold admissionInvariant. rewrite H1, H2. exact IH.
  - apply createPlugin_admission, IH.
  - destruct (cancelJob_admission t delivered jobId s) as [H1 H2]. unfold admissionInvariant.
    rewrite H1, H2. exact IH.
  - destruct (jobTimedOut_admission t jobId s) as [H1 H2]. unfold admissionInvariant.
    rewrite H1, H2. exact IH.
  - exact IH.
  - exact IH.
  - exact IH.
  - exact IH.
Qed.

(** ** Name validation and the output path *)

Lemma resolve_idempotent (workdir : string) (segs : list string) :
  segs <> [] -> forallb plainSegment segs = true ->
  path_resolve workdir ["/" +:+ joinWith "/" segs] = "/" +:+ joinWith "/" segs.
Proof.
  intros Hne Hplain. rewrite resolve_absolute by reflexivity.
  unfold normalizeString, normalizeSegments.
  rewrite splitSlash_trailing, normFold_trailing.
  change ("/" +:+ joinWith "/" segs) with ("" +:+ "/" +:+ joinWith "/" segs).
  rewrite splitSlash_append, splitSlash_join by (try assumption; apply plain_noSlash, Hplain).
  cbn [splitSlash app fold_left]. rewrite normStep_empty.
  rewrite normFold_plain by exact Hplain. reflexivity.
Qed.

(** Claim C4.  In every reachable state, a request whose name contains
    [".."], ["./"] or a backslash, or does not match the pattern, fails with
    the invalid-name error, with the state unchanged and no request to the
    host.  And for a host whose working directory is absolute and whose
    generated id is a plain segment, the job a successful creation registers
    has an [outputPath] that resolves to itself and lies strictly below the
    resolved data directory. *)
Theorem invalid_name_rejected_and_output_sandboxed
  (h : Host) (specification : PluginSpecification) (apiKey : option string)
  (options : option Options) (s : Service) :
  reachable s ->
  (includes (name specification) ".." = true \/
   includes (name specification) "./" = true \/
   includes (name specification) backslash = true \/
   matches validNameRegex (name specification) = false ->
   createPlugin h specification apiKey options s = (Threw invalidNameMessage, s, [])) /\
  (isAbsolute (cwd h) = true -> plainSegment (uuid h) = true ->
   forall jobId : string,
     fst (fst (createPlugin h specification apiKey options s)) = Returned jobId ->
     exists job : Job,
       jobs (snd (fst (createPlugin h specification apiKey options s))) !! jobId = Some job /\
       path_resolve (cwd h) [outputPath job] = outputPath job /\
       descendantOf (path_resolve (cwd h) [getDataDir (cwd h) s]) (outputPath job)).
Proof.
  intros Hreach. split.
  - intros Hbad.
    assert (Hinvalid : isValidPluginName (name specification) = false).
    { unfold isValidPluginName.
      destruct Hbad as [H | [H | [H | H]]]; rewrite H; cbn [negb];
        rewrite ?andb_false_r; reflexivity. }
    apply reachable_admission in Hreach as [Hnames _].
    unfold createPlugin.
    destruct (bool_decide (name specification ∈ createdPlugins s)) eqn:Hdup.
    + apply bool_decide_eq_true in Hdup. apply Hnames in Hdup. congruence.
    + rewrite Hinvalid. reflexivity.
  - intros Hcwd Hid jobId Hret.
    apply createPlugin_returned in Hret as (Hjob & _ & Hvalid & _ & _ & (job & Hlook & Hout & _) & _).
    exists job. split; [exact Hlook |].
    destruct (resolve_of_join (cwd h) (getDataDir (cwd h) s) (uuid h)
                (sanitizePluginName (name specification)) Hcwd
                (getDataDir_nonempty _ _ Hcwd) Hid (sanitizePluginName_plain _ Hvalid))
      as (rootSegs & Hroot & Hr & Ho).
    rewrite Hout, Ho, Hr.
    assert (Hbelow : forallb plainSegment
              ["plugins"; uuid h; sanitizePluginName (name specification)] = true).
    { cbn [forallb]. rewrite Hid, (sanitizePluginName_plain _ Hvalid). reflexivity. }
    split.
    + apply resolve_idempotent; [destruct rootSegs; discriminate |].
      rewrite forallb_app, Hroot, Hbelow. reflexivity.
    + exists rootSegs, ["plugins"; uuid h; sanitizePluginName (name specification)].
      repeat split; [exact Hroot | exact Hbelow | discriminate].
Qed.

(** ** Sequences of creation requests *)

Lemma submit_returned_limiter (r : Request) (s : Service) :
  isReturned (fst (fst (submit r s))) = true ->
  requestTime r - lastJobCreation s <= oneHour ->
  jobCreationCount (snd (fst (submit r s))) = jobCreationCount s + 1 /\
  lastJobCreation (snd (fst (submit r s))) = requestTime r.
Proof.
  unfold submit, requestTime. intros Hret Hgap.
  destruct (fst (fst (createPlugin _ _ _ _ s))) as [jobId | |] eqn:Hres; try discriminate.
  apply createPlugin_returned in Hres as (_ & _ & _ & Hrate & _ & _ & _ & Hn & Hl).
  destruct (checkRateLimit_passed _ _ Hrate) as [Hn' Hl'].
  rewrite Hn, Hl, Hn', Hl'. rewrite (proj2 (Z.ltb_ge _ _)) by lia. auto.
Qed.

Lemma submitAll_counts (reqs : list Request) (s : Service) :
  forallb isReturned (snd (submitAll reqs s)) = true ->
  gapsWithin oneHour (lastJobCreation s) (List.map requestTime reqs) = true ->
  jobCreationCount (fst (submitAll reqs s)) = jobCreationCount s + Z.of_nat (List.length reqs) /\
  gapsWithin oneHour (lastJobCreation (fst (submitAll reqs s))) []  = true /\
  forall t, gapsWithin oneHour (lastJobCreation s) (List.map requestTime reqs ++ [t]) = true ->
            t - lastJobCreation (fst (submitAll reqs s)) <= oneHour.
Proof.
  revert s. induction reqs as [| r rest IH]; intros s Hall Hgaps.
  - cbn. split; [lia |]. split; [reflexivity |]. intros t Ht.
    apply andb_true_iff in Ht as [Ht _]. apply Z.leb_le in Ht. exact Ht.
  - cbn [submitAll] in *.
    destruct (submitAll rest (snd (fst (submit r s)))) as [s2 cs] eqn:Hrest.
    cbn [fst snd forallb List.map gapsWithin List.length] in *.
    apply andb_true_iff in Hall as [Hr Hcs].
    apply andb_true_iff in Hgaps as [Hg Hgs]. apply Z.leb_le in Hg.
    destruct (submit_returned_limiter r s Hr Hg) as [Hn Hl].
    specialize (IH (snd (fst (submit r s)))). rewrite Hrest in IH. cbn [fst snd] in IH.
    rewrite Hl in IH. destruct (IH Hcs Hgs) as (IHn & _ & IHt).
    split; [rewrite IHn, Hn; lia |]. split; [reflexivity |].
    intros t Ht. cbn [app gapsWithin] in Ht. apply andb_true_iff in Ht as [_ Ht].
    apply IHt, Ht.
Qed.

Lemma createPlugin_limiter_state (h : Host) (specification : PluginSpecification)
  (apiKey : option string) (options : option Options) (s : Service) :
  name specification ∉ createdPlugins s ->
  isValidPluginName (name specification) = true ->
  jobCreationCount (snd (fst (createPlugin h specification apiKey options s)))
    = jobCreationCount (snd (checkRateLimit (now h) s)) /\
  lastJobCreation (snd (fst (createPlugin h specification apiKey options s)))
    = lastJobCreation (snd (checkRateLimit (now h) s)).
Proof.
  intros Hfresh Hvalid. unfold createPlugin.
  rewrite bool_decide_eq_false_2 by exact Hfresh. rewrite Hvalid. cbn [negb].
  destruct (checkRateLimit (now h) s) as [allowed s1]. cbn [fst snd].
  destruct (negb allowed); [auto |].
  destruct (10 <=? Z.of_nat (size (jobs s1))); [auto |].
  destruct (negb (startsWith _ _)); cbn [fst snd].
  - destruct (truthy apiKey); auto.
  - match goal with |- context [if negb (configured ?a) && ?b then _ else _] =>
      destruct (negb (configured a) && b) end; destruct (truthy apiKey); auto.
Qed.

Lemma createPlugin_passed_outcome (h : Host) (specification : PluginSpecification)
  (apiKey : option string) (options : option Options) (s : Service) :
  name specification ∉ createdPlugins s ->
  isValidPluginName (name specification) = true ->
  fst (checkRateLimit (now h) s) = true ->
  (10 <= Z.of_nat (size (jobs s)) ->
   fst (fst (createPlugin h specification apiKey options s)) = Threw capacityMessage) /\
  (Z.of_nat (size (jobs s)) < 10 ->
   isAbsolute (cwd h) = true -> plainSegment (uuid h) = true ->
   fst (fst (createPlugin h specification apiKey options s)) = Returned (uuid h)).
Proof.
  intros Hfresh Hvalid Hrate.
  pose proof (checkRateLimit_jobs (now h) s) as (Hj & _ & _ & Hd & _).
  unfold createPlugin.
  rewrite bool_decide_eq_false_2 by exact Hfresh. rewrite Hvalid. cbn [negb].
  destruct (checkRateLimit (now h) s) as [allowed s1]. cbn [fst snd] in *. subst allowed.
  cbn [negb]. rewrite Hj. split.
  - intros Hcap. rewrite (proj2 (Z.leb_le _ _)) by exact Hcap. reflexivity.
  - intros Hroom Hcwd Hid. rewrite (proj2 (Z.leb_gt _ _)) by exact Hroom.
    set (s2 := if truthy apiKey then set_anthropic apiKey s1 else s1).
    assert (Hd2 : dataDirSetting s2 = dataDirSetting s).
    { unfold s2. destruct (truthy apiKey); exact Hd. }
    rewrite (getDataDir_setting (cwd h) s s2 Hd2).
    destruct (resolve_of_join (cwd h) (getDataDir (cwd h) s) (uuid h)
                (sanitizePluginName (name specification)) Hcwd
                (getDataDir_nonempty _ _ Hcwd) Hid (sanitizePluginName_plain _ Hvalid))
      as (rootSegs & _ & Hr & Ho).
    rewrite Ho, Hr, startsWith_descendant by discriminate. reflexivity.
Qed.

Lemma createPlugin_tracked (h : Host) (specification : PluginSpecification)
  (apiKey : option string) (options : option Options) (s : Service) (k : string) :
  is_Some (jobs s !! k) ->
  is_Some (jobs (snd (fst (createPlugin h specification apiKey options s))) !! k).
Proof.
  intros Hk. unfold createPlugin.
  destruct (bool_decide _); [exact Hk |].
  destruct (negb (isValidPluginName _)); [exact Hk |].
  pose proof (checkRateLimit_jobs (now h) s) as (Hj & _).
  destruct (checkRateLimit (now h) s) as [allowed s1]. cbn [fst snd] in *.
  rewrite <- Hj in Hk.
  destruct (negb allowed); [exact Hk |].
  destruct (10 <=? _); [exact Hk |].
  assert (Hk2 : is_Some (jobs (if truthy apiKey then set_anthropic apiKey s1 else s1) !! k)).
  { destruct (truthy apiKey); exact Hk. }
  destruct (negb (startsWith _ _)); cbn [fst snd]; [exact Hk2 |].
  match goal with |- context [if negb (configured ?a) && ?b then _ else _] =>
    destruct (negb (configured a) && b) end; cbn [jobs set_jobs set_createdPlugins].
  - rewrite lookup_alter_is_Some. rewrite lookup_insert_is_Some'. right. exact Hk2.
  - rewrite lookup_insert_is_Some'. right. exact Hk2.
Qed.

Lemma submitAll_tracked (reqs : list Request) (s : Service) (k : string) :
  is_Some (jobs s !! k) -> is_Some (jobs (fst (submitAll reqs s)) !! k).
Proof.
  revert s. induction reqs as [| r rest IH]; intros s Hk; [exact Hk |].
  cbn [submitAll]. specialize (IH (snd (fst (submit r s)))).
  destruct (submitAll rest (snd (fst (submit r s)))) as [s2 cs]. cbn [fst] in *.
  apply IH. unfold submit. apply createPlugin_tracked, Hk.
Qed.

Lemma submitAll_ids_tracked (reqs : list Request) (s : Service) :
  forallb isReturned (snd (submitAll reqs s)) = true ->
  forall k, k ∈ List.map requestId reqs -> is_Some (jobs (fst (submitAll reqs s)) !! k).
Proof.
  revert s. induction reqs as [| r rest IH]; intros s Hall k Hin.
  - apply elem_of_nil in Hin. contradiction.
  - cbn [submitAll List.map] in *.
    pose proof (submitAll_tracked rest (snd (fst (submit r s))) k) as Hkeep.
    specialize (IH (snd (fst (submit r s)))).
    destruct (submitAll rest (snd (fst (submit r s)))) as [s2 cs]. cbn [fst snd forallb] in *.
    apply andb_true_iff in Hall as [Hr Hcs].
    apply elem_of_cons in Hin as [-> | Hin]; [| apply IH; assumption].
    apply Hkeep. unfold submit in *.
    destruct (fst (fst (createPlugin _ _ _ _ s))) as [jobId | |] eqn:Hres; try discriminate.
    apply createPlugin_returned in Hres as (-> & _ & _ & _ & _ & (job & Hlook & _) & _).
    unfold requestId. rewrite Hlook. eexists. reflexivity.
Qed.

Lemma submitAll_size (reqs : list Request) (s : Service) :
  forallb isReturned (snd (submitAll reqs s)) = true ->
  NoDup (List.map requestId reqs) ->
  Z.of_nat (List.length reqs) <= Z.of_nat (size (jobs (fst (submitAll reqs s)))).
Proof.
  intros Hall Hnd.
  pose proof (submitAll_ids_tracked reqs s Hall) as Hids.
  assert (Hsub : (list_to_set (List.map requestId reqs) : gset string)
                 ⊆ dom (jobs (fst (submitAll reqs s)))).
  { intros k Hk. apply elem_of_list_to_set in Hk. apply elem_of_dom, Hids, Hk. }
  apply subseteq_size in Hsub. rewrite size_dom in Hsub.
  rewrite size_list_to_set in Hsub by exact Hnd.
  rewrite List.length_map in Hsub. lia.
Qed.

(** Claim C7, as amended.  After ten creations that succeeded with at
    most an hour between consecutive ones, an eleventh request with a valid,
    unused name arriving at most an hour after the tenth fails with the
    rate-limit error and changes nothing.  More than an hour after the last
    creation the limiter lets the same request through and restarts its
    counter at 1; the request then fails with the capacity error when 10 or
    more jobs are tracked (as they are when the ten creations got distinct
    ids), and returns a job id only when fewer than 10 are tracked. *)
Theorem eleventh_creation_rate_limited_then_limiter_resets
  (s0 : Service) (first : Request) (rest : list Request) (r11 : Request) (later : Host) :
  reachable s0 ->
  List.length rest = 9%nat ->
  forallb isReturned (snd (submitAll (first :: rest) s0)) = true ->
  gapsWithin oneHour (requestTime first)
    (List.map requestTime rest ++ [requestTime r11]) = true ->
  name (reqSpec r11) ∉ createdPlugins (fst (submitAll (first :: rest) s0)) ->
  isValidPluginName (name (reqSpec r11)) = true ->
  oneHour < now later - lastJobCreation (fst (submitAll (first :: rest) s0)) ->
  let s := fst (submitAll (first :: rest) s0) in
  let retry := createPlugin later (reqSpec r11) (reqKey r11) (reqOptions r11) s in
  submit r11 s = (Threw rateLimitMessage, s, []) /\
  fst (checkRateLimit (now later) s) = true /\
  jobCreationCount (snd (fst retry)) = 1 /\
  lastJobCreation (snd (fst retry)) = now later /\
  (10 <= Z.of_nat (size (jobs s)) -> fst (fst retry) = Threw capacityMessage) /\
  (NoDup (List.map requestId (first :: rest)) -> fst (fst retry) = Threw capacityMessage) /\
  (Z.of_nat (size (jobs s)) < 10 ->
   isAbsolute (cwd later) = true -> plainSegment (uuid later) = true ->
   fst (fst retry) = Returned (uuid later)).
Proof.
  intros Hreach Hlen Hall Hgaps Hfresh Hvalid Hlater s retry.
  apply reachable_admission in Hreach as [_ Hcount0].
  (* the limiter state after the ten creations *)
  assert (Hs : 10 <= jobCreationCount s /\ requestTime r11 - lastJobCreation s <= oneHour).
  { unfold s. cbn [submitAll] in *.
    pose proof (submitAll_counts rest (snd (fst (submit first s0)))) as Hrest.
    destruct (submitAll rest (snd (fst (submit first s0)))) as [s2 cs]. cbn [fst snd forallb] in *.
    apply andb_true_iff in Hall as [Hfirst Hcs].
    unfold submit in Hfirst, Hrest.
    destruct (fst (fst (createPlugin (reqHost first) _ _ _ s0))) as [jobId | |] eqn:Hres;
      try discriminate.
    apply createPlugin_returned in Hres as (_ & _ & _ & Hrate & _ & _ & _ & Hn & Hl).
    destruct (checkRateLimit_passed _ _ Hrate) as [Hn' Hl'].
    unfold submit in *. rewrite Hl, Hl' in Hrest. fold (requestTime first) in Hrest.
    assert (Hgaps' : gapsWithin oneHour (requestTime first) (List.map requestTime rest) = true).
    { clear -Hgaps. revert Hgaps. generalize (requestTime first).
      induction (List.map requestTime rest) as [| t ts IH]; intros p H; [reflexivity |].
      cbn [app gapsWithin] in *. apply andb_true_iff in H as [H1 H2].
      rewrite H1, (IH _ H2). reflexivity. }
    destruct (Hrest Hcs Hgaps') as (Hc & _ & Ht).
    split; [| apply Ht, Hgaps].
    rewrite Hc, Hn, Hn', Hlen. destruct (oneHour <? _); lia. }
  destruct Hs as [Hten Hwithin].
  assert (Hrefused : submit r11 s = (Threw rateLimitMessage, s, [])).
  { unfold submit, createPlugin.
    rewrite bool_decide_eq_false_2 by exact Hfresh. rewrite Hvalid. cbn [negb].
    unfold checkRateLimit. fold (requestTime r11).
    rewrite (proj2 (Z.ltb_ge _ _)) by lia.
    rewrite (proj2 (Z.leb_le _ _)) by exact Hten. reflexivity. }
  assert (Hpass : fst (checkRateLimit (now later) s) = true /\
                   jobCreationCount (snd (checkRateLimit (now later) s)) = 1 /\
                   lastJobCreation (snd (checkRateLimit (now later) s)) = now later).
  { unfold checkRateLimit. rewrite (proj2 (Z.ltb_lt _ _)) by exact Hlater.
    cbn. auto. }
  destruct Hpass as (Hpass & Hone & Hlast).
  destruct (createPlugin_limiter_state later (reqSpec r11) (reqKey r11) (reqOptions r11) s
              Hfresh Hvalid) as [Hn Hl].
  destruct (createPlugin_passed_outcome later (reqSpec r11) (reqKey r11) (reqOptions r11) s
              Hfresh Hvalid Hpass) as [Hcap Hroom].
  split; [exact Hrefused |]. split; [exact Hpass |].
  split; [unfold retry; rewrite Hn; exact Hone |].
  split; [unfold retry; rewrite Hl; exact Hlast |].
  split; [exact Hcap |]. split; [| exact Hroom].
  intros Hnd. apply Hcap.
  pose proof (submitAll_size (first :: rest) s0 Hall Hnd) as Hsize.
  cbn [List.length] in Hsize. rewrite Hlen in Hsize. unfold s. lia.
Qed.

(** ** Sample runs *)

Example createPlugin_sample :
  jobs sampleService !! "3b241101-e2bb-4255-8caf-4136c566a962" = Some sampleJob.
Proof. reflexivity. Qed.

(** The paths that end a job stamp [completedAt] together with a terminal
    status. *)
Lemma stopJob_completedIffTerminal (t : Z) (job : Job) :
  completedIffTerminal job -> completedIffTerminal (stopJob t job).
Proof.
  unfold stopJob, completedIffTerminal. rewrite isActive_terminal.
  destruct (isTerminal (status job)) eqn:Ht; cbn [negb]; [rewrite Ht; auto |].
  intros _. cbn. split; [reflexivity | eauto].
Qed.

Lemma runCreationProcess_completedIffTerminal (anthropic : option string)
  (pw : ProcessWorld) (useTemplate : bool) (job : Job) :
  fst (fst (runCreationProcess anthropic pw useTemplate job)) = Returned tt ->
  completedIffTerminal (snd (fst (runCreationProcess anthropic pw useTemplate job))).
Proof.
  unfold runCreationProcess, tryCatch.
  match goal with |- context [match ?m job with _ => _ end] =>
    destruct (m job) as [[[[] | message |] job1] calls1] eqn:Hbody end;
    cbn [fst snd]; try discriminate.
  - intros _. revert Hbody.
    cbv [mbind M_bind bind mret M_ret ret modify call await throw getJob logM].
    repeat match goal with
           | |- context [match ?x with _ => _ end] =>
               match x with
               | context [match _ with _ => _ end] => fail 1
               | _ => destruct x
               end
           end; intros H; inversion H; subst; cbn; split; eauto.
  - intros _. cbv [mbind M_bind bind mret M_ret ret modify call await throw getJob logM].
    cbn. split; eauto.
Qed.

(** Claim C1 does not hold of the code.  Without a provider, the first round
    on the freshly created job ends in the [catch] of [runSingleIteration],
    which stamps [completedAt] and leaves the status [pending]; the loop then
    sets the status to [running], [completedAt] still set. *)
Theorem completedAt_stamped_on_pending_job :
  fst (fst (runSingleIteration None passingRound sampleJob)) = Returned false /\
  status (snd (fst (runSingleIteration None passingRound sampleJob))) = pending /\
  completedAt (snd (fst (runSingleIteration None passingRound sampleJob))) = Some 50 /\
  ~ completedIffTerminal (snd (fst (runSingleIteration None passingRound sampleJob))) /\
  status (snd (fst (creationLoop 1 None flakyProcess false sampleJob))) = running /\
  completedAt (snd (fst (creationLoop 1 None flakyProcess false sampleJob))) = Some 50.
Proof.
  repeat split; try reflexivity.
  unfold completedIffTerminal. intros [H _].
  assert (Hs : is_Some (completedAt (snd (fst (runSingleIteration None passingRound sampleJob))))).
  { exists 50. reflexivity. }
  specialize (H Hs). discriminate H.
Qed.

(** ** A process without a provider never leaves generation *)

Lemma generationOnly_refl (job : Job) : generationOnly job job [].
Proof. split; [exists []; rewrite app_nil_r; split; reflexivity | reflexivity]. Qed.

Lemma generationOnly_trans (j1 j2 j3 : Job) (c1 c2 : list Call) :
  generationOnly j1 j2 c1 -> generationOnly j2 j3 c2 -> generationOnly j1 j3 (c1 ++ c2).
Proof.
  intros [(a1 & E1 & G1) H1] [(a2 & E2 & G2) H2]. split.
  - exists (a1 ++ a2). rewrite E2, E1, <- app_assoc, forallb_app, G1, G2. split; reflexivity.
  - rewrite forallb_app, H1, H2. reflexivity.
Qed.

Lemma generationOnly_same_ledger (job job' : Job) :
  errors job' = errors job -> generationOnly job job' [].
Proof.
  intros E. split; [exists []; rewrite app_nil_r; split; [exact E | reflexivity] | reflexivity].
Qed.

Ltac ledger_step :=
  lazymatch goal with
  | |- respects _ (ret _) => apply (respects_ret _ generationOnly_refl)
  | |- respects _ (throw _) => apply (respects_throw _ generationOnly_refl)
  | |- respects _ (await _) => apply (respects_await _ generationOnly_refl)
  | |- respects _ getJob => apply (respects_getJob _ generationOnly_refl)
  | |- respects _ (modify _) =>
      apply (respects_modify _); intros; apply generationOnly_same_ledger; reflexivity
  | |- respects _ (logM _ _) =>
      apply (respects_modify _); intros; apply generationOnly_same_ledger; reflexivity
  | |- respects _ (call _) =>
      apply (respects_call _); intros; split;
        [exists []; rewrite app_nil_r; split; reflexivity | reflexivity]
  | |- respects _ (_ ≫= _) => apply (respects_bind _ generationOnly_trans); [| intros ?]
  | |- respects _ (tryCatch _ _) =>
      apply (respects_tryCatch _ generationOnly_trans); [| intros ?]
  end.

Lemma runSingleIteration_generationOnly (w : RoundWorld) :
  respects generationOnly (runSingleIteration None w).
Proof.
  intros job. split; [| reflexivity].
  eexists [_]. split; reflexivity.
Qed.

Lemma creationLoop_generationOnly (fuel : nat) (pw : ProcessWorld) (success : bool) :
  respects generationOnly (creationLoop fuel None pw success).
Proof.
  revert success. induction fuel as [| fuel IH]; intros success; cbn [creationLoop].
  - ledger_step; [ledger_step |].
    destruct (_ && _); ledger_step.
  - ledger_step; [ledger_step |].
    destruct (_ && _); [| ledger_step].
    ledger_step; [ledger_step |].
    ledger_step; [ledger_step |].
    ledger_step; [ledger_step |].
    ledger_step; [ledger_step |].
    ledger_step; [ledger_step |].
    ledger_step; [apply runSingleIteration_generationOnly |].
    ledger_step; [ledger_step |].
    ledger_step; [| apply IH].
    destruct (_ && _); [| ledger_step].
    ledger_step; [ledger_step |]. unfold prepareNextIteration.
    ledger_step; ledger_step.
Qed.

Lemma runCreationProcess_generationOnly (pw : ProcessWorld) (useTemplate : bool) :
  respects generationOnly (runCreationProcess None pw useTemplate).
Proof.
  unfold runCreationProcess. ledger_step.
  - ledger_step.
    + unfold setupPluginWorkspace. ledger_step; [ledger_step |].
      ledger_step; [| ledger_step].
      destruct useTemplate; [destruct (templateFound pw) |]; ledger_step.
    + ledger_step; [ledger_step |].
      ledger_step; [apply creationLoop_generationOnly |].
      destruct a1 as [[|] |].
      * ledger_step; [ledger_step |]. ledger_step; ledger_step.
      * ledger_step; [ledger_step |]. ledger_step; ledger_step.
      * ledger_step.
  - ledger_step; [ledger_step |]. ledger_step; [ledger_step |].
    ledger_step; ledger_step.
Qed.

(** Claim C9.  Without a provider, validation returns [true] and touches
    nothing, generation throws, and a round ends in generation: it returns
    [false] without any call to the host, the ledger gains one record whose
    phase is ["generating"], and the phase label stays ["generating"].  A
    whole creation process therefore never gets past generation: every
    record it adds to the ledger is one of the generate phase, and the only
    calls to the host are those of workspace setup and of the preparation
    of the next iteration. *)
Theorem without_provider_generation_fails_validation_passes (w : RoundWorld) (job : Job) :
  validatePlugin None w job = (Returned true, job, []) /\
  generatePluginCode None w job = (Threw noProviderMessage, job, []) /\
  fst (fst (runSingleIteration None w job)) = Returned false /\
  snd (runSingleIteration None w job) = [] /\
  errors (snd (fst (runSingleIteration None w job)))
    = errors job ++ [{| iteration := currentIteration job; phase := "generating";
                        errorText := noProviderMessage; timestamp := failureClock w |}] /\
  currentPhase (snd (fst (runSingleIteration None w job))) = "generating" /\
  (forall (pw : ProcessWorld) (useTemplate : bool),
     generationOnly job (snd (fst (runCreationProcess None pw useTemplate job)))
       (snd (runCreationProcess None pw useTemplate job))).
Proof.
  repeat (apply conj; [reflexivity |]).
  intros pw useTemplate. apply runCreationProcess_generationOnly.
Qed.



Lemma spawn_exception_escapes_runCommand_witness :
  fst (fst (runCommand brokenSpawnRun "npm" ["install"] "Installing dependencies" sampleJob))
    = Threw "spawn ENOTDIR" /\
  promise (runHarness "npm" [OnStdout {| byteLength := 5; text := "hello" |}; OnExit;
                             TimerFires false]) = Pending.
Proof.
  destruct (spawn_exception_escapes_runCommand brokenSpawnRun "npm" ["install"]
              "Installing dependencies" sampleJob "spawn ENOTDIR" eq_refl) as (Hrun & _ & Hexit).
  split; [exact Hrun |].
  exact (proj1 (Hexit "npm" [OnStdout {| byteLength := 5; text := "hello" |}]
                  [TimerFires false] eq_refl eq_refl)).
Defined.

Lemma build_failure_short_circuits_witness :
  exists job' : Job,
    fst (fst (runSingleIteration (Some "sk-test") brokenBuildRound sampleJob)) = Returned false /\
    errors job' = errors sampleJob ++
      [{| iteration := 0; phase := "building";
          errorText := "error TS2304: Cannot find name"; timestamp := 50 |}].
Proof.
  destruct (build_failure_short_circuits (Some "sk-test") brokenBuildRound sampleJob
              _ _ _ _ eq_refl eq_refl) as (job' & Hrun & Herr & _).
  exists job'. split; [rewrite Hrun; reflexivity | exact Herr].
Defined.

Lemma cancelJob_idempotent_on_terminal_witness :
  cancelJob 2000 true "3b241101-e2bb-4255-8caf-4136c566a962"
    (fst (cancelJob 1500 true "3b241101-e2bb-4255-8caf-4136c566a962" sampleService))
  = (fst (cancelJob 1500 true "3b241101-e2bb-4255-8caf-4136c566a962" sampleService), []).
Proof.
  refine (proj1 (proj1 (cancelJob_idempotent_on_terminal 2000 true
            "3b241101-e2bb-4255-8caf-4136c566a962"
            (fst (cancelJob 1500 true "3b241101-e2bb-4255-8caf-4136c566a962" sampleService))
            (set_completedAt (Some 1500) (set_status cancelled
               (pushLog 1500 "Job cancelled by user" sampleJob))) _) _)).
  - reflexivity.
  - reflexivity.
Defined.

Lemma invalid_name_rejected_and_output_sandboxed_witness :
  createPlugin sampleHost
    {| name := "../../../etc/passwd"; description := "escape"; version := None |}
    (Some "sk-test") None sampleService
  = (Threw invalidNameMessage, sampleService, []).
Proof.
  refine (proj1 (invalid_name_rejected_and_output_sandboxed sampleHost
            {| name := "../../../etc/passwd"; description := "escape"; version := None |}
            (Some "sk-test") None sampleService _) _).
  - apply reach_create, reach_init.
  - left. reflexivity.
Defined.

Lemma capacity_rejection_consumes_rate_budget_witness :
  fst (fst (createPlugin anHourLater (reqSpec eleventh) (reqKey eleventh)
              (reqOptions eleventh) afterBurst)) = Threw capacityMessage /\
  jobCreationCount (snd (fst (createPlugin anHourLater (reqSpec eleventh) (reqKey eleventh)
                                (reqOptions eleventh) afterBurst))) = 0 + 1.
Proof.
  assert (Hfresh : name (reqSpec eleventh) ∉ createdPlugins afterBurst).
  { apply (bool_decide_eq_false_1 _). vm_compute. reflexivity. }
  assert (Hvalid : isValidPluginName (name (reqSpec eleventh)) = true) by reflexivity.
  assert (Hrate : fst (checkRateLimit (now anHourLater) afterBurst) = true)
    by (vm_compute; reflexivity).
  assert (Hcap : 10 <= Z.of_nat (size (jobs afterBurst))) by (vm_compute; discriminate).
  destruct (capacity_rejection_consumes_rate_budget anHourLater (reqSpec eleventh)
              (reqKey eleventh) (reqOptions eleventh) afterBurst Hfresh Hvalid Hrate Hcap)
    as (H1 & _ & _ & _ & H5 & _).
  split; [exact H1 |]. rewrite H5. vm_compute. reflexivity.
Defined.

Lemma eleventh_creation_rate_limited_then_limiter_resets_witness :
  submit eleventh afterBurst = (Threw rateLimitMessage, afterBurst, []) /\
  fst (fst (createPlugin anHourLater (reqSpec eleventh) (reqKey eleventh)
              (reqOptions eleventh) afterBurst)) = Threw capacityMessage.
Proof.
  unfold afterBurst.
  assert (Hfresh : name (reqSpec eleventh)
                   ∉ createdPlugins (fst (submitAll (burstRequest 0 :: burst)
                                            (initialService None)))).
  { apply (bool_decide_eq_false_1 _). vm_compute. reflexivity. }
  assert (Hlater : oneHour < now anHourLater
                   - lastJobCreation (fst (submitAll (burstRequest 0 :: burst)
                                             (initialService None))))
    by (vm_compute; reflexivity).
  assert (Hnd : NoDup (List.map requestId (burstRequest 0 :: burst))).
  { apply (bool_decide_unpack _). vm_compute. exact I. }
  assert (Hlen : List.length burst = 9%nat) by reflexivity.
  assert (Hall : forallb isReturned
                   (snd (submitAll (burstRequest 0 :: burst) (initialService None))) = true)
    by (vm_compute; reflexivity).
  assert (Hgaps : gapsWithin oneHour (requestTime (burstRequest 0))
                    (List.map requestTime burst ++ [requestTime eleventh]) = true)
    by (vm_compute; reflexivity).
  assert (Hvalid : isValidPluginName (name (reqSpec eleventh)) = true) by reflexivity.
  pose proof (eleventh_creation_rate_limited_then_limiter_resets (initialService None)
                (burstRequest 0) burst eleventh anHourLater (reach_init None) Hlen
                Hall Hgaps Hfresh Hvalid Hlater) as H.
  cbv zeta in H. destruct H as (H1 & _ & _ & _ & _ & H6 & _).
  exact (conj H1 (H6 Hnd)).
Defined.

(** Claim C7 as stated fails: ten creations succeed within ten minutes,
    the eleventh is refused by the rate limiter, and the same request one
    hour and a millisecond after the last creation does not succeed: it is
    refused for capacity. *)
Lemma retry_after_an_hour_hits_capacity :
  snd (submitAll (burstRequest 0 :: burst) (initialService None))
    = List.map (fun r => Returned (requestId r)) (burstRequest 0 :: burst) /\
  submit eleventh afterBurst = (Threw rateLimitMessage, afterBurst, []) /\
  oneHour < now anHourLater - lastJobCreation afterBurst /\
  fst (fst (createPlugin anHourLater (reqSpec eleventh) (reqKey eleventh)
              (reqOptions eleventh) afterBurst)) = Threw capacityMessage /\
  isReturned (fst (fst (createPlugin anHourLater (reqSpec eleventh) (reqKey eleventh)
                          (reqOptions eleventh) afterBurst))) = false.
Proof. repeat (apply conj; [vm_compute; reflexivity |]). vm_compute. reflexivity. Qed.

(* ===================================================================== *)
(** * Part III: further properties of the service and the pipeline      *)
(* ===================================================================== *)

(** Conventions of this part, as in Part I.  An operation of the service
    takes one reading of the clock, also where the code calls [new Date()]
    more than once in it.  The pipeline works on the record of a job that
    the service still tracks, so that [logToJob] finds it.  Effects on the
    host are lists of requests; for the retention sweep, which walks a
    [Map], they are described by membership, not by order. *)

(** ** Retention sweep, shutdown and cancellation *)

Lemma cleanupOldJobs_lookup (t : Z) (s : Service) (k : string) :
  jobs (fst (cleanupOldJobs t s)) !! k =
    match jobs s !! k with
    | Some job => if isOld t job then None else Some job
    | None => None
    end.
Proof.
  unfold cleanupOldJobs. cbn [fst jobs set_jobs].
  destruct (jobs s !! k) as [job |] eqn:Hk.
  - destruct (isOld t job) eqn:Ho.
    + apply map_lookup_filter_None. right. intros x Hx. cbn [snd].
      rewrite Hk in Hx. injection Hx as <-. rewrite Ho. discriminate.
    + apply map_lookup_filter_Some. split; [exact Hk | exact Ho].
  - apply map_lookup_filter_None. left. exact Hk.
Qed.

(** X1.  The retention sweep: a job stays tracked exactly when it has no
    completion time or completed within the last week, and the jobs kept
    are unchanged; a directory removal is requested exactly for the output
    paths of the jobs swept; the registered names and the limiter are left
    alone; and sweeping again at the same time does nothing. *)
Theorem cleanupOldJobs_retention (t : Z) (s : Service) :
  (forall k, jobs (fst (cleanupOldJobs t s)) !! k =
     match jobs s !! k with
     | Some job => if isOld t job then None else Some job
     | None => None
     end) /\
  (forall job, isOld t job = true <->
     exists c, completedAt job = Some c /\ c < t - 7 * 24 * 60 * 60 * 1000) /\
  (forall p, RemoveDir p ∈ snd (cleanupOldJobs t s) <->
     p <> "" /\ exists k job, jobs s !! k = Some job /\ isOld t job = true /\
                              outputPath job = p) /\
  createdPlugins (fst (cleanupOldJobs t s)) = createdPlugins s /\
  jobCreationCount (fst (cleanupOldJobs t s)) = jobCreationCount s /\
  lastJobCreation (fst (cleanupOldJobs t s)) = lastJobCreation s /\
  (size (jobs (fst (cleanupOldJobs t s))) <= size (jobs s))%nat /\
  cleanupOldJobs t (fst (cleanupOldJobs t s)) = (fst (cleanupOldJobs t s), []).
Proof.
  split; [apply cleanupOldJobs_lookup |].
  split.
  { intros job. unfold isOld, oneWeekMs. destruct (completedAt job) as [c |].
    - rewrite Z.ltb_lt. split; [intros H; exists c; auto | intros (c' & [= <-] & H); exact H].
    - split; [discriminate | intros (c' & [=] & _)]. }
  split.
  { intros p. unfold cleanupOldJobs. cbn [snd].
    rewrite list_elem_of_fmap. split.
    - intros ([k job] & [= ->] & Hin). apply list_elem_of_In, List.filter_In in Hin as [Hin Hne].
      cbn [snd] in *. apply list_elem_of_In, elem_of_map_to_list in Hin.
      apply map_lookup_filter_Some in Hin as [Hk Ho]. cbn [snd] in Ho.
      split.
      + intros E. rewrite E in Hne. discriminate Hne.
      + exists k, job. auto.
    - intros (Hne & k & job & Hk & Ho & <-). exists (k, job). split; [reflexivity |].
      apply list_elem_of_In, List.filter_In. cbn [snd]. split.
      + apply list_elem_of_In, elem_of_map_to_list.
        apply map_lookup_filter_Some. split; [exact Hk | exact Ho].
      + destruct (String.eqb_spec (outputPath job) ""); [contradiction | reflexivity]. }
  split; [reflexivity |]. split; [reflexivity |]. split; [reflexivity |].
  split.
  { unfold cleanupOldJobs. cbn [fst jobs set_jobs].
    apply map_subseteq_size, map_filter_subseteq. }
  unfold cleanupOldJobs at 1. f_equal.
  - destruct s as [js a m cp l c d]. unfold cleanupOldJobs, set_jobs. cbn [fst jobs anthropic selectedModel createdPlugins lastJobCreation jobCreationCount dataDirSetting].
    f_equal. apply map_filter_id. intros k job Hk.
    apply map_lookup_filter_Some in Hk as [_ Ho]. exact Ho.
  - assert (E : filter (fun kv : string * Job => isOld t (snd kv) = true)
                  (jobs (fst (cleanupOldJobs t s))) = ∅).
    { apply map_empty. intros k. apply map_lookup_filter_None.
      rewrite cleanupOldJobs_lookup.
      destruct (jobs s !! k) as [job0 |]; [| left; reflexivity].
      destruct (isOld t job0) eqn:Ho0; [left; reflexivity |].
      right. intros x [= <-]. cbn [snd]. congruence. }
    rewrite E, map_to_list_empty. reflexivity.
Qed.

Lemma stopJob_inactive (t : Z) (job : Job) : isActive (status (stopJob t job)) = false.
Proof. unfold stopJob. destruct (isActive (status job)) eqn:E; [reflexivity | exact E]. Qed.

Lemma stopJob_idempotent (t t' : Z) (job : Job) : stopJob t' (stopJob t job) = stopJob t job.
Proof.
  unfold stopJob at 1. rewrite stopJob_inactive. reflexivity.
Qed.

(** X2.  Shutdown: after [stop] no tracked job is pending or running; a
    job that was pending or running is cancelled, stamped with the time of
    the call and gets one log line, its child-process handle untouched; a
    job in a terminal status is left as it was; no job is dropped; and a
    second [stop] changes nothing. *)
Theorem stop_cancels_every_active_job (t : Z) (s : Service) :
  (forall k job, jobs (stop t s) !! k = Some job -> isActive (status job) = false) /\
  (forall k job, jobs s !! k = Some job -> isActive (status job) = true ->
     exists job', jobs (stop t s) !! k = Some job' /\
       status job' = cancelled /\ completedAt job' = Some t /\
       logs job' = logs job ++ [{| logTime := t; logMessage := "Service stopped, job cancelled" |}] /\
       childProcess job' = childProcess job /\ errors job' = errors job) /\
  (forall k job, jobs s !! k = Some job -> isActive (status job) = false ->
     jobs (stop t s) !! k = Some job) /\
  (forall k, jobs s !! k = None -> jobs (stop t s) !! k = None) /\
  size (jobs (stop t s)) = size (jobs s) /\
  createdPlugins (stop t s) = createdPlugins s /\
  (forall t', stop t' (stop t s) = stop t s).
Proof.
  unfold stop. cbn [jobs set_jobs createdPlugins].
  split.
  { intros k job. rewrite lookup_fmap. destruct (jobs s !! k) as [j |]; [| discriminate].
    intros [= <-]. apply stopJob_inactive. }
  split.
  { intros k job Hk Ha. rewrite lookup_fmap, Hk. cbn. unfold stopJob. rewrite Ha.
    eexists. split; [reflexivity |]. repeat split. }
  split.
  { intros k job Hk Ha. rewrite lookup_fmap, Hk. cbn. unfold stopJob. rewrite Ha. reflexivity. }
  split.
  { intros k Hk. rewrite lookup_fmap, Hk. reflexivity. }
  split; [apply map_size_fmap |].
  split; [reflexivity |].
  intros t'. destruct s as [js a m cp l c d]. unfold set_jobs.
  cbn [jobs anthropic selectedModel createdPlugins lastJobCreation jobCreationCount dataDirSetting].
  f_equal. rewrite <- map_fmap_compose. apply map_fmap_ext. intros k job _.
  apply stopJob_idempotent.
Qed.

Lemma size_alter (f : Job -> Job) (m : gmap string Job) (i : string) :
  size (alter f i m) = size m.
Proof.
  destruct (m !! i) as [x |] eqn:E.
  - assert (alter f i m = <[i := f x]> m) as ->.
    { apply map_eq. intros j. destruct (decide (i = j)) as [-> | Hne].
      + rewrite lookup_alter_eq, E, lookup_insert_eq. reflexivity.
      + rewrite lookup_alter_ne, lookup_insert_ne by exact Hne. reflexivity. }
    apply map_size_insert_Some. rewrite E. eauto.
  - assert (alter f i m = m) as ->; [| reflexivity].
    apply map_eq. intros j. destruct (decide (i = j)) as [-> | Hne].
    + rewrite lookup_alter_eq, E. reflexivity.
    + rewrite lookup_alter_ne by exact Hne. reflexivity.
Qed.

Lemma cancelJob_inactive (t : Z) (delivered : bool) (jobId : string) (s : Service)
  (job' : Job) :
  jobs (fst (cancelJob t delivered jobId s)) !! jobId = Some job' ->
  isActive (status job') = false.
Proof.
  unfold cancelJob. destruct (jobs s !! jobId) as [job |] eqn:Hk; cbn [fst]; [| congruence].
  destruct (isActive (status job)) eqn:Ha; cbn [fst].
  - unfold logToJob. cbn [jobs set_jobs]. rewrite lookup_insert_eq. cbn [jobs set_jobs].
    destruct (childProcess job) as [child |]; [destruct (killed child) |]; cbn [negb fst jobs set_jobs];
      rewrite ?lookup_alter_eq, !lookup_insert_eq; cbn; intros [= <-]; reflexivity.
  - rewrite Hk. intros [= <-]. exact Ha.
Qed.

Lemma jobTimedOut_inactive (t : Z) (jobId : string) (s : Service) (job' : Job) :
  jobs (jobTimedOut t jobId s) !! jobId = Some job' -> isActive (status job') = false.
Proof.
  unfold jobTimedOut. destruct (jobs s !! jobId) as [job |] eqn:Hk; [| congruence].
  destruct (isActive (status job)) eqn:Ha.
  - unfold logToJob. cbn [jobs set_jobs]. rewrite lookup_insert_eq. cbn [jobs set_jobs].
    rewrite lookup_insert_eq. intros [= <-]. reflexivity.
  - rewrite Hk. intros [= <-]. exact Ha.
Qed.

Lemma cancelJob_noop (t : Z) (delivered : bool) (jobId : string) (s : Service) :
  (forall job, jobs s !! jobId = Some job -> isActive (status job) = false) ->
  cancelJob t delivered jobId s = (s, []).
Proof.
  intros H. unfold cancelJob. destruct (jobs s !! jobId) as [job |]; [| reflexivity].
  rewrite (H job eq_refl). reflexivity.
Qed.

Lemma jobTimedOut_noop (t : Z) (jobId : string) (s : Service) :
  (forall job, jobs s !! jobId = Some job -> isActive (status job) = false) ->
  jobTimedOut t jobId s = s.
Proof.
  intros H. unfold jobTimedOut. destruct (jobs s !! jobId) as [job |]; [| reflexivity].
  rewrite (H job eq_refl). reflexivity.
Qed.

Lemma logToJob_lookup_ne (jobId k : string) (t : Z) (m : string) (s : Service) :
  k <> jobId -> jobs (logToJob jobId t m s) !! k = jobs s !! k.
Proof.
  intros Hne. unfold logToJob. destruct (jobs s !! jobId); [| reflexivity].
  cbn [jobs set_jobs]. apply lookup_insert_ne. congruence.
Qed.

Lemma logToJob_fields (jobId : string) (t : Z) (m : string) (s : Service) :
  createdPlugins (logToJob jobId t m s) = createdPlugins s /\
  jobCreationCount (logToJob jobId t m s) = jobCreationCount s /\
  lastJobCreation (logToJob jobId t m s) = lastJobCreation s /\
  anthropic (logToJob jobId t m s) = anthropic s /\
  selectedModel (logToJob jobId t m s) = selectedModel s /\
  dataDirSetting (logToJob jobId t m s) = dataDirSetting s.
Proof. unfold logToJob. destruct (jobs s !! jobId); repeat split. Qed.

Lemma logToJob_size (jobId : string) (t : Z) (m : string) (s : Service) :
  size (jobs (logToJob jobId t m s)) = size (jobs s).
Proof.
  unfold logToJob. destruct (jobs s !! jobId) as [job |] eqn:Hk; [| reflexivity].
  cbn [jobs set_jobs]. apply map_size_insert_Some. rewrite Hk. eauto.
Qed.

Lemma cancelJob_size (t : Z) (delivered : bool) (jobId : string) (s : Service) :
  size (jobs (fst (cancelJob t delivered jobId s))) = size (jobs s).
Proof.
  unfold cancelJob. destruct (jobs s !! jobId) as [job |] eqn:Hk; [| reflexivity].
  destruct (isActive (status job)); [| reflexivity].
  assert (Hs0 : size (jobs (logToJob jobId t "Job cancelled by user"
                  (set_jobs (<[jobId := set_completedAt (Some t) (set_status cancelled job)]>
                               (jobs s)) s))) = size (jobs s)).
  { rewrite logToJob_size. cbn [jobs set_jobs]. apply map_size_insert_Some. rewrite Hk. eauto. }
  destruct (childProcess job) as [child |]; [destruct (killed child) |];
    cbn [negb fst jobs set_jobs]; rewrite ?size_alter; exact Hs0.
Qed.

Lemma cancelJob_lookup_ne (t : Z) (delivered : bool) (jobId k : string) (s : Service) :
  k <> jobId -> jobs (fst (cancelJob t delivered jobId s)) !! k = jobs s !! k.
Proof.
  intros Hne. unfold cancelJob.
  destruct (jobs s !! jobId) as [job |] eqn:Hk; cbn [fst]; [| reflexivity].
  destruct (isActive (status job)); cbn [fst]; [| reflexivity].
  assert (Hl0 : jobs (logToJob jobId t "Job cancelled by user"
                   (set_jobs (<[jobId := set_completedAt (Some t) (set_status cancelled job)]>
                                (jobs s)) s)) !! k = jobs s !! k).
  { rewrite logToJob_lookup_ne by exact Hne. cbn [jobs set_jobs].
    apply lookup_insert_ne. congruence. }
  destruct (childProcess job) as [child |]; [destruct (killed child) |];
    cbn [negb fst jobs set_jobs]; rewrite ?lookup_alter_ne by congruence; exact Hl0.
Qed.

Lemma jobTimedOut_lookup_ne (t : Z) (jobId k : string) (s : Service) :
  k <> jobId -> jobs (jobTimedOut t jobId s) !! k = jobs s !! k.
Proof.
  intros Hne. unfold jobTimedOut.
  destruct (jobs s !! jobId) as [job |]; [| reflexivity].
  destruct (isActive (status job)); [| reflexivity].
  rewrite logToJob_lookup_ne by exact Hne. cbn [jobs set_jobs].
  apply lookup_insert_ne. congruence.
Qed.

(** X4.  [cancelJob] touches one job only: for an identifier that is not
    tracked it does nothing; the records of all other jobs, the registered
    names, the limiter and the provider are as before and no job is
    dropped; and the only signal it can request is one [SIGTERM], for the
    child of a pending or running job whose handle is not yet marked
    killed.  The handle is marked killed afterwards exactly when the signal
    was delivered: for a child that has already exited it stays unmarked. *)
Theorem cancelJob_touches_only_its_job (t : Z) (delivered : bool) (jobId : string)
  (s : Service) :
  (jobs s !! jobId = None -> cancelJob t delivered jobId s = (s, [])) /\
  (forall k, k <> jobId -> jobs (fst (cancelJob t delivered jobId s)) !! k = jobs s !! k) /\
  size (jobs (fst (cancelJob t delivered jobId s))) = size (jobs s) /\
  createdPlugins (fst (cancelJob t delivered jobId s)) = createdPlugins s /\
  jobCreationCount (fst (cancelJob t delivered jobId s)) = jobCreationCount s /\
  lastJobCreation (fst (cancelJob t delivered jobId s)) = lastJobCreation s /\
  anthropic (fst (cancelJob t delivered jobId s)) = anthropic s /\
  (snd (cancelJob t delivered jobId s) = [] \/
   exists job child,
     jobs s !! jobId = Some job /\ isActive (status job) = true /\
     childProcess job = Some child /\ killed child = false /\
     snd (cancelJob t delivered jobId s) = [Kill (pid child) "SIGTERM"] /\
     (childProcess <$> jobs (fst (cancelJob t delivered jobId s)) !! jobId)
       = Some (Some {| pid := pid child; killed := delivered |})).
Proof.
  split.
  { intros Hk. unfold cancelJob. rewrite Hk. reflexivity. }
  split; [intros k Hne; apply cancelJob_lookup_ne, Hne |].
  split; [apply cancelJob_size |].
  unfold cancelJob.
  destruct (jobs s !! jobId) as [job |] eqn:Hk; cbn [fst snd];
    [| repeat split; auto].
  destruct (isActive (status job)) eqn:Ha; cbn [fst snd];
    [| repeat split; auto].
  set (s0 := set_jobs (<[jobId := set_completedAt (Some t) (set_status cancelled job)]> (jobs s)) s).
  pose proof (logToJob_fields jobId t "Job cancelled by user" s0) as (F1 & F2 & F3 & F4 & _).
  destruct (childProcess job) as [child |] eqn:Hc; [destruct (killed child) eqn:Hkd |];
    cbn [negb fst snd jobs set_jobs createdPlugins jobCreationCount lastJobCreation anthropic].
  - rewrite F1, F2, F3, F4. repeat split. left. reflexivity.
  - rewrite F1, F2, F3, F4. repeat split. right. exists job, child.
    repeat split; try assumption.
    rewrite lookup_alter_eq. unfold logToJob. subst s0. cbn [jobs set_jobs].
    rewrite lookup_insert_eq. cbn [jobs set_jobs]. rewrite lookup_insert_eq. reflexivity.
  - rewrite F1, F2, F3, F4. repeat split. left. reflexivity.
Qed.

(** ** Outcomes of [createPlugin] *)

Lemma alter_insert_same (f : Job -> Job) (m : gmap string Job) (i : string) (x : Job) :
  alter f i (<[i := x]> m) = <[i := f x]> m.
Proof.
  apply map_eq. intros j. destruct (decide (i = j)) as [-> | Hne].
  - rewrite lookup_alter_eq, !lookup_insert_eq. reflexivity.
  - rewrite lookup_alter_ne, !lookup_insert_ne by exact Hne. reflexivity.
Qed.

(** The model a creation request asks for. *)
Lemma createPlugin_cases (h : Host) (spec : PluginSpecification)
  (apiKey : option string) (options : option Options) (s : Service) :
  let r := createPlugin h spec apiKey options s in
  let s1 := snd (checkRateLimit (now h) s) in
  let s2 := if truthy apiKey then set_anthropic apiKey s1 else s1 in
  (name spec ∈ createdPlugins s /\
   r = (Threw (duplicateMessage (name spec)), s, [])) \/
  (isValidPluginName (name spec) = false /\ r = (Threw invalidNameMessage, s, [])) \/
  (fst (checkRateLimit (now h) s) = false /\ r = (Threw rateLimitMessage, s, [])) \/
  (fst (checkRateLimit (now h) s) = true /\ 10 <= Z.of_nat (size (jobs s)) /\
   r = (Threw capacityMessage, s1, [])) \/
  (fst (checkRateLimit (now h) s) = true /\ r = (Threw outputPathMessage, s2, [])) \/
  ((name spec ∉ createdPlugins s) /\
   isValidPluginName (name spec) = true /\
   fst (checkRateLimit (now h) s) = true /\
   Z.of_nat (size (jobs s)) < 10 /\
   exists job : Job,
     fst (fst r) = Returned (uuid h) /\
     jobs (snd (fst r)) = <[uuid h := job]> (jobs s) /\
     createdPlugins (snd (fst r)) = {[name spec]} ∪ createdPlugins s /\
     anthropic (snd (fst r)) = (if truthy apiKey then apiKey else anthropic s) /\
     selectedModel (snd (fst r)) = selectedModel s /\
     dataDirSetting (snd (fst r)) = dataDirSetting s /\
     jobCreationCount (snd (fst r)) = jobCreationCount s1 /\
     lastJobCreation (snd (fst r)) = lastJobCreation s1 /\
     snd r = [SetTimeout (uuid h) (30 * 60 * 1000);
              RunCreationProcess (uuid h)
                match options with
                | Some {| useTemplate := Some b |} => b
                | _ => true
                end] /\
     id job = uuid h /\ specification job = spec /\
     status job = pending /\ currentPhase job = "initializing" /\
     logs job = [] /\ errors job = [] /\ error job = None /\
     startedAt job = now h /\ completedAt job = None /\
     currentIteration job = 0 /\ maxIterations job = 5 /\ childProcess job = None /\
     modelUsed job = Some match options with
                          | Some {| model := Some m |} => m
                          | _ => selectedModel s
                          end).
Proof.
  cbv zeta. unfold createPlugin.
  destruct (bool_decide (name spec ∈ createdPlugins s)) eqn:Hdup.
  { left. apply bool_decide_eq_true in Hdup. auto. }
  apply bool_decide_eq_false in Hdup. right.
  destruct (isValidPluginName (name spec)) eqn:Hvalid; cbn [negb]; [| left; auto].
  right.
  pose proof (checkRateLimit_jobs (now h) s) as (Hj & Hp & Ha & Hd & Hm).
  pose proof (checkRateLimit_refused (now h) s) as Href.
  destruct (checkRateLimit (now h) s) as [allowed s1] eqn:Hc. cbn [fst snd] in *.
  destruct allowed; cbn [negb]; [| left; rewrite (Href eq_refl); auto].
  right. rewrite Hj.
  destruct (10 <=? Z.of_nat (size (jobs s))) eqn:Hsz.
  { left. apply Z.leb_le in Hsz. auto. }
  apply Z.leb_gt in Hsz. right.
  set (s2 := if truthy apiKey then set_anthropic apiKey s1 else s1).
  assert (Hs2 : jobs s2 = jobs s /\ createdPlugins s2 = createdPlugins s /\
                dataDirSetting s2 = dataDirSetting s /\
                selectedModel s2 = selectedModel s /\
                anthropic s2 = (if truthy apiKey then apiKey else anthropic s) /\
                jobCreationCount s2 = jobCreationCount s1 /\
                lastJobCreation s2 = lastJobCreation s1).
  { unfold s2. destruct (truthy apiKey); cbn; auto 10. }
  destruct Hs2 as (Hj2 & Hp2 & Hd2 & Hm2 & Ha2 & Hn2 & Hl2).
  destruct (startsWith _ _) eqn:Hstart; cbn [negb]; [| left; auto].
  right. split; [exact Hdup |]. split; [reflexivity |]. split; [reflexivity |].
  split; [exact Hsz |].
  eexists. cbn [fst snd]. split; [reflexivity |].
  split.
  { match goal with |- context [if ?b then _ else _] => destruct b end;
      cbn [jobs set_jobs set_createdPlugins]; rewrite ?alter_insert_same, Hj2; reflexivity. }
  split.
  { match goal with |- context [if ?b then _ else _] => destruct b end; cbn; rewrite Hp2; reflexivity. }
  split.
  { match goal with |- context [if ?b then _ else _] => destruct b end; cbn; exact Ha2. }
  split.
  { match goal with |- context [if ?b then _ else _] => destruct b end; cbn; exact Hm2. }
  split.
  { match goal with |- context [if ?b then _ else _] => destruct b end; cbn; exact Hd2. }
  split.
  { match goal with |- context [if ?b then _ else _] => destruct b end; cbn; exact Hn2. }
  split.
  { match goal with |- context [if ?b then _ else _] => destruct b end; cbn; exact Hl2. }
  split; [reflexivity |].
  cbn. rewrite Hm2. repeat split.
Qed.

(** X5.  A creation request that is refused leaves no trace among the
    jobs: whatever the error, no job is tracked, no name is registered, no
    timer or background process is requested and the model preference is
    unchanged; the error is one of the five of [createPlugin]; and a
    refusal for a duplicate name, an invalid name or the rate limit leaves
    the whole service as it was. *)
Theorem refused_creation_leaves_no_job
  (h : Host) (spec : PluginSpecification) (apiKey : option string)
  (options : option Options) (s : Service) (message : string) :
  fst (fst (createPlugin h spec apiKey options s)) = Threw message ->
  jobs (snd (fst (createPlugin h spec apiKey options s))) = jobs s /\
  createdPlugins (snd (fst (createPlugin h spec apiKey options s))) = createdPlugins s /\
  selectedModel (snd (fst (createPlugin h spec apiKey options s))) = selectedModel s /\
  snd (createPlugin h spec apiKey options s) = [] /\
  In message [duplicateMessage (name spec); invalidNameMessage; rateLimitMessage;
              capacityMessage; outputPathMessage] /\
  (In message [duplicateMessage (name spec); invalidNameMessage; rateLimitMessage] ->
   snd (fst (createPlugin h spec apiKey options s)) = s).
Proof.
  intros Hthrow.
  pose proof (checkRateLimit_jobs (now h) s) as (Hj & Hp & Ha & Hd & Hm).
  destruct (createPlugin_cases h spec apiKey options s)
    as [[_ E] | [[_ E] | [[_ E] | [(_ & _ & E) | [[_ E] | (_ & _ & _ & _ & job & E & _)]]]]];
    cbv zeta in E; try (rewrite E in Hthrow; discriminate Hthrow);
    rewrite E in Hthrow |- *; cbn [fst snd] in Hthrow |- *; injection Hthrow as <-.
  - repeat split; simpl; auto.
  - repeat split; simpl; auto.
  - repeat split; simpl; auto.
  - repeat split; auto.
    + simpl. auto 10.
    + intros [E' | [E' | [E' | []]]]; discriminate E'.
  - destruct (truthy apiKey); cbn; repeat split; auto.
    + simpl. auto 10.
    + intros [E' | [E' | [E' | []]]]; discriminate E'.
    + simpl. auto 10.
    + intros [E' | [E' | [E' | []]]]; discriminate E'.
Qed.

(** X6.  A creation request that is accepted returns the identifier the
    host generated and registers the job under it: [getJobStatus] finds a
    record that is pending, at iteration 0 of 5, with empty log and ledger
    and no completion time, started at the time of the call, for the model
    of the request or else the selected one; the name counts as created;
    the other jobs are untouched; a 30-minute timer and the background
    process (with the template unless the request says otherwise) are
    requested; and a non-empty API key replaces the provider of the
    service. *)
Theorem accepted_creation_registers_job
  (h : Host) (spec : PluginSpecification) (apiKey : option string)
  (options : option Options) (s : Service) (jobId : string) :
  fst (fst (createPlugin h spec apiKey options s)) = Returned jobId ->
  let s' := snd (fst (createPlugin h spec apiKey options s)) in
  jobId = uuid h /\
  (exists job : Job,
     getJobStatus jobId s' = Some job /\
     id job = jobId /\ specification job = spec /\
     status job = pending /\ currentPhase job = "initializing" /\
     currentIteration job = 0 /\ maxIterations job = 5 /\
     logs job = [] /\ errors job = [] /\ error job = None /\
     startedAt job = now h /\ completedAt job = None /\ childProcess job = None /\
     modelUsed job = Some match options with
                          | Some {| model := Some m |} => m
                          | _ => selectedModel s
                          end) /\
  isPluginCreated (name spec) s' = true /\
  (forall k, k <> jobId -> getJobStatus k s' = getJobStatus k s) /\
  snd (createPlugin h spec apiKey options s)
    = [SetTimeout jobId (30 * 60 * 1000);
       RunCreationProcess jobId match options with
                                | Some {| useTemplate := Some b |} => b
                                | _ => true
                                end] /\
  anthropic s' = (if truthy apiKey then apiKey else anthropic s) /\
  selectedModel s' = selectedModel s.
Proof.
  intros Hret. cbv zeta.
  destruct (createPlugin_cases h spec apiKey options s)
    as [[_ E] | [[_ E] | [[_ E] | [(_ & _ & E) | [[_ E] | (_ & _ & _ & _ & job & E & H)]]]]];
    cbv zeta in E; try (rewrite E in Hret; discriminate Hret).
  cbv zeta in H. rewrite E in Hret. injection Hret as <-.
  destruct H as (Hjobs & Hnames & Hprov & Hmodel & _ & _ & _ & Heff & Hid & Hspec & Hst & Hph
                 & Hlogs & Herrs & Herr & Hstart & Hdone & Hit & Hmax & Hchild & Hused).
  split; [reflexivity |].
  split.
  { exists job. unfold getJobStatus. rewrite Hjobs, lookup_insert_eq. repeat split; assumption. }
  split.
  { unfold isPluginCreated. apply bool_decide_eq_true. rewrite Hnames.
    apply elem_of_union_l, elem_of_singleton. reflexivity. }
  split.
  { intros k Hne. unfold getJobStatus. rewrite Hjobs. apply lookup_insert_ne. congruence. }
  repeat split; assumption.
Qed.

(** ** Sequences of operations *)

Lemma createPlugin_names_grow (h : Host) (spec : PluginSpecification)
  (apiKey : option string) (options : option Options) (s : Service) :
  createdPlugins s ⊆ createdPlugins (snd (fst (createPlugin h spec apiKey options s))).
Proof.
  pose proof (checkRateLimit_jobs (now h) s) as (_ & Hp & _).
  destruct (createPlugin_cases h spec apiKey options s)
    as [[_ E] | [[_ E] | [[_ E] | [(_ & _ & E) | [[_ E] | (_ & _ & _ & _ & job & _ & _ & E & _)]]]]];
    cbv zeta in E; rewrite E; cbn [fst snd].
  - reflexivity.
  - reflexivity.
  - reflexivity.
  - rewrite Hp. reflexivity.
  - destruct (truthy apiKey); cbn; rewrite Hp; reflexivity.
  - apply union_subseteq_r.
Qed.

Lemma perform_names_grow (s : Service) (op : Operation) :
  createdPlugins s ⊆ createdPlugins (perform s op).
Proof.
  destruct op as [apiKey modelSetting dataDir | h spec apiKey options | t delivered jobId
                  | t jobId | t | t | m | jobId update]; cbn [perform].
  - rewrite (proj1 (proj2 (initialize_fields _ _ _ _))). reflexivity.
  - apply createPlugin_names_grow.
  - rewrite (proj1 (cancelJob_admission _ _ _ _)). reflexivity.
  - rewrite (proj1 (jobTimedOut_admission _ _ _)). reflexivity.
  - reflexivity.
  - reflexivity.
  - reflexivity.
  - reflexivity.
Qed.

Lemma performAll_names_grow (ops : list Operation) (s : Service) :
  createdPlugins s ⊆ createdPlugins (performAll ops s).
Proof.
  revert s. induction ops as [| op ops IH]; intros s; cbn [performAll fold_left].
  - reflexivity.
  - etransitivity; [apply perform_names_grow | apply IH].
Qed.

(** X7.  A plugin name is used up for the lifetime of the service: once
    [createPlugin] has accepted a name, then after any sequence of
    operations (cancelling the job, its timeout, the end of its background
    process, the retention sweep that drops the job, [stop], further
    creations) a request with that name is refused as a duplicate, with the
    service unchanged and nothing requested from the host. *)
Theorem accepted_name_is_refused_ever_after
  (h0 : Host) (spec0 : PluginSpecification) (key0 : option string) (options0 : option Options)
  (s : Service) (jobId : string) (ops : list Operation)
  (h : Host) (spec : PluginSpecification) (apiKey : option string)
  (options : option Options) :
  fst (fst (createPlugin h0 spec0 key0 options0 s)) = Returned jobId ->
  name spec = name spec0 ->
  let later := performAll ops (snd (fst (createPlugin h0 spec0 key0 options0 s))) in
  createPlugin h spec apiKey options later
    = (Threw (duplicateMessage (name spec)), later, []) /\
  isPluginCreated (name spec) later = true.
Proof.
  intros Hret Hname. cbv zeta.
  assert (Hin : name spec
                ∈ createdPlugins (performAll ops
                                    (snd (fst (createPlugin h0 spec0 key0 options0 s))))).
  { apply (performAll_names_grow ops). rewrite Hname.
    destruct (createPlugin_cases h0 spec0 key0 options0 s)
      as [[_ E] | [[_ E] | [[_ E] | [(_ & _ & E) | [[_ E] | (_ & _ & _ & _ & job & _ & _ & E & _)]]]]];
      cbv zeta in E; try (rewrite E in Hret; discriminate Hret).
    rewrite E. apply elem_of_union_l, elem_of_singleton. reflexivity. }
  split.
  - unfold createPlugin. rewrite bool_decide_eq_true_2 by exact Hin. reflexivity.
  - unfold isPluginCreated. apply bool_decide_eq_true_2. exact Hin.
Qed.

(** The bounds kept by every operation. *)
Lemma checkRateLimit_bounds (t : Z) (s : Service) :
  0 <= jobCreationCount s <= 10 ->
  0 <= jobCreationCount (snd (checkRateLimit t s)) <= 10.
Proof.
  intros Hb. unfold checkRateLimit.
  destruct (oneHour <? t - lastJobCreation s); cbn [jobCreationCount set_jobCreationCount].
  - cbn. lia.
  - destruct (10 <=? jobCreationCount s) eqn:E; cbn; [lia |].
    apply Z.leb_gt in E. lia.
Qed.

Lemma perform_bounds (s : Service) (op : Operation) :
  (size (jobs s) <= 10)%nat /\ 0 <= jobCreationCount s <= 10 ->
  (size (jobs (perform s op)) <= 10)%nat /\ 0 <= jobCreationCount (perform s op) <= 10.
Proof.
  intros [Hsz Hc].
  destruct op as [apiKey modelSetting dataDir | h spec apiKey options | t delivered jobId
                  | t jobId | t | t | m | jobId update]; cbn [perform].
  - pose proof (initialize_fields apiKey modelSetting dataDir s) as (-> & _ & -> & _). auto.
  - pose proof (checkRateLimit_bounds (now h) s Hc) as Hc1.
    pose proof (checkRateLimit_refused (now h) s) as Href.
    destruct (createPlugin_cases h spec apiKey options s)
      as [[_ E] | [[_ E] | [[_ E] | [(_ & _ & E) | [[_ E] |
           (_ & _ & _ & Hlt & job & _ & Ej & _ & _ & _ & _ & En & _)]]]]].
    + cbv zeta in E. rewrite E. auto.
    + cbv zeta in E. rewrite E. auto.
    + cbv zeta in E. rewrite E. auto.
    + cbv zeta in E. rewrite E. cbn [fst snd].
      rewrite (proj1 (checkRateLimit_jobs (now h) s)). auto.
    + cbv zeta in E. rewrite E. cbn [fst snd].
      destruct (truthy apiKey); cbn; rewrite (proj1 (checkRateLimit_jobs (now h) s)); auto.
    + cbv zeta in Ej, En. rewrite Ej, En. split; [| exact Hc1].
      pose proof (map_size_insert (uuid h) job (jobs s)) as Hins.
      destruct (jobs s !! uuid h); unfold Datatypes.id in Hins; lia.
  - rewrite cancelJob_size.
    rewrite (proj2 (cancelJob_admission _ _ _ _)). auto.
  - rewrite (proj2 (jobTimedOut_admission _ _ _)). split; [| exact Hc].
    unfold jobTimedOut. destruct (jobs s !! jobId) as [job |] eqn:Hk; [| exact Hsz].
    destruct (isActive (status job)); [| exact Hsz].
    rewrite logToJob_size. cbn [jobs set_jobs].
    rewrite map_size_insert_Some by (rewrite Hk; eauto). exact Hsz.
  - unfold stop. cbn [jobs set_jobs jobCreationCount]. rewrite map_size_fmap. auto.
  - split; [| exact Hc]. unfold cleanupOldJobs. cbn [fst jobs set_jobs].
    etransitivity; [apply map_subseteq_size, map_filter_subseteq | exact Hsz].
  - auto.
  - cbn [jobs set_jobs jobCreationCount]. rewrite size_alter. auto.
Qed.

(** X8.  Resource bounds of the service: from [start] on, whatever
    operations follow, at most ten jobs are tracked at any time (finished
    ones included, until the retention sweep drops them) and the limiter's
    counter stays between 0 and 10. *)
Theorem service_never_tracks_more_than_ten_jobs
  (apiKey modelSetting dataDir : option string) (ops : list Operation) :
  (size (jobs (performAll ops (start apiKey modelSetting dataDir))) <= 10)%nat /\
  0 <= jobCreationCount (performAll ops (start apiKey modelSetting dataDir)) <= 10.
Proof.
  assert (Hstart : (size (jobs (start apiKey modelSetting dataDir)) <= 10)%nat /\
                   0 <= jobCreationCount (start apiKey modelSetting dataDir) <= 10).
  { unfold start.
    pose proof (initialize_fields apiKey modelSetting dataDir (initialService dataDir))
      as (-> & _ & -> & _).
    cbn. rewrite map_size_empty. lia. }
  revert Hstart. generalize (start apiKey modelSetting dataDir).
  induction ops as [| op ops IH]; intros s Hs; cbn [performAll fold_left].
  - exact Hs.
  - apply IH, perform_bounds, Hs.
Qed.

(** ** Terminal statuses *)

Lemma cancelJob_active_stamps (t : Z) (delivered : bool) (jobId : string) (s : Service)
  (job : Job) :
  jobs s !! jobId = Some job -> isActive (status job) = true ->
  exists job' : Job,
    jobs (fst (cancelJob t delivered jobId s)) !! jobId = Some job' /\
    status job' = cancelled /\ completedAt job' = Some t.
Proof.
  intros Hj Ha. unfold cancelJob. rewrite Hj, Ha.
  unfold logToJob. cbn [jobs set_jobs]. rewrite lookup_insert_eq. cbn [jobs set_jobs].
  destruct (childProcess job) as [child |]; [destruct (killed child) |];
    cbn [negb fst jobs set_jobs]; rewrite ?lookup_alter_eq, !lookup_insert_eq;
    eexists; (split; [reflexivity |]); split; reflexivity.
Qed.

Lemma createPlugin_lookup_ne (h : Host) (spec : PluginSpecification)
  (apiKey : option string) (options : option Options) (s : Service) (k : string) :
  uuid h <> k ->
  jobs (snd (fst (createPlugin h spec apiKey options s))) !! k = jobs s !! k.
Proof.
  intros Hne.
  pose proof (checkRateLimit_jobs (now h) s) as (Hj & _).
  destruct (createPlugin_cases h spec apiKey options s)
    as [[_ E] | [[_ E] | [[_ E] | [(_ & _ & E) | [[_ E] | (_ & _ & _ & _ & job & _ & E & _)]]]]];
    cbv zeta in E; rewrite E; cbn [fst snd].
  - reflexivity.
  - reflexivity.
  - reflexivity.
  - rewrite Hj. reflexivity.
  - destruct (truthy apiKey); cbn [jobs set_anthropic]; rewrite Hj; reflexivity.
  - apply lookup_insert_ne. exact Hne.
Qed.

Lemma perform_settled (jobId : string) (s : Service) (op : Operation) :
  leavesJobAlone jobId op = true -> settledJob jobId s -> settledJob jobId (perform s op).
Proof.
  intros Hop Hs.
  destruct op as [apiKey modelSetting dataDir | h spec apiKey options | t delivered k
                  | t k | t | t | m | k update]; cbn [perform leavesJobAlone] in *.
  - intros job. rewrite (proj1 (initialize_fields _ _ _ _)). apply Hs.
  - intros job. rewrite createPlugin_lookup_ne; [apply Hs |].
    apply negb_true_iff, String.eqb_neq in Hop. exact Hop.
  - destruct (decide (k = jobId)) as [-> | Hne].
    + intros job. apply cancelJob_inactive.
    + intros job. rewrite cancelJob_lookup_ne by congruence. apply Hs.
  - destruct (decide (k = jobId)) as [-> | Hne].
    + intros job. apply jobTimedOut_inactive.
    + intros job. rewrite jobTimedOut_lookup_ne by congruence. apply Hs.
  - intros job. unfold stop. cbn [jobs set_jobs]. rewrite lookup_fmap.
    destruct (jobs s !! jobId) as [j |]; [| discriminate].
    intros [= <-]. apply stopJob_inactive.
  - intros job. rewrite cleanupOldJobs_lookup.
    destruct (jobs s !! jobId) as [j |] eqn:Hj; [| discriminate].
    destruct (isOld t j); [discriminate |]. intros [= <-]. apply (Hs j Hj).
  - exact Hs.
  - intros job. cbn [jobs set_jobs]. rewrite lookup_alter_ne; [apply Hs |].
    apply negb_true_iff, String.eqb_neq in Hop. exact Hop.
Qed.

Lemma performAll_settled (jobId : string) (ops : list Operation) (s : Service) :
  forallb (leavesJobAlone jobId) ops = true ->
  settledJob jobId s -> settledJob jobId (performAll ops s).
Proof.
  revert s. induction ops as [| op ops IH]; intros s Hops Hs; cbn [performAll fold_left];
    [exact Hs |].
  cbn [forallb] in Hops. apply andb_true_iff in Hops as [Hop Hops].
  apply IH; [exact Hops | apply perform_settled; assumption].
Qed.

(** X3.  A terminal status absorbs cancellation and the job timeout, as
    long as the background process of the job does not write to its record
    and no creation is given its identifier: whichever of [cancelJob], the
    timeout callback and [stop] reaches the job first decides its status,
    and after any such sequence of operations a [cancelJob] or a timeout
    callback for the job leaves the whole service unchanged and sends no
    signal.  The exception is real: the loop of the background process
    sets the status back to [running] without reading it, and a
    cancellation that comes after that stamps the job anew. *)
Theorem terminal_status_absorbs_cancel_and_timeout
  (t1 t2 : Z) (d1 d2 : bool) (jobId : string) (s : Service) (ops : list Operation) :
  forallb (leavesJobAlone jobId) ops = true ->
  (forall first : Service,
     In first [fst (cancelJob t1 d1 jobId s); jobTimedOut t1 jobId s; stop t1 s] ->
     cancelJob t2 d2 jobId (performAll ops first) = (performAll ops first, []) /\
     jobTimedOut t2 jobId (performAll ops first) = performAll ops first) /\
  (forall job : Job,
     jobs s !! jobId = Some job ->
     let revived := perform (fst (cancelJob t1 d1 jobId s))
                      (OpPipeline jobId (set_status running)) in
     exists job' : Job,
       jobs (fst (cancelJob t2 d2 jobId revived)) !! jobId = Some job' /\
       status job' = cancelled /\ completedAt job' = Some t2).
Proof.
  intros Hops. split.
  - intros first Hfirst.
    assert (Hsettled : settledJob jobId first).
    { destruct Hfirst as [<- | [<- | [<- | []]]]; intros job.
      - apply cancelJob_inactive.
      - apply jobTimedOut_inactive.
      - unfold stop. cbn [jobs set_jobs]. rewrite lookup_fmap.
        destruct (jobs s !! jobId) as [j |]; [| discriminate].
        intros [= <-]. apply stopJob_inactive. }
    pose proof (performAll_settled jobId ops first Hops Hsettled) as Hlater.
    split; [apply cancelJob_noop, Hlater | apply jobTimedOut_noop, Hlater].
  - intros job Hjob. cbv zeta. cbn [perform jobs set_jobs].
    assert (Htracked : exists j0, jobs (fst (cancelJob t1 d1 jobId s)) !! jobId = Some j0).
    { assert (Hsz : is_Some (jobs (fst (cancelJob t1 d1 jobId s)) !! jobId)).
      { unfold cancelJob. rewrite Hjob.
        destruct (isActive (status job)); cbn [fst]; [| rewrite Hjob; eauto].
        unfold logToJob. cbn [jobs set_jobs]. rewrite lookup_insert_eq. cbn [jobs set_jobs].
        destruct (childProcess job) as [child |]; [destruct (killed child) |];
          cbn [negb fst jobs set_jobs]; rewrite ?lookup_alter_eq, !lookup_insert_eq; cbn; eauto. }
      destruct Hsz as [j0 Hj0]. exists j0. exact Hj0. }
    destruct Htracked as [j0 Hj0].
    set (revived := set_jobs (alter (set_status running) jobId
                                (jobs (fst (cancelJob t1 d1 jobId s))))
                      (fst (cancelJob t1 d1 jobId s))).
    assert (Hrev : jobs revived !! jobId = Some (set_status running j0)).
    { unfold revived. cbn [jobs set_jobs]. rewrite lookup_alter_eq, Hj0. reflexivity. }
    exact (cancelJob_active_stamps t2 d2 jobId revived (set_status running j0) Hrev eq_refl).
Qed.

(** X9.  Model preference at start-up: [initialize] selects a model
    exactly when the setting is one of the two model identifiers; any other
    setting, or none, keeps the model selected before, which is Opus 3 for
    a fresh service; the provider is configured when the API key setting is
    non-empty; the data directory is from then on the one of the runtime
    given; jobs and registered names are not touched. *)
Theorem initialize_selects_known_model_only
  (apiKey modelSetting dataDir : option string) (s : Service) :
  (forall m : ClaudeModel,
     selectedModel (initialize apiKey (Some (modelId m)) dataDir s) = m) /\
  ((forall m : ClaudeModel, modelSetting <> Some (modelId m)) ->
   selectedModel (initialize apiKey modelSetting dataDir s) = selectedModel s) /\
  ((forall m : ClaudeModel, modelSetting <> Some (modelId m)) ->
   selectedModel (start apiKey modelSetting dataDir) = OPUS_3) /\
  anthropic (initialize apiKey modelSetting dataDir s)
    = (if truthy apiKey then apiKey else anthropic s) /\
  dataDirSetting (initialize apiKey modelSetting dataDir s) = dataDir /\
  jobs (initialize apiKey modelSetting dataDir s) = jobs s /\
  createdPlugins (initialize apiKey modelSetting dataDir s) = createdPlugins s.
Proof.
  assert (Hother : forall s0, (forall m : ClaudeModel, modelSetting <> Some (modelId m)) ->
                     selectedModel (initialize apiKey modelSetting dataDir s0) = selectedModel s0).
  { intros s0 Hno. unfold initialize. destruct (truthy modelSetting).
    - destruct (find _ claudeModels) as [m |] eqn:Hf.
      + apply find_some in Hf as [_ Hm]. apply bool_decide_eq_true in Hm.
        exfalso. apply (Hno m). symmetry. exact Hm.
      + destruct (truthy apiKey); reflexivity.
    - destruct (truthy apiKey); reflexivity. }
  split.
  { intros m. unfold initialize. destruct m; destruct (truthy apiKey); reflexivity. }
  split; [apply Hother |].
  split; [intros Hno; unfold start; rewrite Hother by exact Hno; reflexivity |].
  pose proof (initialize_fields apiKey modelSetting dataDir s) as (Hj & Hp & _ & _ & Hd & Ha).
  auto.
Qed.

(** ** Postconditions of pipeline steps *)

Lemma wp_ret {A : Type} (a : A) (Q : Completion A -> Job -> Prop) (job : Job) :
  Q (Returned a) job -> wp (ret a) Q job.
Proof. intros H. exact H. Qed.

Lemma wp_throw {A : Type} (message : string) (Q : Completion A -> Job -> Prop) (job : Job) :
  Q (Threw message) job -> wp (throw message) Q job.
Proof. intros H. exact H. Qed.

Lemma wp_await {A : Type} (reply : Completion A) (Q : Completion A -> Job -> Prop) (job : Job) :
  Q reply job -> wp (await reply) Q job.
Proof. intros H. exact H. Qed.

Lemma wp_getJob (Q : Completion Job -> Job -> Prop) (job : Job) :
  Q (Returned job) job -> wp getJob Q job.
Proof. intros H. exact H. Qed.

Lemma wp_modify (f : Job -> Job) (Q : Completion unit -> Job -> Prop) (job : Job) :
  Q (Returned tt) (f job) -> wp (modify f) Q job.
Proof. intros H. exact H. Qed.

Lemma wp_logM (t : Z) (message : string) (Q : Completion unit -> Job -> Prop) (job : Job) :
  Q (Returned tt) (pushLog t message job) -> wp (logM t message) Q job.
Proof. intros H. exact H. Qed.

Lemma wp_call (c : Call) (Q : Completion unit -> Job -> Prop) (job : Job) :
  Q (Returned tt) job -> wp (call c) Q job.
Proof. intros H. exact H. Qed.

Lemma wp_bind {A B : Type} (m : M A) (k : A -> M B) (Q : Completion B -> Job -> Prop)
  (job : Job) :
  wp m (fun c j => match c with
                   | Returned a => wp (k a) Q j
                   | Threw message => Q (Threw message) j
                   | Awaiting => Q Awaiting j
                   end) job ->
  wp (m ≫= k) Q job.
Proof.
  unfold wp, mbind, M_bind, bind.
  destruct (m job) as [[[a | message |] job1] calls1]; cbn [fst snd]; try (intros H; exact H).
  destruct (k a job1) as [[r job2] calls2]. intros H. exact H.
Qed.

Lemma wp_tryCatch {A : Type} (m : M A) (handler : string -> M A)
  (Q : Completion A -> Job -> Prop) (job : Job) :
  wp m (fun c j => match c with
                   | Threw message => wp (handler message) Q j
                   | _ => Q c j
                   end) job ->
  wp (tryCatch m handler) Q job.
Proof.
  unfold wp, tryCatch.
  destruct (m job) as [[[a | message |] job1] calls1]; cbn [fst snd]; try (intros H; exact H).
  destruct (handler message job1) as [[r job2] calls2]. intros H. exact H.
Qed.

Lemma wp_mono {A : Type} (m : M A) (Q Q' : Completion A -> Job -> Prop) (job : Job) :
  wp m Q job -> (forall c j, Q c j -> Q' c j) -> wp m Q' job.
Proof. intros H HQ. apply HQ, H. Qed.

(** ** The four command and validation phases *)

Lemma tryCatch_never_throws {A : Type} (m : M A) (handler : string -> M A) (job : Job) :
  (forall message j, threw (fst (fst (handler message j))) = false) ->
  threw (fst (fst (tryCatch m handler job))) = false.
Proof.
  intros Hh. unfold tryCatch.
  destruct (m job) as [[[a | message |] job1] calls1]; cbn [fst snd]; try reflexivity.
  specialize (Hh message job1). destruct (handler message job1) as [[r job2] calls2]. exact Hh.
Qed.

Lemma runCommand_kept (w : CommandWorld) (command : string) (args : list string)
  (description : string) :
  respects (phaseFrame anyCall) (runCommand w command args description).
Proof. apply runCommand_respects; reflexivity. Qed.

Ltac kept_step :=
  lazymatch goal with
  | |- respects _ (ret _) => apply (respects_ret _ (phaseFrame_refl anyCall))
  | |- respects _ (throw _) => apply (respects_throw _ (phaseFrame_refl anyCall))
  | |- respects _ (await _) => apply (respects_await _ (phaseFrame_refl anyCall))
  | |- respects _ getJob => apply (respects_getJob _ (phaseFrame_refl anyCall))
  | |- respects _ (runCommand _ _ _ _) => apply runCommand_kept
  | |- respects _ (modify _) =>
      apply (respects_modify _); intros; split; [repeat split | reflexivity]
  | |- respects _ (call _) =>
      apply (respects_call _); intros; split; [repeat split | reflexivity]
  | |- respects _ (_ ≫= _) => apply (respects_bind _ (phaseFrame_trans anyCall)); [| intros ?]
  | |- respects _ (tryCatch _ _) =>
      apply (respects_tryCatch _ (phaseFrame_trans anyCall)); [| intros ?]
  | |- respects _ (if ?b then _ else _) => destruct b
  | |- respects _ (match ?x with _ => _ end) => destruct x
  end.

Lemma buildPlugin_kept (w : RoundWorld) : respects (phaseFrame anyCall) (buildPlugin w).
Proof. unfold buildPlugin. repeat kept_step. Qed.

Lemma lintPlugin_kept (w : RoundWorld) : respects (phaseFrame anyCall) (lintPlugin w).
Proof. unfold lintPlugin. repeat kept_step. Qed.

Lemma testPlugin_kept (w : RoundWorld) : respects (phaseFrame anyCall) (testPlugin w).
Proof. unfold testPlugin. repeat kept_step. Qed.

Lemma validatePlugin_kept (anthropic : option string) (w : RoundWorld) :
  respects (phaseFrame anyCall) (validatePlugin anthropic w).
Proof. unfold validatePlugin. repeat kept_step. Qed.

Lemma phase_handler_returns (message : string) (j : Job) :
  threw (fst (fst ((modify (set_error (Some message)) ;; ret false) j))) = false.
Proof. reflexivity. Qed.

Ltac wp_step :=
  lazymatch goal with
  | |- wp (ret _) _ _ => apply wp_ret
  | |- wp (throw _) _ _ => apply wp_throw
  | |- wp (await _) _ _ => apply wp_await
  | |- wp getJob _ _ => apply wp_getJob
  | |- wp (modify _) _ _ => apply wp_modify
  | |- wp (logM _ _) _ _ => apply wp_logM
  | |- wp (call _) _ _ => apply wp_call
  | |- wp (_ ≫= _) _ _ => apply wp_bind
  | |- wp (tryCatch _ _) _ _ => apply wp_tryCatch
  end.

(** Run a step about which nothing needs to be known. *)
Ltac wp_run :=
  lazymatch goal with
  | |- wp ?m _ ?j =>
      unfold wp at 1; destruct (m j) as [[[? | ? |] ?] ?]; cbn [fst snd]
  end.

Lemma buildPlugin_false_sets_error (w : RoundWorld) (job : Job) :
  wp (buildPlugin w) (fun c j => c = Returned false -> is_Some (error j)) job.
Proof.
  unfold buildPlugin. wp_step. wp_step. wp_run.
  - wp_step. wp_run.
    + destruct (negb (success _)); repeat wp_step; cbn; eauto. discriminate.
    + repeat wp_step. cbn. eauto.
    + discriminate.
  - repeat wp_step. cbn. eauto.
  - discriminate.
Qed.

Lemma lintPlugin_false_sets_error (w : RoundWorld) (job : Job) :
  wp (lintPlugin w) (fun c j => c = Returned false -> is_Some (error j)) job.
Proof.
  unfold lintPlugin. wp_step. wp_step. wp_run.
  - destruct (negb (success _)); repeat wp_step; cbn; eauto. discriminate.
  - repeat wp_step. cbn. eauto.
  - discriminate.
Qed.

Lemma testPlugin_false_sets_error (w : RoundWorld) (job : Job) :
  wp (testPlugin w) (fun c j => c = Returned false -> is_Some (error j)) job.
Proof.
  unfold testPlugin. wp_step. wp_step. wp_run.
  - wp_step. wp_step.
    destruct (negb (success _) || _); repeat wp_step; cbn; eauto. discriminate.
  - repeat wp_step. cbn. eauto.
  - discriminate.
Qed.

Lemma validatePlugin_false_sets_error (anthropic : option string) (w : RoundWorld) (job : Job) :
  wp (validatePlugin anthropic w) (fun c j => c = Returned false -> is_Some (error j)) job.
Proof.
  unfold validatePlugin. destruct (negb (configured anthropic)).
  - wp_step. discriminate.
  - wp_step. wp_step. wp_step. wp_step. wp_run.
    + wp_step. wp_step.
      destruct (negb (production_ready _)); [destruct (issues _) |];
        repeat (wp_step; cbv beta iota); cbn; eauto. discriminate.
    + repeat wp_step. cbn. eauto.
    + discriminate.
Qed.

(** X10.  The build, lint, test and validation phases never throw: a
    failure of theirs is a [false] result with [job.error] set.  None of
    them touches the error ledger, the iteration counters, the status, the
    completion time or the phase label of the job.  (So inside a round only
    code generation can raise.) *)
Theorem command_phases_never_throw (anthropic : option string) (w : RoundWorld) (job : Job) :
  Forall (fun phaseRun : M bool =>
            threw (fst (fst (phaseRun job))) = false /\
            ledgerKept job (snd (fst (phaseRun job))) /\
            (fst (fst (phaseRun job)) = Returned false ->
             is_Some (error (snd (fst (phaseRun job))))))
    [buildPlugin w; lintPlugin w; testPlugin w; validatePlugin anthropic w].
Proof.
  constructor; [refine (conj _ (conj _ _)) |].
  { apply tryCatch_never_throws, phase_handler_returns. }
  { apply (buildPlugin_kept w job). }
  { apply (buildPlugin_false_sets_error w job). }
  constructor; [refine (conj _ (conj _ _)) |].
  { apply tryCatch_never_throws, phase_handler_returns. }
  { apply (lintPlugin_kept w job). }
  { apply (lintPlugin_false_sets_error w job). }
  constructor; [refine (conj _ (conj _ _)) |].
  { apply tryCatch_never_throws, phase_handler_returns. }
  { apply (testPlugin_kept w job). }
  { apply (testPlugin_false_sets_error w job). }
  constructor; [refine (conj _ (conj _ _)) | constructor].
  { unfold validatePlugin. destruct (negb (configured anthropic)); [reflexivity |].
    apply tryCatch_never_throws, phase_handler_returns. }
  { apply (validatePlugin_kept anthropic w job). }
  { apply (validatePlugin_false_sets_error anthropic w job). }
Qed.

(** ** No step clears the error message *)

Lemma errorSticky_refl (job : Job) : errorSticky job job [].
Proof. intros H. exact H. Qed.

Lemma errorSticky_trans (j1 j2 j3 : Job) (c1 c2 : list Call) :
  errorSticky j1 j2 c1 -> errorSticky j2 j3 c2 -> errorSticky j1 j3 (c1 ++ c2).
Proof. intros H1 H2 H. apply H2, H1, H. Qed.

Ltac sticky_step :=
  lazymatch goal with
  | |- respects _ (ret _) => apply (respects_ret _ errorSticky_refl)
  | |- respects _ (throw _) => apply (respects_throw _ errorSticky_refl)
  | |- respects _ (await _) => apply (respects_await _ errorSticky_refl)
  | |- respects _ getJob => apply (respects_getJob _ errorSticky_refl)
  | |- respects _ (modify (set_error (Some _))) =>
      apply (respects_modify _); intros ? _; cbn; eauto
  | |- respects _ (modify _) => apply (respects_modify _); intros ? H; exact H
  | |- respects _ (logM _ _) => apply (respects_modify _); intros ? H; exact H
  | |- respects _ (logAll _ _) =>
      apply (respects_logAll _ errorSticky_refl errorSticky_trans); intros ? ? H; exact H
  | |- respects _ (call _) => apply (respects_call _); intros ? H; exact H
  | |- respects _ (callAll _) =>
      apply (respects_callAll _ errorSticky_refl errorSticky_trans); intros ? ? _ H; exact H
  | |- respects _ (_ ≫= _) => apply (respects_bind _ errorSticky_trans); [| intros ?]
  | |- respects _ (tryCatch _ _) => apply (respects_tryCatch _ errorSticky_trans); [| intros ?]
  | |- respects _ (if ?b then _ else _) => destruct b
  | |- respects _ (match ?x with _ => _ end) => destruct x
  end.

Lemma runCommand_sticky (w : CommandWorld) (command : string) (args : list string)
  (description : string) : respects errorSticky (runCommand w command args description).
Proof.
  unfold runCommand. sticky_step; [sticky_step |]. sticky_step; [sticky_step |].
  destruct (resolveTool (which w) command args) as [[actualCommand actualArgs] pmLogs].
  repeat sticky_step.
Qed.

Lemma buildPlugin_sticky (w : RoundWorld) : respects errorSticky (buildPlugin w).
Proof.
  unfold buildPlugin. sticky_step.
  - sticky_step; [apply runCommand_sticky |]. sticky_step; [apply runCommand_sticky |].
    repeat sticky_step.
  - repeat sticky_step.
Qed.

Lemma lintPlugin_sticky (w : RoundWorld) : respects errorSticky (lintPlugin w).
Proof.
  unfold lintPlugin. sticky_step.
  - sticky_step; [apply runCommand_sticky |]. repeat sticky_step.
  - repeat sticky_step.
Qed.

Lemma testPlugin_sticky (w : RoundWorld) : respects errorSticky (testPlugin w).
Proof.
  unfold testPlugin. sticky_step.
  - sticky_step; [apply runCommand_sticky |]. repeat sticky_step.
  - repeat sticky_step.
Qed.

Lemma validatePlugin_sticky (anthropic : option string) (w : RoundWorld) :
  respects errorSticky (validatePlugin anthropic w).
Proof. unfold validatePlugin. repeat sticky_step. Qed.

Lemma wp_buildPlugin (w : RoundWorld) (Q : Completion bool -> Job -> Prop) (job : Job) :
  (forall c j, phaseDone job c j -> Q c j) -> wp (buildPlugin w) Q job.
Proof.
  intros HQ. apply HQ. refine (conj _ (conj _ (conj _ _))).
  - apply tryCatch_never_throws, phase_handler_returns.
  - apply (buildPlugin_kept w job).
  - apply (buildPlugin_false_sets_error w job).
  - apply (buildPlugin_sticky w job).
Qed.

Lemma wp_lintPlugin (w : RoundWorld) (Q : Completion bool -> Job -> Prop) (job : Job) :
  (forall c j, phaseDone job c j -> Q c j) -> wp (lintPlugin w) Q job.
Proof.
  intros HQ. apply HQ. refine (conj _ (conj _ (conj _ _))).
  - apply tryCatch_never_throws, phase_handler_returns.
  - apply (lintPlugin_kept w job).
  - apply (lintPlugin_false_sets_error w job).
  - apply (lintPlugin_sticky w job).
Qed.

Lemma wp_testPlugin (w : RoundWorld) (Q : Completion bool -> Job -> Prop) (job : Job) :
  (forall c j, phaseDone job c j -> Q c j) -> wp (testPlugin w) Q job.
Proof.
  intros HQ. apply HQ. refine (conj _ (conj _ (conj _ _))).
  - apply tryCatch_never_throws, phase_handler_returns.
  - apply (testPlugin_kept w job).
  - apply (testPlugin_false_sets_error w job).
  - apply (testPlugin_sticky w job).
Qed.

Lemma wp_validatePlugin (anthropic : option string) (w : RoundWorld)
  (Q : Completion bool -> Job -> Prop) (job : Job) :
  (forall c j, phaseDone job c j -> Q c j) -> wp (validatePlugin anthropic w) Q job.
Proof.
  intros HQ. apply HQ. refine (conj _ (conj _ (conj _ _))).
  - unfold validatePlugin. destruct (negb (configured anthropic)); [reflexivity |].
    apply tryCatch_never_throws, phase_handler_returns.
  - apply (validatePlugin_kept anthropic w job).
  - apply (validatePlugin_false_sets_error anthropic w job).
  - apply (validatePlugin_sticky anthropic w job).
Qed.

(** ** One round *)

Ltac wp_go := repeat (wp_step; cbv beta iota).

Ltac kept_facts :=
  repeat match goal with
         | H : phaseDone _ _ _ |- _ =>
             let Ht := fresh "Ht" in let Hk := fresh "Hk" in
             let Hf := fresh "Hf" in let Hy := fresh "Hy" in
             destruct H as (Ht & Hk & Hf & Hy);
             cbn [error set_currentPhase] in Hf, Hy
         | H : ledgerKept _ _ |- _ =>
             let He := fresh "He" in let Hi := fresh "Hi" in let Hm := fresh "Hm" in
             let Hs := fresh "Hs" in let Hc := fresh "Hc" in let Hp := fresh "Hp" in
             destruct H as (He & Hi & Hm & Hs & Hc & Hp);
             cbn [errors currentIteration maxIterations status completedAt currentPhase
                  set_currentPhase] in He, Hi, Hm, Hs, Hc, Hp
         end.

Ltac phase_failed :=
  match goal with
  | H : Returned false = Returned false -> is_Some (error ?j) |- is_Some (error ?j) =>
      exact (H eq_refl)
  end.

Lemma errorOr_carries (fallback : string) (j j' : Job) (e : JobError) :
  In fallback fallbackTexts -> is_Some (error j) -> error j' = error j ->
  errorText e = errorOr fallback j -> carriesError e j'.
Proof.
  intros Hfb [x Hx] Hsame Htext. unfold carriesError, errorOr in *.
  rewrite Hsame, Htext, Hx.
  destruct (String.eqb_spec x "") as [-> | Hne]; [right | left]; auto.
Qed.

Lemma runSingleIteration_outcome (anthropic : option string) (w : RoundWorld) (job : Job) :
  wp (runSingleIteration anthropic w) (roundOutcome w job) job.
Proof.
  assert (Hcatch : forall message j,
            errors j = errors job -> currentIteration j = currentIteration job ->
            maxIterations j = maxIterations job -> status j = status job ->
            currentPhase j = "generating" ->
            wp (modify (set_error (Some message)) ;;
                modify (set_completedAt (Some (failureClock w))) ;;
                modify (fun job0 =>
                          set_errors (errors job0 ++
                                      [{| iteration := currentIteration job0;
                                          phase := currentPhase job0;
                                          errorText := message;
                                          timestamp := failureClock w |}]) job0) ;;
                logM (failureClock w) ("Error in iteration: " +:+ message) ;;
                ret false)
              (roundOutcome w job) j).
  { intros message j He Hi Hm Hs Hp. wp_go. unfold roundOutcome. cbn. rewrite He, Hi, Hp.
    repeat split; try assumption; eauto.
    eexists. split; [reflexivity |]. cbn.
    split; [reflexivity |]. split; [reflexivity |]. split; [auto |]. split; [reflexivity |].
    split; [intros Hne; contradiction Hne; reflexivity | left; reflexivity]. }
  unfold runSingleIteration. wp_step. wp_step. wp_step. cbv beta iota.
  wp_step. unfold wp at 1. rewrite generatePluginCode_run.
  destruct (configured anthropic); cbn [fst snd];
    [destruct (generateReply w) as [[] | message |] |]; cbv beta iota.
  - (* generation returned *)
    wp_step. wp_step. cbv beta iota. wp_step. apply wp_buildPlugin.
    intros [[|] | message |] jb Hb; cbn [negb]; cbv beta iota;
      try (destruct Hb as [Hb _]; discriminate Hb).
    + (* build passed *)
      wp_step. wp_step. cbv beta iota. wp_step. apply wp_lintPlugin.
      intros [[|] | message |] jl Hl; cbn [negb]; cbv beta iota;
        try (destruct Hl as [Hl _]; discriminate Hl).
      * (* lint passed *)
        wp_step. wp_step. cbv beta iota. wp_step. apply wp_testPlugin.
        intros [[|] | message |] jt Ht; cbn [negb]; cbv beta iota;
          try (destruct Ht as [Ht _]; discriminate Ht).
        -- (* tests passed *)
           wp_step. wp_step. cbv beta iota. wp_step. apply wp_validatePlugin.
           intros [[|] | message |] jv Hv; cbn [negb]; cbv beta iota;
             try (destruct Hv as [Hv _]; discriminate Hv).
           ++ wp_go. kept_facts. unfold roundOutcome. repeat split; try congruence. tauto.
           ++ unfold pushPhaseError. wp_go. kept_facts. unfold roundOutcome. cbn.
              repeat split; try congruence; try tauto.
              eexists. split; [f_equal; congruence |]. cbn.
              split; [congruence |]. split; [congruence |].
              split; [right; right; right; right; left; reflexivity |].
              split; [reflexivity |]. split; [intros _; congruence |].
              apply (errorOr_carries "Validation failed" jv); [cbn; auto 6 | phase_failed | reflexivity..].
           ++ kept_facts. unfold roundOutcome. repeat split; try congruence. tauto.
        -- unfold pushPhaseError. wp_go. kept_facts. unfold roundOutcome. cbn.
           repeat split; try congruence; try tauto.
           eexists. split; [f_equal; congruence |]. cbn.
           split; [congruence |]. split; [congruence |].
           split; [right; right; right; left; reflexivity |].
           split; [reflexivity |]. split; [intros _; congruence |].
           apply (errorOr_carries "Tests failed" jt); [cbn; auto 6 | phase_failed | reflexivity..].
        -- kept_facts. unfold roundOutcome. repeat split; try congruence. tauto.
      * unfold pushPhaseError. wp_go. kept_facts. unfold roundOutcome. cbn.
        repeat split; try congruence; try tauto.
        eexists. split; [f_equal; congruence |]. cbn.
        split; [congruence |]. split; [congruence |].
        split; [right; right; left; reflexivity |].
        split; [reflexivity |]. split; [intros _; congruence |].
        apply (errorOr_carries "Lint failed" jl); [cbn; auto 6 | phase_failed | reflexivity..].
      * kept_facts. unfold roundOutcome. repeat split; try congruence. tauto.
    + unfold pushPhaseError. wp_go. kept_facts. unfold roundOutcome. cbn.
      repeat split; try congruence; try tauto.
      eexists. split; [f_equal; congruence |]. cbn.
      split; [congruence |]. split; [congruence |].
      split; [right; left; reflexivity |].
      split; [reflexivity |]. split; [intros _; congruence |].
      apply (errorOr_carries "Build failed" jb); [cbn; auto 6 | phase_failed | reflexivity..].
    + kept_facts. unfold roundOutcome. repeat split; try congruence. tauto.
  - apply Hcatch; reflexivity.
  - unfold roundOutcome. repeat split. intros H; exact H.
  - apply Hcatch; reflexivity.
Qed.

(** X11.  Ledger accounting of a round.  For every provider setting, job
    and behaviour of the host, a round never throws and never changes the
    status or the iteration counters of the job.  If it returns [true] the
    ledger is as before; if it returns [false] exactly one record was
    appended, carrying the current iteration number, the phase label the
    job is left with (one of the five phases) and the time of the failure,
    and [job.error] is set; while the round is still waiting nothing was
    appended.  The completion time is touched only by a failure in the
    generate phase. *)
Theorem round_appends_one_record_per_failure
  (anthropic : option string) (w : RoundWorld) (job : Job) :
  let job' := snd (fst (runSingleIteration anthropic w job)) in
  currentIteration job' = currentIteration job /\
  maxIterations job' = maxIterations job /\
  status job' = status job /\
  match fst (fst (runSingleIteration anthropic w job)) with
  | Returned true =>
      errors job' = errors job /\ completedAt job' = completedAt job /\
      currentPhase job' = "validating"
  | Returned false =>
      is_Some (error job') /\
      exists e : JobError,
        errors job' = errors job ++ [e] /\
        iteration e = currentIteration job /\
        phase e = currentPhase job' /\ In (phase e) phaseNames /\
        timestamp e = failureClock w /\
        (phase e <> "generating" -> completedAt job' = completedAt job)
  | Threw _ => False
  | Awaiting => errors job' = errors job /\ completedAt job' = completedAt job
  end.
Proof.
  pose proof (runSingleIteration_outcome anthropic w job) as H.
  unfold wp, roundOutcome in H. cbv zeta.
  destruct H as (Hi & Hm & Hs & _ & H).
  split; [exact Hi |]. split; [exact Hm |]. split; [exact Hs |].
  destruct (fst (fst (runSingleIteration anthropic w job))) as [[|] | message |];
    [exact H | | exact H | exact H].
  destruct H as (Herr & e & He & Hie & Hp & Hin & Ht & Hc & _).
  split; [exact Herr |]. exists e. auto 7.
Qed.

(** ** The creation loop *)

Lemma creationLoop_outcome (anthropic : option string) (pw : ProcessWorld) (fuel : nat) :
  forall (success : bool) (job : Job),
  wp (creationLoop fuel anthropic pw success) (loopOutcome fuel success job) job.
Proof.
  assert (Hexit : forall n success job,
            (currentIteration job <? maxIterations job) && negb success = false ->
            loopOutcome n success job (Returned (Some success)) job).
  { intros n success job Hcond. unfold loopOutcome.
    split; [reflexivity |]. split; [lia |]. split; [lia |]. split; [auto |].
    exists []. rewrite app_nil_r. split; [reflexivity |].
    split; [cbn; lia |]. split.
    - apply andb_false_iff in Hcond as [Hlt | Hs].
      + right. apply Z.ltb_ge in Hlt. exact Hlt.
      + left. destruct success; [reflexivity | discriminate Hs].
    - intros ->. split; [reflexivity |]. right. reflexivity. }
  induction fuel as [| fuel IH]; intros success job; cbn [creationLoop];
    wp_step; wp_step; cbv beta iota;
    destruct ((currentIteration job <? maxIterations job) && negb success) eqn:Hcond.
  - apply andb_true_iff in Hcond as [Hlt Hs]. apply Z.ltb_lt in Hlt.
    wp_step. unfold loopOutcome. split; [reflexivity |]. split; [lia |]. split; [lia |].
    split; [auto |]. exists []. rewrite app_nil_r. split; [reflexivity |]. lia.
  - wp_step. apply Hexit, Hcond.
  - apply andb_true_iff in Hcond as [Hlt Hs]. apply Z.ltb_lt in Hlt.
    assert (success = false) as -> by (destruct success; [discriminate Hs | reflexivity]).
    wp_step. wp_step. cbv beta iota. wp_step. wp_step. cbv beta iota.
    wp_step. wp_step. cbv beta iota. wp_step. wp_step. cbv beta iota.
    wp_step. wp_step. cbv beta iota. wp_step.
    eapply wp_mono; [apply runSingleIteration_outcome |].
    unfold roundOutcome.
    cbn [currentIteration maxIterations errors status error set_currentIteration
         set_currentPhase set_progress pushLog set_logs].
    intros c jr (Hi & Hm & _ & Hy & Hc).
    destruct c as [success' | message |]; [| contradiction Hc |].
    + (* the round returned *)
      wp_step. wp_step. cbv beta iota. wp_step.
      assert (Hrec : exists rec : list JobError,
                errors jr = errors job ++ rec /\
                Z.of_nat (List.length rec) + oneIf success' = 1 /\
                (success' = false -> lastRecordCarriesError jr)).
      { destruct success'.
        - destruct Hc as (He & _). exists []. rewrite app_nil_r.
          split; [exact He |]. split; [reflexivity | discriminate].
        - destruct Hc as (_ & e & He & Hie & _ & _ & _ & _ & Hcar). exists [e].
          split; [exact He |]. split; [reflexivity |]. intros _.
          exists e. split; [rewrite He; apply last_snoc |]. split; [congruence | exact Hcar]. }
      destruct Hrec as (rec & Hrec & Hlen & Herr).
      assert (Hrest : forall j, errors j = errors jr -> currentIteration j = currentIteration jr ->
                maxIterations j = maxIterations jr -> error j = error jr ->
                wp (creationLoop fuel anthropic pw success') (loopOutcome (S fuel) false job) j).
      { intros j Hje Hji Hjm Hjy. eapply wp_mono; [apply IH |].
        intros c j' (Hm' & Hlo & Hhi & Hy' & added & He' & Hc').
        rewrite Hje, Hrec, <- app_assoc in He'. rewrite Hji, Hi in Hlo, Hhi.
        rewrite Hjm, Hm in Hm', Hhi. rewrite Hjy in Hy'.
        unfold loopOutcome.
        split; [exact Hm' |]. split; [lia |]. split; [lia |]. split; [tauto |].
        exists (rec ++ added). split; [exact He' |].
        rewrite length_app, Nat2Z.inj_add.
        destruct c as [[s |] | message |]; rewrite ?Hji, ?Hi, ?Hjm, ?Hm in Hc'; cbn [oneIf] in *.
        - destruct Hc' as (Hn & Hx & Hf). split; [lia |]. split; [exact Hx |].
          intros Hsf. split; [reflexivity |]. left.
          destruct (Hf Hsf) as [-> [Hlast | ->]]; [exact Hlast |].
          destruct (Herr eq_refl) as (e & Hlast & Hit & Hcar).
          exists e. rewrite Hje, Hji. split; [exact Hlast |]. split; [exact Hit |].
          unfold carriesError in *. rewrite Hjy. exact Hcar.
        - lia.
        - destruct Hc' as [Hn ->]. cbn [oneIf] in Hlen. split; [lia | reflexivity].
        - exact I. }
      destruct (negb success' && (currentIteration jr <? maxIterations jr)) eqn:Hprep.
      * wp_step. wp_step. cbv beta iota. unfold prepareNextIteration.
        wp_step. wp_step. cbv beta iota. wp_step.
        apply andb_true_iff in Hprep as [Hs' _].
        assert (success' = false) as -> by (destruct success'; [discriminate Hs' | reflexivity]).
        destruct (prepareReply _) as [[] | message |]; cbv beta iota.
        -- apply Hrest; reflexivity.
        -- unfold loopOutcome. cbn [status set_status maxIterations currentIteration errors error].
           split; [exact Hm |]. split; [lia |]. split; [lia |]. split; [exact Hy |].
           exists rec. split; [exact Hrec |]. cbn [oneIf] in Hlen. split; [lia | reflexivity].
        -- unfold loopOutcome. cbn [status set_status maxIterations currentIteration errors error].
           split; [exact Hm |]. split; [lia |]. split; [lia |]. split; [exact Hy |].
           exists rec. split; [exact Hrec | exact I].
      * wp_step. cbv beta iota. apply Hrest; reflexivity.
    + (* the round is waiting *)
      unfold loopOutcome. rewrite Hi, Hm. split; [reflexivity |]. split; [lia |]. split; [lia |].
      split; [exact Hy |].
      exists []. rewrite app_nil_r. split; [apply Hc | exact I].
  - wp_step. apply Hexit, Hcond.
Qed.

(** ** The background process as a whole *)

Lemma runCreationProcess_outcome (anthropic : option string) (pw : ProcessWorld)
  (useTemplate : bool) (job : Job) :
  wp (runCreationProcess anthropic pw useTemplate) (processOutcome pw job) job.
Proof.
  assert (Hcatch : forall e j added,
            maxIterations j = maxIterations job ->
            currentIteration job <= currentIteration j ->
            currentIteration j <= Z.max (currentIteration job) (maxIterations job) ->
            errors j = errors job ++ added ->
            Z.of_nat (List.length added) = currentIteration j - currentIteration job ->
            wp (modify (set_status failed) ;;
                modify (set_error (Some e)) ;;
                modify (set_completedAt (Some (finishClock pw))) ;;
                logM (finishClock pw) ("Unexpected error: " +:+ e))
              (processOutcome pw job) j).
  { intros e j added Hm Hlo Hhi He Hn. wp_go. unfold processOutcome.
    cbn [maxIterations currentIteration errors completedAt logs status error pushLog set_logs
         set_completedAt set_error set_status].
    split; [exact Hm |]. split; [exact Hlo |]. split; [exact Hhi |]. split; [eauto |].
    exists added. split; [exact He |]. split; [reflexivity |].
    eexists. split; [apply last_snoc |].
    right. right. split; [reflexivity |]. split; [exact Hn |]. exists e. split; reflexivity. }
  unfold runCreationProcess. wp_step. wp_step.
  (* setup *)
  unfold setupPluginWorkspace. wp_step. wp_step. cbv beta iota. wp_step.
  assert (Hsetup : forall Q : Completion unit -> Job -> Prop,
            (forall j, errors j = errors job -> currentIteration j = currentIteration job ->
                       maxIterations j = maxIterations job -> error j = error job ->
                       Q (Returned tt) j) ->
            wp (if useTemplate
                then if templateFound pw
                     then logM (setupClock pw) "Using plugin-starter template"
                     else logM (setupClock pw) "Template not found, using fallback setup"
                else ret tt) Q job).
  { intros Q HQ. destruct useTemplate; [destruct (templateFound pw) |]; wp_step;
      apply HQ; reflexivity. }
  apply Hsetup. intros j0 He0 Hi0 Hm0 Hy0. cbv beta iota. wp_step.
  destruct (setupReply pw) as [[] | e |]; cbv beta iota.
  - (* the loop *)
    wp_step. wp_step. cbv beta iota. wp_step.
    eapply wp_mono; [apply creationLoop_outcome |].
    intros c j (Hm & Hlo & Hhi & Hy & added & He & Hc).
    rewrite Hm0 in Hm, Hhi. rewrite Hi0 in Hlo, Hhi. rewrite He0 in He. rewrite Hy0 in Hy.
    destruct c as [[[|] |] | e |]; cbv beta iota.
    + (* success *)
      rewrite Hi0 in Hc. cbn [oneIf] in Hc. destruct Hc as [Hn _]. wp_go.
      unfold processOutcome.
      cbn [maxIterations currentIteration errors completedAt logs status error pushLog set_logs
           set_completedAt set_error set_status].
      split; [exact Hm |]. split; [exact Hlo |]. split; [exact Hhi |]. split; [exact Hy |].
      exists added. split; [exact He |]. split; [reflexivity |].
      eexists. split; [apply last_snoc |].
      left. split; [reflexivity |]. split; [reflexivity |]. lia.
    + (* budget exhausted *)
      rewrite Hi0, Hm0 in Hc. cbn [oneIf] in Hc. destruct Hc as (Hn & Hx & Hf). wp_go.
      unfold processOutcome.
      cbn [maxIterations currentIteration errors completedAt logs status error pushLog set_logs
           set_completedAt set_error set_status].
      split; [exact Hm |]. split; [exact Hlo |]. split; [exact Hhi |]. split; [exact Hy |].
      exists added. split; [exact He |]. split; [reflexivity |].
      eexists. split; [apply last_snoc |].
      right. left. split; [reflexivity |]. split; [reflexivity |].
      destruct Hx as [Hx | Hx]; [discriminate Hx |]. split; [lia |]. split; [exact Hx |].
      destruct (Hf eq_refl) as [_ [(e & Hlast & Hit & Hcar) | ->]];
        [left; exists e; auto | right; cbn; congruence].
    + (* the fuel suffices *)
      exfalso. rewrite Hi0, Hm0 in Hc. destruct Hc as [Hc1 Hc2]. lia.
    + (* preparing the next iteration threw *)
      rewrite Hi0 in Hc. destruct Hc as [Hn _].
      apply (Hcatch e j added); assumption.
    + unfold processOutcome.
      split; [exact Hm |]. split; [exact Hlo |]. split; [exact Hhi |]. split; [exact Hy |].
      exists added. split; [exact He | exact I].
  - apply (Hcatch e j0 []).
    + exact Hm0.
    + lia.
    + lia.
    + rewrite app_nil_r. exact He0.
    + cbn. lia.
  - unfold processOutcome. split; [exact Hm0 |]. split; [lia |]. split; [lia |].
    split; [rewrite Hy0; auto |].
    exists []. rewrite app_nil_r. split; [exact He0 | exact I].
Qed.

(** X12.  The background process never rejects, whatever the provider and
    the host do (an exception being an [Error] with its message).  When it
    ends, the job is completed or failed and stamped with
    the time of the end, and the last log line says which: the job is
    completed exactly when that line is ["Job completed successfully"].
    This holds from any job record, also one whose status is already
    cancelled or failed: the process never reads the status and overwrites
    it at its end. *)
Theorem background_process_never_rejects
  (anthropic : option string) (pw : ProcessWorld) (useTemplate : bool) (job : Job) :
  let job' := snd (fst (runCreationProcess anthropic pw useTemplate job)) in
  match fst (fst (runCreationProcess anthropic pw useTemplate job)) with
  | Returned _ =>
      (status job' = completed \/ status job' = failed) /\
      completedAt job' = Some (finishClock pw) /\
      exists message : string,
        last (logs job') = Some {| logTime := finishClock pw; logMessage := message |} /\
        (status job' = completed <-> message = "Job completed successfully")
  | Threw _ => False
  | Awaiting => True
  end.
Proof.
  pose proof (runCreationProcess_outcome anthropic pw useTemplate job) as H.
  unfold wp, processOutcome in H. cbv zeta.
  destruct (fst (fst (runCreationProcess anthropic pw useTemplate job))) as [[] | e |];
    destruct H as (_ & _ & _ & _ & added & _ & H); [| exact H | exact I].
  destruct H as (Hstamp & message & Hlast &
                 [(Hs & -> & _) | [(Hs & -> & _) | (Hs & _ & e & -> & _)]]).
  - split; [left; exact Hs |]. split; [exact Hstamp |].
    eexists. split; [exact Hlast |]. split; [reflexivity | intros _; exact Hs].
  - split; [right; exact Hs |]. split; [exact Hstamp |].
    eexists. split; [exact Hlast |]. rewrite Hs. split; discriminate.
  - split; [right; exact Hs |]. split; [exact Hstamp |].
    eexists. split; [exact Hlast |]. rewrite Hs. split; discriminate.
Qed.

(** X13.  The iteration budget.  The background process never changes
    [maxIterations], never decreases [currentIteration] and never raises it
    above [maxIterations] (a counter already above it stays put); the loop
    always comes to its end within [maxIterations - currentIteration]
    rounds; a job that ends completed went through at least one round; and
    the log line ["Job failed after maximum iterations"] is written only
    when the counter has reached [maxIterations]. *)
Theorem iteration_budget_is_respected
  (anthropic : option string) (pw : ProcessWorld) (useTemplate : bool) (job : Job) :
  let job' := snd (fst (runCreationProcess anthropic pw useTemplate job)) in
  maxIterations job' = maxIterations job /\
  currentIteration job <= currentIteration job' /\
  currentIteration job' <= Z.max (currentIteration job) (maxIterations job) /\
  fst (fst (creationLoop (Z.to_nat (maxIterations job - currentIteration job))
              anthropic pw false job)) <> Returned None /\
  (fst (fst (runCreationProcess anthropic pw useTemplate job)) = Returned tt ->
   (status job' = completed -> currentIteration job < currentIteration job') /\
   (last (logs job') = Some {| logTime := finishClock pw;
                               logMessage := "Job failed after maximum iterations" |} ->
    maxIterations job <= currentIteration job')).
Proof.
  pose proof (runCreationProcess_outcome anthropic pw useTemplate job) as H.
  unfold wp, processOutcome in H. cbv zeta. destruct H as (Hm & Hlo & Hhi & _ & added & He & H).
  split; [exact Hm |]. split; [exact Hlo |]. split; [exact Hhi |].
  split.
  { pose proof (creationLoop_outcome anthropic pw
                  (Z.to_nat (maxIterations job - currentIteration job)) false job) as L.
    unfold wp, loopOutcome in L. destruct L as (_ & _ & _ & _ & added' & _ & L).
    intros E. rewrite E in L. lia. }
  intros Hret. rewrite Hret in H.
  destruct H as (_ & message & Hlast &
                 [(Hs & -> & Hn) | [(Hs & -> & Hn & Hx & _) | (Hs & _ & e & -> & _)]]).
  - split; [intros _; lia |]. rewrite Hlast. intros [= E].
  - split; [rewrite Hs; discriminate | intros _; exact Hx].
  - split; [rewrite Hs; discriminate |]. rewrite Hlast. intros [= E].
Qed.

(** X14.  The error ledger is append-only over the background process and
    counts the failed iterations: when the process ends with the job
    failed, it holds one more record for every iteration that was run; when
    it ends with the job completed, one more for every iteration but the
    last. *)
Theorem ledger_counts_failed_iterations
  (anthropic : option string) (pw : ProcessWorld) (useTemplate : bool) (job : Job) :
  let job' := snd (fst (runCreationProcess anthropic pw useTemplate job)) in
  exists added : list JobError,
    errors job' = errors job ++ added /\
    (fst (fst (runCreationProcess anthropic pw useTemplate job)) = Returned tt ->
     (status job' = failed ->
      Z.of_nat (List.length added) = currentIteration job' - currentIteration job) /\
     (status job' = completed ->
      Z.of_nat (List.length added) = currentIteration job' - currentIteration job - 1)).
Proof.
  pose proof (runCreationProcess_outcome anthropic pw useTemplate job) as H.
  unfold wp, processOutcome in H. cbv zeta. destruct H as (_ & _ & _ & _ & added & He & H).
  exists added. split; [exact He |].
  intros Hret. rewrite Hret in H.
  destruct H as (_ & message & _ & [(Hs & _ & Hn) | [(Hs & _ & Hn & _) | (Hs & Hn & _)]]);
    rewrite Hs; split; intros E; try discriminate E; lia.
Qed.

(** X15.  The error message of a job that ends failed.  [job.error], once
    assigned, is never unassigned by the background process, but it can be
    replaced, also by the empty string.  A job that had iterations left
    and ends failed ended in one of two ways.  Either an exception reached
    the outer handler: then [job.error] is exactly the message the last log
    line reports after ["Unexpected error: "].  Or the iterations ran out:
    then the last record of the ledger belongs to the last iteration, and
    [job.error] is the text of that record, or it is the empty string and
    the record holds the fallback text of its phase.  The second case
    happens: when every build exits with a failure and prints nothing, the
    job ends failed after five iterations with the empty string as its
    error, while the ledger says ["Build failed"]. *)
Theorem failed_job_error_matches_last_record
  (anthropic : option string) (pw : ProcessWorld) (useTemplate : bool) (job : Job) :
  let run := runCreationProcess anthropic pw useTemplate job in
  let job' := snd (fst run) in
  let silent := snd (fst (runCreationProcess (Some "sk-test") silentProcess true sampleJob)) in
  (is_Some (error job) -> is_Some (error job')) /\
  (currentIteration job < maxIterations job ->
   fst (fst run) = Returned tt ->
   status job' = failed ->
   (exists message : string,
      last (logs job')
        = Some {| logTime := finishClock pw;
                  logMessage := "Unexpected error: " +:+ message |} /\
      error job' = Some message) \/
   (last (logs job')
      = Some {| logTime := finishClock pw;
                logMessage := "Job failed after maximum iterations" |} /\
    lastRecordCarriesError job')) /\
  (status silent = failed /\ currentIteration silent = 5 /\ error silent = Some "" /\
   last (errors silent)
     = Some {| iteration := 5; phase := "building"; errorText := "Build failed";
               timestamp := 50 |}).
Proof.
  pose proof (runCreationProcess_outcome anthropic pw useTemplate job) as H.
  unfold wp, processOutcome in H. cbv zeta. destruct H as (_ & _ & _ & Hy & added & _ & H).
  split; [exact Hy |]. split; [| vm_compute; repeat split; reflexivity].
  intros Hlt Hret Hfailed. rewrite Hret in H.
  destruct H as (_ & message & Hlog &
                 [(Hs & _) | [(_ & -> & _ & Hx & [He | He]) | (_ & _ & e & -> & He)]]).
  - rewrite Hs in Hfailed. discriminate Hfailed.
  - right. split; [exact Hlog | exact He].
  - lia.
  - left. exists e. split; [exact Hlog | exact He].
Qed.

(** ** Feedback from one iteration to the next *)

Lemma bind_calls {A B : Type} (m : M A) (k : A -> M B) (job : Job) :
  exists rest : list Call, snd ((m ≫= k) job) = snd (m job) ++ rest.
Proof.
  unfold mbind, M_bind, bind.
  destruct (m job) as [[[a | message |] job1] calls1]; cbn [snd].
  - destruct (k a job1) as [[r job2] calls2]. exists calls2. reflexivity.
  - exists []. rewrite app_nil_r. reflexivity.
  - exists []. rewrite app_nil_r. reflexivity.
Qed.

Lemma tryCatch_calls {A : Type} (m : M A) (handler : string -> M A) (job : Job) :
  exists rest : list Call, snd (tryCatch m handler job) = snd (m job) ++ rest.
Proof.
  unfold tryCatch.
  destruct (m job) as [[[a | message |] job1] calls1]; cbn [snd].
  - exists []. rewrite app_nil_r. reflexivity.
  - destruct (handler message job1) as [[r job2] calls2]. exists calls2. reflexivity.
  - exists []. rewrite app_nil_r. reflexivity.
Qed.

Lemma runSingleIteration_first_call (anthropic : option string) (w : RoundWorld) (j : Job) :
  configured anthropic = true ->
  exists rest : list Call,
    snd (runSingleIteration anthropic w j)
      = CallGenerate (currentIteration j =? 1)
          (List.filter (fun e => iteration e =? currentIteration j - 1) (errors j)) :: rest.
Proof.
  intros Hconf. unfold runSingleIteration.
  match goal with |- context [tryCatch ?m ?h j] =>
    destruct (tryCatch_calls m h j) as (rest1 & ->) end.
  rewrite (bind_returned _ _ j (set_currentPhase "generating" j) tt []) by reflexivity.
  cbn [snd app].
  match goal with |- context [(?m ≫= ?k) (set_currentPhase "generating" j)] =>
    destruct (bind_calls m k (set_currentPhase "generating" j)) as (rest2 & ->) end.
  rewrite generatePluginCode_run, Hconf. cbn [snd app currentIteration errors set_currentPhase].
  eexists. reflexivity.
Qed.

(** X16.  Feedback.  With a provider configured, when a round of
    iteration [i >= 1] returns [false], the round that the loop starts next
    (status set to running, counter raised to [i + 1]) first calls the
    provider, not as a first iteration, and hands it exactly the ledger
    records of iteration [i], among them the record that the failed round
    has just appended. *)
Theorem failed_round_feeds_next_generation
  (anthropic : option string) (w next : RoundWorld) (pw : ProcessWorld) (job : Job) :
  configured anthropic = true ->
  1 <= currentIteration job ->
  fst (fst (runSingleIteration anthropic w job)) = Returned false ->
  let job' := snd (fst (runSingleIteration anthropic w job)) in
  exists (e : JobError) (previousErrors : list JobError) (rest : list Call),
    errors job' = errors job ++ [e] /\
    snd (runSingleIteration anthropic next (roundStart pw (set_status running job')))
      = CallGenerate false previousErrors :: rest /\
    In e previousErrors /\
    previousErrors = List.filter (fun x => iteration x =? currentIteration job) (errors job').
Proof.
  intros Hconf Hit Hret. cbv zeta.
  pose proof (runSingleIteration_outcome anthropic w job) as H.
  unfold wp, roundOutcome in H. rewrite Hret in H.
  destruct H as (Hi & _ & _ & _ & _ & e & He & Hie & _).
  destruct (runSingleIteration_first_call anthropic next
              (roundStart pw (set_status running (snd (fst (runSingleIteration anthropic w job)))))
              Hconf) as (rest & Hcalls).
  revert Hcalls.
  cbn [roundStart currentIteration errors set_status set_currentIteration set_currentPhase
       set_progress pushLog set_logs].
  rewrite Hi.
  replace (currentIteration job + 1 =? 1) with false by (symmetry; apply Z.eqb_neq; lia).
  replace (currentIteration job + 1 - 1) with (currentIteration job) by lia.
  intros Hcalls.
  exists e, (List.filter (fun x => iteration x =? currentIteration job)
               (errors (snd (fst (runSingleIteration anthropic w job))))), rest.
  split; [exact He |]. split; [exact Hcalls |]. split; [| reflexivity].
  rewrite He. apply List.filter_In. split.
  - apply List.in_or_app. right. left. reflexivity.
  - apply Z.eqb_eq. exact Hie.
Qed.

(** ** Commands inside the phases *)

Lemma wp_logAll (t : Z) (messages : list string) (Q : Completion unit -> Job -> Prop)
  (Inv : Job -> Prop) (job : Job) :
  Inv job -> (forall m j, Inv j -> Inv (pushLog t m j)) ->
  (forall j, Inv j -> Q (Returned tt) j) ->
  wp (logAll t messages) Q job.
Proof.
  intros HI Hstep HQ. revert job HI.
  induction messages as [| m rest IH]; intros job HI; cbn [logAll].
  - apply wp_ret, HQ, HI.
  - wp_step. wp_step. cbv beta iota. apply IH, Hstep, HI.
Qed.

Lemma wp_callAll (calls : list Call) (Q : Completion unit -> Job -> Prop) (job : Job) :
  Q (Returned tt) job -> wp (callAll calls) Q job.
Proof. intros H. unfold wp. rewrite callAll_run. exact H. Qed.

(** What the caller of [runCommand] gets: the exception of [spawn], the
    settled value, or it keeps waiting; the job keeps its error message and
    test results. *)
Lemma runCommand_outcome (w : CommandWorld) (command : string) (args : list string)
  (description : string) (job : Job) :
  wp (runCommand w command args description)
    (fun c j =>
       c = commandOutcome w command args /\
       error j = error job /\ testResults j = testResults job) job.
Proof.
  unfold runCommand, commandOutcome.
  wp_step. wp_step. cbv beta iota. wp_step. wp_step. cbv beta iota.
  destruct (resolveTool (which w) command args) as [[actualCommand actualArgs] pmLogs].
  cbn [fst snd]. wp_step. apply wp_callAll. wp_step.
  apply (wp_logAll _ _ _ (fun j => error j = error job /\ testResults j = testResults job));
    [split; reflexivity | intros m j Hj; exact Hj |].
  intros j1 Hj1. cbv beta iota. wp_step. wp_step. cbv beta iota.
  destruct (spawnError w) as [message |]; [wp_step; split; [reflexivity | exact Hj1] |].
  wp_step. wp_step. cbv beta iota.
  wp_step.
  apply (wp_logAll _ _ _ (fun j => error j = error job /\ testResults j = testResults job));
    [exact Hj1 | intros m j Hj; exact Hj |].
  intros j2 Hj2. cbv beta iota.
  destruct (promise (runHarness actualCommand (events w))); wp_step; split; auto.
Qed.

(** X17.  The result of the build phase is the success flag of the build
    command alone: the result that the install command run before it
    resolves with is ignored, a failed installation included.  When the
    build command fails the error message of the job is the output of the
    build command.  The phase waits as long as either command has not
    settled.  Only an exception that escapes a command (one thrown by
    [spawn]) is not ignored: the phase then returns [false] with the
    message of the exception as error message; for the install command this
    happens before the build command is run. *)
Theorem build_result_ignores_install_outcome (w : RoundWorld) (job : Job) :
  let installed := commandOutcome (installRun w) "npm" ["install"] in
  let built := commandOutcome (buildRun w) "npm" ["run"; "build"] in
  let job' := snd (fst (buildPlugin w job)) in
  match installed, built with
  | Returned _, Returned r =>
      fst (fst (buildPlugin w job)) = Returned (success r) /\
      error job' = (if success r then error job else Some (output r))
  | Returned _, Awaiting => fst (fst (buildPlugin w job)) = Awaiting /\ error job' = error job
  | Returned _, Threw message =>
      fst (fst (buildPlugin w job)) = Returned false /\ error job' = Some message
  | Awaiting, _ => fst (fst (buildPlugin w job)) = Awaiting /\ error job' = error job
  | Threw message, _ =>
      fst (fst (buildPlugin w job)) = Returned false /\ error job' = Some message /\
      Forall (fun c => match c with
                       | CallSpawn _ spawnArgs _ => spawnArgs = ["install"]
                       | _ => True
                       end) (snd (buildPlugin w job))
  end.
Proof.
  cbv zeta.
  destruct (commandOutcome (installRun w) "npm" ["install"]) as [r0 | message0 |] eqn:Hinstall.
  - change (wp (buildPlugin w)
              (fun c j =>
                 match commandOutcome (buildRun w) "npm" ["run"; "build"] with
                 | Returned r =>
                     c = Returned (success r) /\
                     error j = (if success r then error job else Some (output r))
                 | Threw message => c = Returned false /\ error j = Some message
                 | Awaiting => c = Awaiting /\ error j = error job
                 end) job).
    unfold buildPlugin. wp_step. wp_step.
    eapply wp_mono; [apply runCommand_outcome |]. intros c j (-> & Hj & _). rewrite Hinstall.
    wp_step. eapply wp_mono; [apply runCommand_outcome |]. intros c j' (-> & Hj' & _).
    destruct (commandOutcome (buildRun w) "npm" ["run"; "build"]) as [r | message |].
    + destruct (success r); cbn [negb]; wp_go; split; [reflexivity | congruence | reflexivity..].
    + wp_go. split; reflexivity.
    + split; [reflexivity | congruence].
  - assert (Hrun : fst (fst (runCommand (installRun w) "npm" ["install"]
                               "Installing dependencies" job)) = Threw message0).
    { rewrite runCommand_completion. exact Hinstall. }
    pose proof (runCommand_respects (fun c => match c with
                                              | CallSpawn _ spawnArgs _ =>
                                                  bool_decide (spawnArgs = ["install"])
                                              | _ => true
                                              end)
                  (installRun w) "npm" ["install"] "Installing dependencies"
                  (fun _ => eq_refl)) as Hcalls.
    specialize (Hcalls ltac:(intros wd; rewrite resolveTool_args by auto; reflexivity) job).
    destruct Hcalls as [_ Hcalls].
    unfold buildPlugin, tryCatch.
    rewrite (bind_completion_run _ _ job) by (rewrite Hrun; discriminate).
    revert Hrun Hcalls.
    destruct (runCommand (installRun w) "npm" ["install"] "Installing dependencies" job)
      as [[c1 j1] calls1]. cbn [fst snd]. intros -> Hcalls.
    cbv [mbind M_bind bind mret M_ret ret modify]. cbn [fst snd error set_error].
    split; [reflexivity |]. split; [reflexivity |].
    rewrite app_nil_r. apply List.Forall_forall. intros c Hin.
    rewrite forallb_forall in Hcalls. specialize (Hcalls c Hin).
    destruct c; try exact I. apply bool_decide_eq_true in Hcalls. exact Hcalls.
  - change (wp (buildPlugin w) (fun c j => c = Awaiting /\ error j = error job) job).
    unfold buildPlugin. wp_step. wp_step.
    eapply wp_mono; [apply runCommand_outcome |]. intros c j (-> & Hj & _). rewrite Hinstall.
    split; [reflexivity | exact Hj].
Qed.

(** X18.  The test phase.  Once the test command has settled with counts
    that a JavaScript number holds exactly (up to [2^53 - 1]), the phase
    passes exactly when the command succeeded and the parsed count of
    failed tests is not positive; the parsed results are stored on the job
    either way; and when the phase fails the error message is that count
    followed by [" tests failed"], so a test run that fails without
    printing a count of failures is reported as ["0 tests failed"]. *)
Theorem test_phase_reports_parsed_failures (w : RoundWorld) (job : Job) (r : CmdResult) :
  commandOutcome (testRun w) "npm" ["test"] = Returned r ->
  passed (parseTestResults (output r)) <= maxSafeInteger ->
  testsFailed (parseTestResults (output r)) <= maxSafeInteger ->
  let job' := snd (fst (testPlugin w job)) in
  let results := parseTestResults (output r) in
  fst (fst (testPlugin w job)) = Returned (success r && (testsFailed results <=? 0)) /\
  testResults job' = Some results /\
  error job' = (if success r && (testsFailed results <=? 0) then error job
                else Some (showZ (testsFailed results) +:+ " tests failed")) /\
  (matchCount " failed" (output r) = None -> success r = false ->
   error job' = Some "0 tests failed").
Proof.
  intros Hran _ _. cbv zeta.
  change (wp (testPlugin w)
            (fun c j =>
               c = Returned (success r && (testsFailed (parseTestResults (output r)) <=? 0)) /\
               testResults j = Some (parseTestResults (output r)) /\
               error j = (if success r && (testsFailed (parseTestResults (output r)) <=? 0)
                          then error job
                          else Some (showZ (testsFailed (parseTestResults (output r)))
                                     +:+ " tests failed")) /\
               (matchCount " failed" (output r) = None -> success r = false ->
                error j = Some "0 tests failed")) job).
  unfold testPlugin. wp_step. wp_step.
  eapply wp_mono; [apply runCommand_outcome |]. intros c j (-> & Hj & _). rewrite Hran.
  wp_step. wp_step. cbv beta iota.
  replace (testsFailed (parseTestResults (output r)) <=? 0)
    with (negb (0 <? testsFailed (parseTestResults (output r))))
    by (rewrite Z.leb_antisym; reflexivity).
  destruct (success r) eqn:Hs; cbn [negb orb andb].
  - destruct (0 <? testsFailed (parseTestResults (output r))) eqn:Hf; cbn [negb]; wp_go;
      cbn [error testResults set_error set_testResults].
    + repeat split; auto. intros _ [=].
    + repeat split; auto. intros _ [=].
  - wp_go. cbn [error testResults set_error set_testResults]. repeat split; auto.
    intros Hnone _. unfold parseTestResults. cbn [testsFailed]. rewrite Hnone. reflexivity.
Qed.

(** ** Settling once *)

Lemma resolve_settled (r r' : CmdResult) (st : Harness) :
  promise st = Resolved r -> promise (resolve r' st) = Resolved r.
Proof. intros H. unfold resolve. rewrite H. exact H. Qed.

Lemma harnessStep_settled (cmd : string) (st : Harness) (ev : ChildEvent) (r : CmdResult) :
  promise st = Resolved r -> promise (harnessStep cmd st ev) = Resolved r.
Proof.
  intros H. destruct ev as [code message | data | data | code | | killThrows]; cbn [harnessStep].
  - destruct (String.eqb code "ENOENT"); apply resolve_settled; exact H.
  - unfold handleData. repeat match goal with |- context [if ?b then _ else _] => destruct b end;
      exact H.
  - unfold handleData. repeat match goal with |- context [if ?b then _ else _] => destruct b end;
      exact H.
  - apply resolve_settled. exact H.
  - exact H.
  - destruct (timeout st); [| exact H].
    apply resolve_settled. unfold killChild. destruct killThrows; exact H.
Qed.

Lemma fold_harness_settled (cmd : string) (later : list ChildEvent) (st : Harness)
  (r : CmdResult) :
  promise st = Resolved r -> promise (fold_left (harnessStep cmd) later st) = Resolved r.
Proof.
  revert st. induction later as [| ev later IH]; intros st H; cbn [fold_left]; [exact H |].
  apply IH, harnessStep_settled, H.
Qed.

(** X19.  The promise of [runCommand] settles once.  After the first
    callback that settles it, no later callback (more output, ['close'],
    ['error'], the timer) changes the result.  And a result with
    [success = true] comes from one place only: the first settling callback
    was ['close'] with exit code 0, and the output of the result is what had
    been captured up to then. *)
Theorem command_result_settles_once
  (cmd : string) (evs later : list ChildEvent) (r : CmdResult) :
  promise (runHarness cmd evs) = Resolved r ->
  promise (runHarness cmd (evs ++ later)) = Resolved r /\
  (success r = true ->
   exists before after : list ChildEvent,
     evs = before ++ OnClose (Some 0) :: after /\
     promise (runHarness cmd before) = Pending /\
     output r = outputBuf (runHarness cmd before)).
Proof.
  intros Hr. split.
  { unfold runHarness. rewrite fold_left_app. apply fold_harness_settled. exact Hr. }
  intros Hs. revert Hr. induction evs as [| ev evs IH] using rev_ind; [discriminate |].
  rewrite runHarness_snoc.
  destruct (promise (runHarness cmd evs)) as [| r0 | reason] eqn:Hp.
  - (* settled by [ev] *)
    intros Hr. exists evs.
    destruct ev as [code message | data | data | code | | killThrows];
      cbn [harnessStep] in Hr.
    + destruct (String.eqb code "ENOENT"); unfold resolve, harnessLog in Hr;
        cbn [promise] in Hr; rewrite Hp in Hr; injection Hr as <-; discriminate Hs.
    + exfalso. revert Hr. unfold handleData.
      repeat match goal with |- context [if ?b then _ else _] => destruct b end;
        cbn [promise harnessLog]; rewrite Hp; discriminate.
    + exfalso. revert Hr. unfold handleData.
      repeat match goal with |- context [if ?b then _ else _] => destruct b end;
        cbn [promise harnessLog]; rewrite Hp; discriminate.
    + unfold resolve in Hr. rewrite Hp in Hr. cbn [promise] in Hr. injection Hr as <-.
      cbn [success output] in *.
      destruct code as [[| p | p] |]; try discriminate Hs.
      exists []. repeat split. exact Hp.
    + exfalso. cbn [clearTimeout promise] in Hr. rewrite Hp in Hr. discriminate Hr.
    + exfalso. destruct (timeout (runHarness cmd evs)).
      * unfold resolve, killChild, clearTimeout in Hr.
        destruct killThrows; cbn [promise] in Hr; rewrite Hp in Hr; cbn [promise] in Hr;
          injection Hr as <-; discriminate Hs.
      * rewrite Hp in Hr. discriminate Hr.
  - (* settled before *)
    intros Hr. rewrite (harnessStep_settled cmd _ ev r0 Hp) in Hr. injection Hr as ->.
    destruct (IH eq_refl) as (before & after & -> & Hb & Ho).
    exists before, (after ++ [ev]). rewrite <- app_assoc. repeat split; assumption.
  - pose proof (runHarness_not_rejected cmd evs) as Hn. rewrite Hp in Hn. discriminate Hn.
Qed.

(** ** Choice of the package manager *)

Lemma logAll_run (t : Z) (messages : list string) (job : Job) :
  logAll t messages job
    = (Returned tt, fold_left (fun j m => pushLog t m j) messages job, []).
Proof.
  revert job. induction messages as [| m rest IH]; intros job; [reflexivity |].
  cbn [logAll fold_left]. rewrite (bind_returned _ _ job (pushLog t m job) tt []) by reflexivity.
  rewrite IH. reflexivity.
Qed.

Lemma logs_pushed (t : Z) (messages : list string) (job : Job) :
  logs (fold_left (fun j m => pushLog t m j) messages job)
    = logs job ++ List.map (fun m => {| logTime := t; logMessage := m |}) messages.
Proof.
  revert job. induction messages as [| m rest IH]; intros job; cbn [fold_left List.map].
  - rewrite app_nil_r. reflexivity.
  - rewrite IH. cbn [pushLog logs set_logs]. rewrite <- app_assoc. reflexivity.
Qed.

(** The calls of one [runCommand], and the head of what it logs. *)
Lemma runCommand_run (w : CommandWorld) (command : string) (args : list string)
  (description : string) (job : Job) :
  snd (runCommand w command args description job)
    = (CallWhich <$> whichProbes (which w) command)
      ++ [CallSpawn (fst (fst (resolveTool (which w) command args)))
            (snd (fst (resolveTool (which w) command args))) (outputPath job)] /\
  exists rest : list LogLine,
    logs (snd (fst (runCommand w command args description job)))
      = logs job
        ++ List.map (fun m => {| logTime := clock w; logMessage := m |})
             ((description +:+ " for " +:+ name (specification job))
              :: snd (resolveTool (which w) command args))
        ++ rest.
Proof.
  unfold runCommand.
  rewrite (bind_returned _ _ job job job []) by reflexivity. cbn [app fst snd].
  rewrite (bind_returned _ _ job
             (pushLog (clock w) (description +:+ " for " +:+ name (specification job)) job)
             tt []) by reflexivity.
  cbn [app fst snd].
  destruct (resolveTool (which w) command args) as [[actualCommand actualArgs] pmLogs].
  cbn [fst snd].
  rewrite (bind_returned _ _ _ _ tt _ (callAll_run _ _)). cbn [fst snd].
  rewrite (bind_returned _ _ _ _ tt _ (logAll_run _ _ _)). cbn [app fst snd].
  set (job1 := fold_left (fun j m => pushLog (clock w) m j) pmLogs
                 (pushLog (clock w) (description +:+ " for " +:+ name (specification job)) job)).
  rewrite (bind_returned _ _ job1 job1 tt
             [CallSpawn actualCommand actualArgs (outputPath job)]) by reflexivity.
  cbn [fst snd].
  assert (Hlogs1 : logs job1
                   = logs job
                     ++ List.map (fun m => {| logTime := clock w; logMessage := m |})
                          ((description +:+ " for " +:+ name (specification job)) :: pmLogs)).
  { unfold job1. rewrite logs_pushed. cbn [pushLog logs set_logs List.map].
    rewrite <- app_assoc. reflexivity. }
  destruct (spawnError w) as [message |].
  - cbn [throw fst snd]. split; [reflexivity |].
    exists []. rewrite app_nil_r. exact Hlogs1.
  - rewrite (bind_returned _ _ job1 (set_childProcess (Some (spawned w)) job1) tt [])
      by reflexivity.
    cbn [app fst snd].
    rewrite (bind_returned _ _ _ _ tt _ (logAll_run _ _ _)). cbn [app fst snd].
    destruct (promise (runHarness actualCommand (events w))) as [| r | reason];
      cbn [ret mret M_ret throw await fst snd]; (split; [reflexivity |]);
      rewrite logs_pushed; cbn [logs set_childProcess]; rewrite Hlogs1, <- app_assoc;
      eexists; reflexivity.
Qed.

Lemma probedTools_first (available : string -> bool) (before after : list string)
  (tool : string) :
  available tool = true -> (forall earlier, In earlier before -> available earlier = false) ->
  List.find available (before ++ tool :: after) = Some tool /\
  probedTools available (before ++ tool :: after) = before ++ [tool].
Proof.
  intros Ht. induction before as [| x before IH]; intros Hb; cbn [app List.find probedTools].
  - rewrite Ht. split; reflexivity.
  - rewrite (Hb x (or_introl eq_refl)).
    destruct (IH (fun e He => Hb e (or_intror He))) as [-> ->]. split; reflexivity.
Qed.

Lemma probedTools_none (available : string -> bool) (pms : list string) :
  (forall pm, In pm pms -> available pm = false) ->
  List.find available pms = None /\ probedTools available pms = pms.
Proof.
  induction pms as [| x pms IH]; intros Hnone; cbn [List.find probedTools]; [split; reflexivity |].
  rewrite (Hnone x (or_introl eq_refl)).
  destruct (IH (fun e He => Hnone e (or_intror He))) as [-> ->]. split; reflexivity.
Qed.

(** X20.  The processes one [runCommand] starts.  A command other than
    [npm] is spawned as given, in the job's output path, without any
    probe.  For [npm] the package managers bun, pnpm, yarn and npm are
    probed with [which], in this order, up to the first one the host finds;
    that one is spawned in the job's output path, after a log line naming
    it, with the arguments given, except that everything after a leading
    [install] or [test] is dropped.  When the host finds none of the four,
    all four are probed and [npm] is spawned with the arguments as given. *)
Theorem spawned_tool_is_first_available (w : CommandWorld) (command : string)
  (args : list string) (description : string) (job : Job) :
  let calls := snd (runCommand w command args description job) in
  let job' := snd (fst (runCommand w command args description job)) in
  let line := fun message => {| logTime := clock w; logMessage := message |} in
  (command <> "npm" -> calls = [CallSpawn command args (outputPath job)]) /\
  (command = "npm" -> (forall pm, In pm packageManagers -> which w pm = false) ->
   calls = (CallWhich <$> packageManagers) ++ [CallSpawn "npm" args (outputPath job)]) /\
  (command = "npm" ->
   forall (before after : list string) (tool : string),
     packageManagers = before ++ tool :: after ->
     which w tool = true ->
     (forall earlier, In earlier before -> which w earlier = false) ->
     calls = (CallWhich <$> before ++ [tool])
             ++ [CallSpawn tool (adjustArgs args) (outputPath job)] /\
     exists rest : list LogLine,
       logs job' = logs job
                   ++ [line (description +:+ " for " +:+ name (specification job));
                       line ("Using " +:+ tool +:+ " as package manager")]
                   ++ rest) /\
  (forall rest : list string,
     adjustArgs ("install" :: rest) = ["install"] /\
     adjustArgs ("test" :: rest) = ["test"] /\
     adjustArgs ("run" :: rest) = "run" :: rest) /\
  (forall word rest,
     word <> "install" -> word <> "test" -> word <> "run" ->
     adjustArgs (word :: rest) = word :: rest).
Proof.
  cbv zeta.
  destruct (runCommand_run w command args description job) as [Hcalls (rest0 & Hlogs)].
  split.
  { intros Hne. rewrite Hcalls. unfold whichProbes, resolveTool.
    destruct (String.eqb_spec command "npm"); [contradiction |]. reflexivity. }
  split.
  { intros -> Hnone. rewrite Hcalls. unfold whichProbes, resolveTool.
    cbn [String.eqb Ascii.eqb Bool.eqb].
    destruct (probedTools_none (which w) packageManagers Hnone) as [-> ->]. reflexivity. }
  split.
  { intros -> before after tool Hsplit Htool Hbefore.
    destruct (probedTools_first (which w) before after tool Htool Hbefore) as [Hfind Hprobes].
    rewrite <- Hsplit in Hfind, Hprobes.
    revert Hcalls Hlogs. unfold whichProbes, resolveTool.
    cbn [String.eqb Ascii.eqb Bool.eqb]. rewrite Hfind, Hprobes. cbn [fst snd List.map].
    intros Hcalls Hlogs. split; [exact Hcalls |].
    exists rest0. rewrite Hlogs. reflexivity. }
  split.
  { intros rest. repeat split. }
  intros word rest H1 H2 H3. unfold adjustArgs.
  destruct (String.eqb_spec word "install"); [contradiction |].
  destruct (String.eqb_spec word "run"); [contradiction |].
  destruct (String.eqb_spec word "test"); [contradiction |]. reflexivity.
Qed.

(** ** Names *)

Lemma allChars_append (p : ascii -> bool) (a b : string) :
  allChars p (a +:+ b) = allChars p a && allChars p b.
Proof.
  induction a as [| c a IH]; [reflexivity |].
  cbn [String.append allChars]. rewrite IH, andb_assoc. reflexivity.
Qed.

Lemma lang_star_chars (p : ascii -> bool) (r : regex) (s : string) :
  lang r s -> r = Star (Chr p) -> allChars p s = true.
Proof.
  induction 1 as [| | | | | | a s t Ha _ Hs IH]; intros E; try discriminate E.
  - reflexivity.
  - injection E as ->. rewrite allChars_append, (IH eq_refl), andb_true_r.
    inversion Ha as [| q c Hc | | | | |]; subst. cbn [allChars]. rewrite Hc. reflexivity.
Qed.

Lemma lang_plus_chars (p : ascii -> bool) (s : string) :
  lang (Plus (Chr p)) s -> allChars p s = true.
Proof.
  intros H. inversion H as [| | ? ? s1 s2 Ha Hb | | | |]; subst.
  rewrite allChars_append, (lang_star_chars p _ s2 Hb eq_refl), andb_true_r.
  inversion Ha as [| q c Hc | | | | |]; subst. cbn [allChars]. rewrite Hc. reflexivity.
Qed.

Lemma allChars_weaken (p q : ascii -> bool) (s : string) :
  (forall c, p c = true -> q c = true) -> allChars p s = true -> allChars q s = true.
Proof.
  intros Hpq. induction s as [| c s IH]; [reflexivity |]. cbn [allChars].
  intros H. apply andb_true_iff in H as [Hc Hs]. rewrite (Hpq c Hc), (IH Hs). reflexivity.
Qed.

(** A name the pattern accepts is an optional ['@'], a scope, one ['/']
    and a package name, scope and package name over [[a-zA-Z0-9-_]]. *)
Lemma valid_name_shape (pluginName : string) :
  matches validNameRegex pluginName = true ->
  exists at_ scope package : string,
    pluginName = at_ +:+ scope +:+ "/" +:+ package /\
    (at_ = "" \/ at_ = "@") /\
    allChars nameChar scope = true /\ allChars nameChar package = true /\
    scope <> "" /\ package <> "".
Proof.
  intros H. apply matches_lang in H. unfold validNameRegex in H.
  inversion H as [| | ? ? s0 s1 Hopt Hbody | | | |]; subst.
  inversion Hbody as [| | ? ? scope s2 Hscope Hrest | | | |]; subst.
  inversion Hrest as [| | ? ? sl package Hsl Hpackage | | | |]; subst.
  inversion Hsl as [| q c Hc | | | | |]; subst. unfold isChar in Hc.
  apply Ascii.eqb_eq in Hc. subst c.
  exists s0, scope, package. split; [reflexivity |]. split.
  { inversion Hopt as [| | | ? ? ? Hat | ? ? ? Heps | |]; subst.
    - inversion Hat as [| q c Hc | | | | |]; subst. unfold isChar in Hc.
      apply Ascii.eqb_eq in Hc. subst c. right. reflexivity.
    - inversion Heps. left. reflexivity. }
  split; [apply lang_plus_chars, Hscope |]. split; [apply lang_plus_chars, Hpackage |].
  split.
  - apply lang_plus_head in Hscope as (c & rest & -> & _). discriminate.
  - apply lang_plus_head in Hpackage as (c & rest & -> & _). discriminate.
Qed.

Lemma valid_name_chars (pluginName : string) :
  matches validNameRegex pluginName = true -> allChars validChar pluginName = true.
Proof.
  intros H. apply valid_name_shape in H as (at_ & scope & package & -> & Hat & Hs & Hp & _).
  assert (Hn : forall c, nameChar c = true -> validChar c = true)
    by (intros c Hc; unfold validChar; rewrite Hc; reflexivity).
  rewrite !allChars_append, (allChars_weaken _ _ _ Hn Hs), (allChars_weaken _ _ _ Hn Hp).
  destruct Hat as [-> | ->]; reflexivity.
Qed.

Lemma prefix_chars (p : ascii -> bool) (needle s : string) :
  String.prefix needle s = true -> allChars p s = true -> allChars p needle = true.
Proof.
  revert s. induction needle as [| c needle IH]; intros s Hpre Hs; [reflexivity |].
  destruct s as [| d s]; cbn [String.prefix] in Hpre; [discriminate Hpre |].
  destruct (ascii_dec c d) as [-> |]; [| discriminate Hpre].
  cbn [allChars] in *. apply andb_true_iff in Hs as [Hd Hs].
  rewrite Hd, (IH s Hpre Hs). reflexivity.
Qed.

Lemma includes_chars (p : ascii -> bool) (needle s : string) :
  allChars p s = true -> allChars p needle = false -> includes s needle = false.
Proof.
  intros Hs Hn. induction s as [| c s IH]; cbn [includes].
  - destruct (String.prefix needle "") eqn:Hp; [| reflexivity].
    rewrite (prefix_chars p needle "" Hp eq_refl) in Hn. discriminate Hn.
  - destruct (String.prefix needle (String c s)) eqn:Hp.
    + rewrite (prefix_chars p needle _ Hp Hs) in Hn. discriminate Hn.
    + cbn [allChars] in Hs. apply andb_true_iff in Hs as [_ Hs]. cbn [orb]. apply IH, Hs.
Qed.

(** X21.  The name pattern decides validity on its own: a name that
    matches [/^@?[a-zA-Z0-9-_]+\/[a-zA-Z0-9-_]+$/] contains neither
    [".."], nor ["./"], nor a backslash, so the three substring checks of
    [isValidPluginName] never reject a name the pattern accepts.  Such a
    name is an optional ['@'], a non-empty scope, one ['/'] and a non-empty
    package name, scope and package name over letters, digits, ['-'] and
    ['_']. *)
Theorem name_pattern_decides_validity (pluginName : string) :
  isValidPluginName pluginName = matches validNameRegex pluginName /\
  (isValidPluginName pluginName = true ->
   exists at_ scope package : string,
     pluginName = at_ +:+ scope +:+ "/" +:+ package /\
     (at_ = "" \/ at_ = "@") /\
     allChars nameChar scope = true /\ allChars nameChar package = true /\
     scope <> "" /\ package <> "").
Proof.
  assert (Heq : isValidPluginName pluginName = matches validNameRegex pluginName).
  { unfold isValidPluginName. destruct (matches validNameRegex pluginName) eqn:Hm; [| reflexivity].
    pose proof (valid_name_chars pluginName Hm) as Hc.
    rewrite (includes_chars validChar ".." pluginName Hc eq_refl).
    rewrite (includes_chars validChar "./" pluginName Hc eq_refl).
    rewrite (includes_chars validChar backslash pluginName Hc eq_refl).
    reflexivity. }
  split; [exact Heq |]. rewrite Heq. apply valid_name_shape.
Qed.

Lemma sanitize_char_safe (c : ascii) :
  nameChar c = true \/ c = "/"%char ->
  safeChar (lowerChar (if Ascii.eqb c "/" then "-"%char else c)) = true.
Proof.
  destruct c as [[] [] [] [] [] [] [] []]; intros [H | H]; try reflexivity;
    try discriminate H.
Qed.

Lemma safe_char_fixed (c : ascii) :
  safeChar c = true ->
  lowerChar (if Ascii.eqb c "/" then "-"%char else c) = c /\ Ascii.eqb c "@" = false.
Proof.
  destruct c as [[] [] [] [] [] [] [] []]; intros H; try discriminate H; split; reflexivity.
Qed.

Lemma sanitize_body_safe (s : string) :
  allChars (fun c => nameChar c || Ascii.eqb c "/") s = true ->
  allChars safeChar (toLowerCase (slashToDash s)) = true.
Proof.
  unfold toLowerCase, slashToDash. induction s as [| c s IH]; [reflexivity |].
  cbn [allChars mapString]. intros H. apply andb_true_iff in H as [Hc Hs].
  rewrite (IH Hs), andb_true_r. apply sanitize_char_safe.
  apply orb_true_iff in Hc as [Hc | Hc]; [left; exact Hc | right].
  apply Ascii.eqb_eq in Hc. exact Hc.
Qed.

Lemma sanitize_safe_fixed (s : string) :
  allChars safeChar s = true -> toLowerCase (slashToDash s) = s.
Proof.
  unfold toLowerCase, slashToDash. induction s as [| c s IH]; [reflexivity |].
  cbn [allChars mapString]. intros H. apply andb_true_iff in H as [Hc Hs].
  rewrite (IH Hs), (proj1 (safe_char_fixed c Hc)). reflexivity.
Qed.

Lemma length_mapString (f : ascii -> ascii) (s : string) :
  String.length (mapString f s) = String.length s.
Proof. induction s as [| c s IH]; [reflexivity |]. cbn. rewrite IH. reflexivity. Qed.

(** X22.  Sanitising a valid name gives a non-empty string over
    [[a-z0-9-_]]: no ['/'], no ['.'], no ['@'], no upper-case letter, so it
    is a single path segment.  It has the length of the name without its
    leading ['@'], sanitising it again leaves it as it is, and the name
    with and without the leading ['@'] sanitise to the same string. *)
Theorem sanitized_name_is_one_safe_segment (pluginName : string) :
  isValidPluginName pluginName = true ->
  allChars safeChar (sanitizePluginName pluginName) = true /\
  sanitizePluginName pluginName <> "" /\
  String.length (sanitizePluginName pluginName)
    = String.length (stripLeadingAt pluginName) /\
  sanitizePluginName (sanitizePluginName pluginName) = sanitizePluginName pluginName /\
  sanitizePluginName ("@" +:+ stripLeadingAt pluginName) = sanitizePluginName pluginName.
Proof.
  intros Hvalid.
  assert (Hm : matches validNameRegex pluginName = true).
  { unfold isValidPluginName in Hvalid. repeat (apply andb_true_iff in Hvalid as [Hvalid _]).
    exact Hvalid. }
  destruct (valid_name_shape pluginName Hm) as (at_ & scope & package & -> & Hat & Hs & Hp & Hne & _).
  assert (Hstrip : stripLeadingAt (at_ +:+ scope +:+ "/" +:+ package)
                   = scope +:+ "/" +:+ package).
  { destruct Hat as [-> | ->]; [| reflexivity].
    destruct scope as [| c scope]; [contradiction Hne; reflexivity |].
    cbn [String.append stripLeadingAt]. cbn [allChars] in Hs.
    apply andb_true_iff in Hs as [Hc _].
    destruct (Ascii.eqb c "@") eqn:E; [| reflexivity].
    apply Ascii.eqb_eq in E. subst c. discriminate Hc. }
  assert (Hbody : allChars (fun c => nameChar c || Ascii.eqb c "/") (scope +:+ "/" +:+ package)
                  = true).
  { assert (Hn : forall c, nameChar c = true -> nameChar c || Ascii.eqb c "/" = true)
      by (intros c Hc; rewrite Hc; reflexivity).
    rewrite !allChars_append, (allChars_weaken _ _ _ Hn Hs), (allChars_weaken _ _ _ Hn Hp).
    reflexivity. }
  assert (Hsafe : allChars safeChar (sanitizePluginName (at_ +:+ scope +:+ "/" +:+ package))
                  = true).
  { unfold sanitizePluginName. rewrite Hstrip. apply sanitize_body_safe, Hbody. }
  split; [exact Hsafe |]. split.
  { unfold sanitizePluginName. rewrite Hstrip.
    destruct scope as [| c scope]; [contradiction Hne; reflexivity |]. discriminate. }
  split.
  { unfold sanitizePluginName, toLowerCase, slashToDash. rewrite !length_mapString. reflexivity. }
  split.
  { unfold sanitizePluginName at 1.
    assert (Hs0 : stripLeadingAt (sanitizePluginName (at_ +:+ scope +:+ "/" +:+ package))
                  = sanitizePluginName (at_ +:+ scope +:+ "/" +:+ package)).
    { destruct (sanitizePluginName (at_ +:+ scope +:+ "/" +:+ package)) as [| c rest];
        [reflexivity |].
      cbn [allChars] in Hsafe. apply andb_true_iff in Hsafe as [Hc _].
      cbn [stripLeadingAt]. rewrite (proj2 (safe_char_fixed c Hc)). reflexivity. }
    rewrite Hs0. apply sanitize_safe_fixed, Hsafe. }
  unfold sanitizePluginName. rewrite Hstrip. reflexivity.
Qed.

(** ** Reading the counts of the test runner *)

Lemma parseIntFrom_uint_acc (d : Decimal.uint) (acc : positive) :
  parseIntFrom (Z.pos acc) (NilEmpty.string_of_uint d) = Z.pos (Pos.of_uint_acc d acc).
Proof.
  revert acc. induction d as [| d IH | d IH | d IH | d IH | d IH | d IH | d IH | d IH | d IH | d IH];
    intros acc; cbn [NilEmpty.string_of_uint parseIntFrom Pos.of_uint_acc];
    [reflexivity | rewrite <- IH; f_equal; cbn; lia ..].
Qed.

Lemma parseIntFrom_uint (d : Decimal.uint) :
  parseIntFrom 0 (NilEmpty.string_of_uint d) = Z.of_N (Pos.of_uint d).
Proof.
  induction d as [| d IH | d IH | d IH | d IH | d IH | d IH | d IH | d IH | d IH | d IH];
    cbn [NilEmpty.string_of_uint parseIntFrom Pos.of_uint];
    [reflexivity | exact IH | apply (parseIntFrom_uint_acc d _) ..].
Qed.

Lemma showZ_pos (p : positive) : showZ (Z.pos p) = NilEmpty.string_of_uint (Pos.to_uint p).
Proof.
  unfold showZ. cbn [Z.to_int NilZero.string_of_int]. unfold NilZero.string_of_uint.
  pose proof (DecimalPos.Unsigned.to_uint_nonnil p) as Hn.
  destruct (Pos.to_uint p); [contradiction Hn; reflexivity | reflexivity ..].
Qed.

Lemma parseIntFrom_showZ (n : Z) : 0 <= n -> parseIntFrom 0 (showZ n) = n.
Proof.
  intros Hn. destruct n as [| p | p]; [reflexivity | | lia].
  rewrite showZ_pos, parseIntFrom_uint, DecimalPos.Unsigned.of_to. reflexivity.
Qed.

Lemma string_of_uint_digits (d : Decimal.uint) :
  allChars isDigit (NilEmpty.string_of_uint d) = true.
Proof.
  induction d as [| d IH | d IH | d IH | d IH | d IH | d IH | d IH | d IH | d IH | d IH];
    cbn [NilEmpty.string_of_uint allChars]; [reflexivity | rewrite IH; reflexivity ..].
Qed.

Lemma showZ_digits (n : Z) :
  0 <= n -> allChars isDigit (showZ n) = true /\ showZ n <> "".
Proof.
  intros Hn. destruct n as [| p | p]; [split; [reflexivity | discriminate] | | lia].
  rewrite showZ_pos. split; [apply string_of_uint_digits |].
  pose proof (DecimalPos.Unsigned.to_uint_nonnil p) as Hnn.
  destruct (Pos.to_uint p); [contradiction Hnn; reflexivity | discriminate ..].
Qed.

Lemma digitsPrefix_plain (s : string) : startsPlain s = true -> digitsPrefix s = ("", s).
Proof.
  destruct s as [| c s]; [reflexivity |]. cbn [startsPlain digitsPrefix].
  intros H. apply negb_true_iff in H. rewrite H. reflexivity.
Qed.

Lemma digitsPrefix_digits (ds rest : string) :
  allChars isDigit ds = true -> startsPlain rest = true ->
  digitsPrefix (ds +:+ rest) = (ds, rest).
Proof.
  intros Hd Hr. induction ds as [| c ds IH]; [apply digitsPrefix_plain, Hr |].
  cbn [allChars] in Hd. apply andb_true_iff in Hd as [Hc Hd].
  cbn [String.append digitsPrefix]. rewrite Hc, (IH Hd). reflexivity.
Qed.

Lemma startsPlain_append (a b : string) :
  a <> "" -> startsPlain a = true -> startsPlain (a +:+ b) = true.
Proof. destruct a as [| c a]; [intros H; contradiction H; reflexivity | intros _ H; exact H]. Qed.

Lemma matchCount_skip (word pre s : string) :
  digitFree pre = true -> matchCount word (pre +:+ s) = matchCount word s.
Proof.
  unfold digitFree. induction pre as [| c pre IH]; [reflexivity |].
  cbn [allChars]. intros H. apply andb_true_iff in H as [Hc Hp].
  cbn [String.append matchCount digitsPrefix]. apply negb_true_iff in Hc. rewrite Hc.
  cbn [String.eqb negb andb]. apply IH, Hp.
Qed.

Lemma matchCount_hit (word ds post : string) :
  allChars isDigit ds = true -> ds <> "" -> word <> "" -> startsPlain word = true ->
  matchCount word (ds +:+ word +:+ post) = Some (parseIntFrom 0 ds).
Proof.
  intros Hd Hne Hw Hp. destruct ds as [| c ds]; [contradiction Hne; reflexivity |].
  cbn [String.append matchCount].
  change (String c (ds +:+ word +:+ post)) with (String c ds +:+ (word +:+ post)).
  rewrite (digitsPrefix_digits (String c ds) (word +:+ post) Hd
             (startsPlain_append word post Hw Hp)).
  cbn [String.eqb negb andb]. rewrite prefix_append. reflexivity.
Qed.

Lemma matchCount_miss (word ds other : string) :
  allChars isDigit ds = true -> startsPlain other = true ->
  String.prefix word other = false ->
  matchCount word (ds +:+ other) = matchCount word other.
Proof.
  intros Hd Ho Hpre. induction ds as [| c ds IH]; [reflexivity |].
  cbn [String.append matchCount].
  change (String c (ds +:+ other)) with (String c ds +:+ other).
  rewrite (digitsPrefix_digits (String c ds) other Hd Ho).
  rewrite Hpre, andb_false_r.
  cbn [allChars] in Hd. apply andb_true_iff in Hd as [_ Hd]. apply IH, Hd.
Qed.

(** X23.  Reading back the summary of the test runner.  From an output
    of the form [<text><f> failed<text><p> passed<text>], with [f] and [p]
    written in decimal and no digit in the first two stretches of text,
    [parseTestResults] reads [failed = f] and [passed = p]; and from an
    output without any digit it reads 0 for both. *)
Theorem test_counts_are_read_back (pre mid post : string) (f p : Z) :
  0 <= f <= maxSafeInteger -> 0 <= p <= maxSafeInteger ->
  digitFree pre = true -> digitFree mid = true ->
  let out := pre +:+ showZ f +:+ " failed" +:+ mid +:+ showZ p +:+ " passed" +:+ post in
  testsFailed (parseTestResults out) = f /\
  passed (parseTestResults out) = p /\
  testsFailed (parseTestResults (pre +:+ mid)) = 0 /\
  passed (parseTestResults (pre +:+ mid)) = 0.
Proof.
  intros [Hf _] [Hp _] Hpre Hmid. cbv zeta. unfold parseTestResults. cbn [testsFailed passed].
  destruct (showZ_digits f Hf) as [Hfd Hfn]. destruct (showZ_digits p Hp) as [Hpd Hpn].
  split; [| split].
  - rewrite matchCount_skip by exact Hpre.
    rewrite matchCount_hit by (assumption || discriminate || reflexivity).
    cbn [default]. apply parseIntFrom_showZ, Hf.
  - rewrite matchCount_skip by exact Hpre.
    rewrite matchCount_miss by (assumption || reflexivity).
    change (" failed" +:+ mid +:+ showZ p +:+ " passed" +:+ post)
      with (" failed" +:+ (mid +:+ showZ p +:+ " passed" +:+ post)).
    rewrite (matchCount_skip " passed" " failed") by reflexivity.
    rewrite matchCount_skip by exact Hmid.
    rewrite matchCount_hit by (assumption || discriminate || reflexivity).
    cbn [default]. apply parseIntFrom_showZ, Hp.
  - assert (Hnone : forall word, matchCount word (pre +:+ mid) = None).
    { intros word. rewrite matchCount_skip by exact Hpre.
      rewrite <- (append_nil_r mid). rewrite matchCount_skip by exact Hmid. reflexivity. }
    rewrite !Hnone. split; reflexivity.
Qed.

(** ** The job timeout *)

(** X24.  The timeout callback of a job.  Run on a job that is still
    pending or running, it marks the job failed with the error
    ["Job timed out after 30 minutes"], stamps the completion time and
    adds one log line; it sends no signal and leaves the child-process
    handle and the ledger as they were; every other job is untouched. *)
Theorem job_timeout_fails_active_job (t : Z) (jobId : string) (s : Service) (job : Job) :
  jobs s !! jobId = Some job ->
  isActive (status job) = true ->
  (exists job' : Job,
     jobs (jobTimedOut t jobId s) !! jobId = Some job' /\
     status job' = failed /\
     error job' = Some "Job timed out after 30 minutes" /\
     completedAt job' = Some t /\
     logs job' = logs job ++ [{| logTime := t; logMessage := "Job timed out" |}] /\
     childProcess job' = childProcess job /\
     errors job' = errors job /\
     currentIteration job' = currentIteration job) /\
  (forall k, k <> jobId -> jobs (jobTimedOut t jobId s) !! k = jobs s !! k) /\
  createdPlugins (jobTimedOut t jobId s) = createdPlugins s /\
  size (jobs (jobTimedOut t jobId s)) = size (jobs s).
Proof.
  intros Hk Ha. unfold jobTimedOut. rewrite Hk, Ha.
  split.
  { unfold logToJob. cbn [jobs set_jobs]. rewrite lookup_insert_eq. cbn [jobs set_jobs].
    rewrite lookup_insert_eq. eexists. split; [reflexivity |]. repeat split. }
  split.
  { intros k Hne. rewrite logToJob_lookup_ne by exact Hne. cbn [jobs set_jobs].
    apply lookup_insert_ne. congruence. }
  split.
  { rewrite (proj1 (logToJob_fields _ _ _ _)). reflexivity. }
  rewrite logToJob_size. cbn [jobs set_jobs]. apply map_size_insert_Some. rewrite Hk. eauto.
Qed.

(** ** Where the generated files are written *)

Lemma join_root_nonempty (R : list string) : String.eqb ("/" +:+ joinWith "/" R) "" = false.
Proof. reflexivity. Qed.

Lemma joinWith_cons (p : string) (rest : list string) :
  rest <> [] -> joinWith "/" (p :: rest) = p +:+ "/" +:+ joinWith "/" rest.
Proof. destruct rest as [| q rest]; [intros H; contradiction H; reflexivity | reflexivity]. Qed.

Lemma joinWith_nonempty (l : list string) :
  l <> [] -> forallb plainSegment l = true -> String.eqb (joinWith "/" l) "" = false.
Proof.
  intros Hne Hp. destruct l as [| p rest]; [contradiction Hne; reflexivity |].
  cbn [forallb] in Hp. apply andb_true_iff in Hp as [Hp _].
  apply plainSegment_parts in Hp as (Hp & _).
  destruct rest as [| q rest]; [exact Hp |].
  rewrite joinWith_cons by discriminate. apply append_nonempty_l, Hp.
Qed.

Lemma endsWithSlash_join (l : list string) :
  l <> [] -> forallb plainSegment l = true -> endsWithSlash (joinWith "/" l) = false.
Proof.
  intros Hne Hp. induction l as [| p rest IH]; [contradiction Hne; reflexivity |].
  cbn [forallb] in Hp. apply andb_true_iff in Hp as [Hp Hrest].
  destruct rest as [| q rest].
  - apply endsWithSlash_noSlash. apply plainSegment_parts in Hp as (_ & _ & _ & Hp). exact Hp.
  - rewrite joinWith_cons by discriminate.
    assert (Hq : String.eqb (joinWith "/" (q :: rest)) "" = false)
      by (apply joinWith_nonempty; [discriminate | exact Hrest]).
    rewrite endsWithSlash_append by (apply append_nonempty_r, Hq).
    rewrite endsWithSlash_append by exact Hq. apply IH; [discriminate | exact Hrest].
Qed.

(** [path.join] of an absolute path of plain segments and a relative path
    that does not end in a slash: the segments of the second are folded
    onto those of the first. *)
Lemma path_join_absolute (R : list string) (rel : string) :
  forallb plainSegment R = true -> R <> [] ->
  String.eqb rel "" = false -> endsWithSlash rel = false ->
  fold_left (normStep false) (splitSlash rel) R <> [] ->
  path_join ["/" +:+ joinWith "/" R; rel]
    = "/" +:+ joinWith "/" (fold_left (normStep false) (splitSlash rel) R).
Proof.
  intros HR Hne Hrel Htrail Hres.
  unfold path_join. cbn [List.filter]. rewrite join_root_nonempty, Hrel. cbn [negb joinWith].
  unfold path_normalize.
  rewrite append_nonempty_l by reflexivity.
  assert (Habs : isAbsolute (("/" +:+ joinWith "/" R) +:+ "/" +:+ rel) = true) by reflexivity.
  rewrite Habs. cbv zeta.
  rewrite endsWithSlash_append by (apply append_nonempty_r, Hrel).
  rewrite endsWithSlash_append by exact Hrel. rewrite Htrail.
  unfold normalizeString, normalizeSegments. cbn [negb].
  rewrite splitSlash_append.
  change ("/" +:+ joinWith "/" R) with ("" +:+ "/" +:+ joinWith "/" R).
  rewrite splitSlash_append, splitSlash_join by (exact Hne || apply plain_noSlash, HR).
  cbn [splitSlash app fold_left]. rewrite normStep_empty, fold_left_app.
  rewrite (normFold_plain false R []) by exact HR. cbn [app].
  destruct (fold_left (normStep false) (splitSlash rel) R) as [| x l] eqn:Hfold;
    [contradiction Hres; reflexivity |].
  destruct (String.eqb (joinWith "/" (x :: l)) "") eqn:Hj; [| reflexivity].
  exfalso. revert Hj.
  assert (Hplain : forallb plainSegment (x :: l) = true).
  { rewrite <- Hfold. apply normFold_absolute_plain; [exact HR | apply splitSlash_segments]. }
  rewrite joinWith_nonempty by (discriminate || exact Hplain). discriminate.
Qed.

Lemma fold_ups (R : list string) (k : nat) :
  forallb plainSegment R = true ->
  fold_left (normStep false) (List.repeat ".." k) R = firstn (List.length R - k) R.
Proof.
  revert R. induction k as [| k IH]; intros R HR; cbn [List.repeat fold_left].
  - rewrite Nat.sub_0_r, firstn_all. reflexivity.
  - destruct R as [| x R] using rev_ind.
    + rewrite normStep_up_nil. rewrite IH by reflexivity. reflexivity.
    + clear IHR. rewrite normStep_up_snoc.
      rewrite forallb_app in HR. apply andb_true_iff in HR as [HR Hx].
      cbn [forallb] in Hx. rewrite andb_true_r in Hx.
      apply plainSegment_parts in Hx as (_ & _ & Hx & _). rewrite Hx.
      rewrite IH by exact HR. rewrite length_app. cbn [List.length].
      replace (List.length R + 1 - S k)%nat with (List.length R - k)%nat by lia.
      rewrite firstn_app.
      replace (List.length R - k - List.length R)%nat with 0%nat by lia.
      cbn [firstn]. rewrite app_nil_r. reflexivity.
Qed.

Lemma upPath_split (k : nat) (name : string) :
  noSlash name = true ->
  splitSlash (upPath k +:+ name) = List.repeat ".." k ++ [name].
Proof.
  intros Hn. induction k as [| k IH]; cbn [upPath List.repeat app].
  - apply splitSlash_noSlash, Hn.
  - change (("../" +:+ upPath k) +:+ name) with (".." +:+ "/" +:+ (upPath k +:+ name)).
    rewrite splitSlash_append, IH. reflexivity.
Qed.

Lemma upPath_tail (k : nat) (name : string) :
  String.eqb name "" = false -> noSlash name = true ->
  String.eqb (upPath k +:+ name) "" = false /\ endsWithSlash (upPath k +:+ name) = false.
Proof.
  intros Hne Hn. induction k as [| k [IH1 IH2]]; cbn [upPath].
  - split; [exact Hne | apply endsWithSlash_noSlash, Hn].
  - change (("../" +:+ upPath k) +:+ name) with ("../" +:+ (upPath k +:+ name)).
    split; [reflexivity |]. rewrite endsWithSlash_append by exact IH1. exact IH2.
Qed.

(** X25.  Where [writeGeneratedCode] writes.  Every block of the reply is
    written, trimmed, to the path that [path.join] makes of the output
    directory and the block's path, prefixed with ["src/"] unless it starts
    with it.  When the block's path is made of plain segments the file is
    below the output directory.  But the path is not confined to it: a
    block whose path starts with [k + 1] times ["../"] is written [k]
    levels above the output directory, up to the root of the file system. *)
Theorem generated_file_path_is_not_confined
  (R : list string) (responseText : string) (fileBlocks : list (string * string)) :
  forallb plainSegment R = true -> R <> [] ->
  let outputPath := "/" +:+ joinWith "/" R in
  (forall block, In block fileBlocks ->
     In (WriteFile (generatedFilePath outputPath (trim (fst block))) (trim (snd block)))
        (writeGeneratedCode outputPath responseText fileBlocks)) /\
  (forall segs : list string,
     forallb plainSegment segs = true -> segs <> [] ->
     descendantOf outputPath (generatedFilePath outputPath (joinWith "/" segs))) /\
  (forall (k : nat) (name : string),
     plainSegment name = true ->
     generatedFilePath outputPath (upPath (S k) +:+ name)
       = "/" +:+ joinWith "/" (firstn (List.length R - k) R ++ [name])).
Proof.
  intros HR Hne. cbv zeta. split; [| split].
  - intros block Hin. unfold writeGeneratedCode. apply in_or_app. left.
    apply in_flat_map. exists block. split; [exact Hin |]. right. left. reflexivity.
  - intros segs Hs Hsne. unfold generatedFilePath.
    assert (Hgen : forall below, forallb plainSegment below = true -> below <> [] ->
              path_join ["/" +:+ joinWith "/" R; joinWith "/" below]
                = "/" +:+ joinWith "/" (R ++ below)).
    { intros below Hb Hbne.
      rewrite path_join_absolute;
        rewrite ?splitSlash_join by (exact Hbne || apply plain_noSlash, Hb);
        rewrite ?normFold_plain by exact Hb;
        try reflexivity; try assumption.
      - apply joinWith_nonempty; assumption.
      - apply endsWithSlash_join; assumption.
      - destruct R; [contradiction Hne; reflexivity | discriminate]. }
    destruct (startsWith (joinWith "/" segs) "src/").
    + rewrite (Hgen segs Hs Hsne). exists R, segs. repeat split; assumption.
    + replace ("src/" +:+ joinWith "/" segs) with (joinWith "/" ("src" :: segs))
        by (rewrite joinWith_cons by exact Hsne; reflexivity).
      rewrite (Hgen ("src" :: segs))
        by first [discriminate | cbn [forallb]; rewrite Hs; reflexivity].
      exists R, ("src" :: segs).
      repeat split; try assumption; try discriminate; cbn [forallb]; rewrite Hs; reflexivity.
  - intros k name Hname. unfold generatedFilePath.
    destruct (plainSegment_parts name Hname) as (Hn0 & _ & _ & Hns).
    change (startsWith (upPath (S k) +:+ name) "src/") with false. cbv iota.
    destruct (upPath_tail (S k) name Hn0 Hns) as [Hu1 Hu2].
    assert (Hsplit : splitSlash ("src/" +:+ upPath (S k) +:+ name)
                     = "src" :: List.repeat ".." (S k) ++ [name]).
    { change ("src/" +:+ upPath (S k) +:+ name) with ("src" +:+ "/" +:+ (upPath (S k) +:+ name)).
      rewrite splitSlash_append, upPath_split by exact Hns. reflexivity. }
    assert (Hfold : fold_left (normStep false) (splitSlash ("src/" +:+ upPath (S k) +:+ name)) R
                    = firstn (List.length R - k) R ++ [name]).
    { rewrite Hsplit. cbn [fold_left List.repeat app].
      rewrite (normStep_name false R "src") by reflexivity. rewrite normStep_up_snoc.
      change (String.eqb "src" "..") with false. cbv iota.
      rewrite fold_left_app, fold_ups by exact HR. cbn [fold_left].
      apply normStep_plain, Hname. }
    rewrite path_join_absolute; rewrite ?Hfold; try reflexivity; try assumption.
    destruct (firstn (List.length R - k) R); discriminate.
Qed.

(** ** The commands the pipeline spawns *)

Lemma spawnsConfined_refl (wd : string) (job : Job) : spawnsConfined wd job job [].
Proof. intros Hwd. split; [exact Hwd | constructor]. Qed.

Lemma spawnsConfined_trans (wd : string) (j1 j2 j3 : Job) (c1 c2 : list Call) :
  spawnsConfined wd j1 j2 c1 -> spawnsConfined wd j2 j3 c2 ->
  spawnsConfined wd j1 j3 (c1 ++ c2).
Proof.
  intros H1 H2 Hwd. destruct (H1 Hwd) as [Hwd2 F1]. destruct (H2 Hwd2) as [Hwd3 F2].
  split; [exact Hwd3 | apply Forall_app; split; assumption].
Qed.

Lemma getJob_bind_at {B : Type} (k : Job -> M B) (job : Job) :
  (getJob ≫= k) job = k job job.
Proof.
  unfold mbind, M_bind, bind, getJob. destruct (k job job) as [[r job2] calls2]. reflexivity.
Qed.

Ltac confined_step :=
  lazymatch goal with
  | |- respects _ (ret _) => apply (respects_ret _ (spawnsConfined_refl _))
  | |- respects _ (mret _) => apply (respects_ret _ (spawnsConfined_refl _))
  | |- respects _ (throw _) => apply (respects_throw _ (spawnsConfined_refl _))
  | |- respects _ (await _) => apply (respects_await _ (spawnsConfined_refl _))
  | |- respects _ getJob => apply (respects_getJob _ (spawnsConfined_refl _))
  | |- respects _ (modify _) =>
      let Hwd := fresh "Hwd" in
      apply (respects_modify _); intros ? Hwd; split; [exact Hwd | constructor]
  | |- respects _ (logM _ _) =>
      let Hwd := fresh "Hwd" in
      apply (respects_modify _); intros ? Hwd; split; [exact Hwd | constructor]
  | |- respects _ (pushPhaseError _ _ _) =>
      let Hwd := fresh "Hwd" in
      apply (respects_modify _); intros ? Hwd; split; [exact Hwd | constructor]
  | |- respects _ (logAll _ _) =>
      let Hwd := fresh "Hwd" in
      apply (respects_logAll _ (spawnsConfined_refl _) (spawnsConfined_trans _));
      intros ? ? Hwd; split; [exact Hwd | constructor]
  | |- respects _ (_ ≫= _) => apply (respects_bind _ (spawnsConfined_trans _)); [| intros ?]
  | |- respects _ (tryCatch _ _) =>
      apply (respects_tryCatch _ (spawnsConfined_trans _)); [| intros ?]
  | |- respects _ (if ?b then _ else _) => destruct b
  | |- respects _ (match ?x with _ => _ end) => destruct x
  end.

Lemma adjustArgs_pipelineCommands (args : list string) :
  In args pipelineCommands -> In (adjustArgs args) pipelineCommands.
Proof.
  intros [E | [E | [E | [E | []]]]]; subst args; simpl; tauto.
Qed.

Lemma resolveTool_confined (which : string -> bool) (args : list string) :
  In args pipelineCommands ->
  In (fst (fst (resolveTool which "npm" args))) packageManagers /\
  In (snd (fst (resolveTool which "npm" args))) pipelineCommands.
Proof.
  intros Hargs. unfold resolveTool. cbn [String.eqb Ascii.eqb Bool.eqb].
  destruct (find which packageManagers) as [pm |] eqn:Hfind; cbn [fst snd].
  - split; [exact (proj1 (find_some _ _ Hfind)) | apply adjustArgs_pipelineCommands, Hargs].
  - split; [simpl; tauto | exact Hargs].
Qed.

Lemma probedTools_incl (which : string -> bool) (pms : list string) (tool : string) :
  In tool (probedTools which pms) -> In tool pms.
Proof.
  induction pms as [| pm rest IH]; cbn [probedTools]; [intros [] |].
  intros [E | Hin]; [left; exact E |].
  destruct (which pm); [destruct Hin | right; apply IH, Hin].
Qed.

Lemma runCommand_confined (wd : string) (w : CommandWorld) (args : list string)
  (description : string) :
  In args pipelineCommands ->
  respects (spawnsConfined wd) (runCommand w "npm" args description).
Proof.
  intros Hargs job. unfold runCommand. rewrite getJob_bind_at. intros Hwd.
  pose proof (resolveTool_confined (which w) args Hargs) as [Htool Hcmd].
  destruct (resolveTool (which w) "npm" args) as [[tool args'] pmLogs]. cbn [fst snd] in Htool, Hcmd.
  lazymatch goal with
  | |- outputPath (snd (fst (?m job))) = wd /\ _ =>
      assert (H : respects (spawnsConfined wd) m); [| exact (H job Hwd)]
  end.
  confined_step; [confined_step |].
  confined_step.
  { apply (respects_callAll _ (spawnsConfined_refl _) (spawnsConfined_trans _)).
    intros c job0 Hin Hwd0. split; [exact Hwd0 |]. constructor; [| constructor].
    apply list_elem_of_In, list_elem_of_fmap in Hin as (probed & -> & Hin).
    apply list_elem_of_In in Hin. cbn [confinedCall].
    unfold whichProbes in Hin. cbn [String.eqb Ascii.eqb Bool.eqb] in Hin.
    apply (probedTools_incl _ _ _ Hin). }
  confined_step; [confined_step |].
  confined_step.
  { apply (respects_call _). intros job0 Hwd0. split; [exact Hwd0 |].
    constructor; [| constructor].
    cbn [confinedCall]. repeat split; assumption. }
  destruct (spawnError w); [confined_step |].
  confined_step; [confined_step |].
  confined_step; [confined_step |].
  destruct (promise _); confined_step.
Qed.

Lemma buildPlugin_confined (wd : string) (w : RoundWorld) :
  respects (spawnsConfined wd) (buildPlugin w).
Proof.
  unfold buildPlugin.
  repeat first [confined_step | apply runCommand_confined; simpl; tauto].
Qed.

Lemma lintPlugin_confined (wd : string) (w : RoundWorld) :
  respects (spawnsConfined wd) (lintPlugin w).
Proof.
  unfold lintPlugin.
  repeat first [confined_step | apply runCommand_confined; simpl; tauto].
Qed.

Lemma testPlugin_confined (wd : string) (w : RoundWorld) :
  respects (spawnsConfined wd) (testPlugin w).
Proof.
  unfold testPlugin.
  repeat first [confined_step | apply runCommand_confined; simpl; tauto].
Qed.

Ltac confined_call :=
  let Hwd := fresh "Hwd" in
  apply (respects_call _); intros ? Hwd; split;
  [exact Hwd | constructor; [exact I | constructor]].

Lemma validatePlugin_confined (wd : string) (anthropic : option string) (w : RoundWorld) :
  respects (spawnsConfined wd) (validatePlugin anthropic w).
Proof.
  unfold validatePlugin.
  repeat first [confined_step | confined_call].
Qed.

Lemma generatePluginCode_confined (wd : string) (anthropic : option string) (w : RoundWorld) :
  respects (spawnsConfined wd) (generatePluginCode anthropic w).
Proof.
  unfold generatePluginCode.
  repeat first [confined_step | confined_call].
Qed.

Lemma runSingleIteration_confined (wd : string) (anthropic : option string) (w : RoundWorld) :
  respects (spawnsConfined wd) (runSingleIteration anthropic w).
Proof.
  unfold runSingleIteration.
  repeat first
    [ apply generatePluginCode_confined | apply buildPlugin_confined
    | apply lintPlugin_confined | apply testPlugin_confined
    | apply validatePlugin_confined | confined_step ].
Qed.

Lemma creationLoop_confined (wd : string) (fuel : nat) (anthropic : option string)
  (pw : ProcessWorld) (success : bool) :
  respects (spawnsConfined wd) (creationLoop fuel anthropic pw success).
Proof.
  revert success. induction fuel as [| fuel IH]; intros success; cbn [creationLoop];
    unfold prepareNextIteration;
    repeat first [apply IH | apply runSingleIteration_confined | confined_step | confined_call].
Qed.

Lemma runCreationProcess_confined (wd : string) (anthropic : option string)
  (pw : ProcessWorld) (useTemplate : bool) :
  respects (spawnsConfined wd) (runCreationProcess anthropic pw useTemplate).
Proof.
  unfold runCreationProcess, setupPluginWorkspace.
  repeat first
    [ apply creationLoop_confined | confined_step | confined_call
    | lazymatch goal with |- respects _ (match ?x with _ => _ end) => destruct x end ].
Qed.

(** X26.  Whatever the host delivers, the processes that the background
    creation process starts are of two kinds only: the probes
    [which <tool>], run through a shell, for a tool among bun, pnpm, yarn
    and npm; and one of these four package managers, spawned without a
    shell with [install], [run build], [run lint] or [test] in the output
    path the job had when the process began.  And the process leaves the
    job's output path as it was. *)
Theorem pipeline_spawns_only_package_managers (anthropic : option string)
  (pw : ProcessWorld) (useTemplate : bool) (job : Job) :
  outputPath (snd (fst (runCreationProcess anthropic pw useTemplate job))) = outputPath job /\
  (forall tool args workdir,
     In (CallSpawn tool args workdir) (snd (runCreationProcess anthropic pw useTemplate job)) ->
     In tool ["bun"; "pnpm"; "yarn"; "npm"] /\
     In args [["install"]; ["run"; "build"]; ["run"; "lint"]; ["test"]] /\
     workdir = outputPath job) /\
  (forall tool,
     In (CallWhich tool) (snd (runCreationProcess anthropic pw useTemplate job)) ->
     In tool ["bun"; "pnpm"; "yarn"; "npm"]).
Proof.
  destruct (runCreationProcess_confined (outputPath job) anthropic pw useTemplate job eq_refl)
    as [Hpath Hcalls].
  rewrite List.Forall_forall in Hcalls.
  split; [exact Hpath |]. split.
  - intros tool args workdir Hin. exact (Hcalls _ Hin).
  - intros tool Hin. exact (Hcalls _ Hin).
Qed.

(** ** Instances *)

Lemma terminal_status_absorbs_cancel_and_timeout_witness :
  cancelJob 2000 true "3b241101-e2bb-4255-8caf-4136c566a962"
    (performAll [OpStop 1700; OpCleanup 1800; OpSetModel SONNET_3_5]
       (fst (cancelJob 1500 true "3b241101-e2bb-4255-8caf-4136c566a962" sampleService)))
  = (performAll [OpStop 1700; OpCleanup 1800; OpSetModel SONNET_3_5]
       (fst (cancelJob 1500 true "3b241101-e2bb-4255-8caf-4136c566a962" sampleService)), []).
Proof.
  exact (proj1 (proj1 (terminal_status_absorbs_cancel_and_timeout 1500 2000 true true
                         "3b241101-e2bb-4255-8caf-4136c566a962" sampleService
                         [OpStop 1700; OpCleanup 1800; OpSetModel SONNET_3_5] eq_refl)
                  _ (or_introl eq_refl))).
Defined.

Lemma accepted_name_is_refused_ever_after_witness :
  createPlugin anHourLater sampleSpec None None
    (performAll [OpCancel 1500 true "3b241101-e2bb-4255-8caf-4136c566a962"; OpCleanup 700000000]
       (snd (fst (createPlugin sampleHost sampleSpec (Some "sk-test") None
                    (initialService None)))))
  = (Threw (duplicateMessage (name sampleSpec)),
     performAll [OpCancel 1500 true "3b241101-e2bb-4255-8caf-4136c566a962"; OpCleanup 700000000]
       (snd (fst (createPlugin sampleHost sampleSpec (Some "sk-test") None
                    (initialService None)))),
     []).
Proof.
  assert (Hret : fst (fst (createPlugin sampleHost sampleSpec (Some "sk-test") None
                             (initialService None)))
                 = Returned "3b241101-e2bb-4255-8caf-4136c566a962")
    by (vm_compute; reflexivity).
  exact (proj1 (accepted_name_is_refused_ever_after sampleHost sampleSpec (Some "sk-test") None
                  (initialService None) _
                  [OpCancel 1500 true "3b241101-e2bb-4255-8caf-4136c566a962"; OpCleanup 700000000]
                  anHourLater sampleSpec None None Hret eq_refl)).
Defined.

Lemma command_result_settles_once_witness :
  promise (runHarness "npm" (helloEvents ++ [TimerFires false; OnError "EPIPE" "broken pipe"]))
  = Resolved {| success := true; output := "hello" |}.
Proof.
  exact (proj1 (command_result_settles_once "npm" helloEvents
                  [TimerFires false; OnError "EPIPE" "broken pipe"]
                  {| success := true; output := "hello" |} eq_refl)).
Defined.

Lemma sanitized_name_is_one_safe_segment_witness :
  allChars safeChar (sanitizePluginName "@ElizaOS/plugin-time") = true /\
  sanitizePluginName (sanitizePluginName "@ElizaOS/plugin-time")
    = sanitizePluginName "@ElizaOS/plugin-time".
Proof.
  destruct (sanitized_name_is_one_safe_segment "@ElizaOS/plugin-time" eq_refl)
    as (H1 & _ & _ & H4 & _).
  exact (conj H1 H4).
Defined.

Lemma test_counts_are_read_back_witness :
  testsFailed (parseTestResults
                 (" Tests  " +:+ showZ 2 +:+ " failed" +:+ " | " +:+ showZ 10 +:+ " passed"
                  +:+ " (12)")) = 2 /\
  passed (parseTestResults
            (" Tests  " +:+ showZ 2 +:+ " failed" +:+ " | " +:+ showZ 10 +:+ " passed"
             +:+ " (12)")) = 10.
Proof.
  assert (H2 : 0 <= 2 <= maxSafeInteger) by (unfold maxSafeInteger; lia).
  assert (H10 : 0 <= 10 <= maxSafeInteger) by (unfold maxSafeInteger; lia).
  destruct (test_counts_are_read_back " Tests  " " | " " (12)" 2 10 H2 H10 eq_refl eq_refl)
    as (Hf & Hp & _).
  exact (conj Hf Hp).
Defined.

Lemma test_phase_reports_parsed_failures_witness :
  fst (fst (testPlugin
              {| generateReply := Returned tt;
                 installRun := commandRun 10 0 "installed";
                 buildRun := commandRun 20 0 "built";
                 lintRun := commandRun 30 0 "clean";
                 testRun := commandRun 40 1 "Error: Cannot find module vitest";
                 validateReply := Awaiting; failureClock := 50;
                 prepareReply := Returned tt |} sampleJob)) = Returned false /\
  error (snd (fst (testPlugin
              {| generateReply := Returned tt;
                 installRun := commandRun 10 0 "installed";
                 buildRun := commandRun 20 0 "built";
                 lintRun := commandRun 30 0 "clean";
                 testRun := commandRun 40 1 "Error: Cannot find module vitest";
                 validateReply := Awaiting; failureClock := 50;
                 prepareReply := Returned tt |} sampleJob))) = Some "0 tests failed".
Proof.
  destruct (test_phase_reports_parsed_failures
              {| generateReply := Returned tt;
                 installRun := commandRun 10 0 "installed";
                 buildRun := commandRun 20 0 "built";
                 lintRun := commandRun 30 0 "clean";
                 testRun := commandRun 40 1 "Error: Cannot find module vitest";
                 validateReply := Awaiting; failureClock := 50;
                 prepareReply := Returned tt |} sampleJob
              {| success := false; output := "Error: Cannot find module vitest" |} eq_refl
              ltac:(vm_compute; discriminate) ltac:(vm_compute; discriminate))
    as (H1 & _ & _ & H4).
  split; [exact H1 | exact (H4 eq_refl eq_refl)].
Defined.

Lemma refused_creation_leaves_no_job_witness :
  jobs (snd (fst (createPlugin sampleHost
                    {| name := "../../../etc/passwd"; description := "escape";
                       version := None |}
                    (Some "sk-test") None sampleService))) = jobs sampleService /\
  snd (createPlugin sampleHost
         {| name := "../../../etc/passwd"; description := "escape"; version := None |}
         (Some "sk-test") None sampleService) = [].
Proof.
  assert (Hthrow : fst (fst (createPlugin sampleHost
                               {| name := "../../../etc/passwd"; description := "escape";
                                  version := None |}
                               (Some "sk-test") None sampleService))
                   = Threw invalidNameMessage) by (vm_compute; reflexivity).
  destruct (refused_creation_leaves_no_job sampleHost
              {| name := "../../../etc/passwd"; description := "escape"; version := None |}
              (Some "sk-test") None sampleService invalidNameMessage Hthrow)
    as (H1 & _ & _ & H4 & _).
  exact (conj H1 H4).
Defined.

Lemma accepted_creation_registers_job_witness :
  snd (createPlugin sampleHost sampleSpec (Some "sk-test") None (initialService None))
    = [SetTimeout "3b241101-e2bb-4255-8caf-4136c566a962" (30 * 60 * 1000);
       RunCreationProcess "3b241101-e2bb-4255-8caf-4136c566a962" true] /\
  isPluginCreated (name sampleSpec)
    (snd (fst (createPlugin sampleHost sampleSpec (Some "sk-test") None (initialService None))))
    = true.
Proof.
  assert (Hret : fst (fst (createPlugin sampleHost sampleSpec (Some "sk-test") None
                             (initialService None)))
                 = Returned "3b241101-e2bb-4255-8caf-4136c566a962")
    by (vm_compute; reflexivity).
  destruct (accepted_creation_registers_job sampleHost sampleSpec (Some "sk-test") None
              (initialService None) _ Hret) as (_ & _ & H3 & _ & H5 & _).
  exact (conj H5 H3).
Defined.

Lemma failed_round_feeds_next_generation_witness :
  exists (e : JobError) (previousErrors : list JobError) (rest : list Call),
    errors (snd (fst (runSingleIteration (Some "sk-test") brokenBuildRound
                        (set_currentIteration 1 sampleJob))))
      = errors (set_currentIteration 1 sampleJob) ++ [e] /\
    snd (runSingleIteration (Some "sk-test") passingRound
           (roundStart flakyProcess
              (set_status running
                 (snd (fst (runSingleIteration (Some "sk-test") brokenBuildRound
                              (set_currentIteration 1 sampleJob)))))))
      = CallGenerate false previousErrors :: rest /\
    In e previousErrors.
Proof.
  assert (Hit : 1 <= currentIteration (set_currentIteration 1 sampleJob)) by (cbn; lia).
  assert (Hret : fst (fst (runSingleIteration (Some "sk-test") brokenBuildRound
                             (set_currentIteration 1 sampleJob))) = Returned false)
    by (vm_compute; reflexivity).
  destruct (failed_round_feeds_next_generation (Some "sk-test") brokenBuildRound passingRound
              flakyProcess (set_currentIteration 1 sampleJob) eq_refl Hit Hret)
    as (e & previousErrors & rest & H1 & H2 & H3 & _).
  exists e, previousErrors, rest. exact (conj H1 (conj H2 H3)).
Defined.

Lemma job_timeout_fails_active_job_witness :
  exists job' : Job,
    jobs (jobTimedOut 1801000 "3b241101-e2bb-4255-8caf-4136c566a962" sampleService)
      !! "3b241101-e2bb-4255-8caf-4136c566a962" = Some job' /\
    status job' = failed /\ completedAt job' = Some 1801000.
Proof.
  assert (Hk : jobs sampleService !! "3b241101-e2bb-4255-8caf-4136c566a962" = Some sampleJob)
    by (vm_compute; reflexivity).
  destruct (job_timeout_fails_active_job 1801000 "3b241101-e2bb-4255-8caf-4136c566a962"
              sampleService sampleJob Hk eq_refl) as ((job' & H1 & H2 & _ & H4 & _) & _).
  exists job'. exact (conj H1 (conj H2 H4)).
Defined.

Lemma generated_file_path_is_not_confined_witness :
  generatedFilePath "/srv/data/plugins/job-1/acme-x" "../../../../../../passwd" = "/passwd".
Proof.
  destruct (generated_file_path_is_not_confined
              ["srv"; "data"; "plugins"; "job-1"; "acme-x"] "" [] eq_refl)
    as (_ & _ & H).
  - discriminate.
  - exact (H 5%nat "passwd" eq_refl).
Defined.
